(** * chutes: the [Cord] endpoint (src/chutes/chute/cord.py)

    A shallow embedding of the dual-mode endpoint object of the chutes SDK:
    path registration and validation, the client-side stub (encode, POST,
    provisioning retry, event-stream decoding) and the server-side handler
    (safe decoding, passthrough relay, direct execution). *)

From Stdlib Require Import ZArith Ascii String List Bool Lia Floats.
From stdpp Require Import base option list gmap pretty.
Import ListNotations.

Local Open Scope Z_scope.
Local Open Scope list_scope.

(** Python [str] and [bytes] values are modelled as lists of 8-bit
    characters; [py "foo"] writes a literal. *)
Abbreviation str := (list ascii) (only parsing).
Abbreviation bytes := (list ascii) (only parsing).

Definition py (s : string) : list ascii := list_ascii_of_string s.

(** ** Python string operations used by cord.py *)
Module Str.

Definition eqb (a b : ascii) : bool := Ascii.eqb a b.

Definition mem (c : ascii) (chars : str) : bool := existsb (eqb c) chars.

(** [s.lstrip(chars)]: drop every leading character that is in [chars]. *)
Fixpoint lstrip (chars s : str) : str :=
  match s with
  | [] => []
  | c :: s' => if mem c chars then lstrip chars s' else s
  end.

(** [s.rstrip(chars)]: the same from the right end. *)
Definition rstrip (chars s : str) : str := rev (lstrip chars (rev s)).

Fixpoint startswith (pre s : str) : bool :=
  match pre, s with
  | [], _ => true
  | _ :: _, [] => false
  | a :: pre', b :: s' => eqb a b && startswith pre' s'
  end.

(** [sub in s] *)
Fixpoint contains (sub s : str) : bool :=
  startswith sub s ||
  match s with
  | [] => false
  | _ :: s' => contains sub s'
  end.

(** [a == b] on strings *)
Fixpoint str_eqb (a b : str) : bool :=
  match a, b with
  | [], [] => true
  | x :: a', y :: b' => eqb x y && str_eqb a' b'
  | _, _ => false
  end.

(** Code points for which [str.isspace] holds, below 256. *)
Definition isspace (c : ascii) : bool :=
  let n := N_of_ascii c in
  ((9 <=? n) && (n <=? 13) || (28 <=? n) && (n <=? 32)
   || (n =? 133) || (n =? 160))%N.

Fixpoint lstrip_space (s : str) : str :=
  match s with
  | [] => []
  | c :: s' => if isspace c then lstrip_space s' else s
  end.

(** [s.strip()] *)
Definition strip (s : str) : str := rev (lstrip_space (rev (lstrip_space s))).

Definition is_upper (c : ascii) : bool :=
  let n := N_of_ascii c in ((65 <=? n) && (n <=? 90))%N.

(** The characters below 256 that [str.lower] changes: the letters A-Z
    and the Latin-1 capitals from 192 to 222, without the multiplication
    sign 215. Each goes to the character 32 places further. *)
Definition has_lower (c : ascii) : bool :=
  let n := N_of_ascii c in
  (is_upper c || (192 <=? n) && (n <=? 222) && negb (n =? 215))%N.

Definition lower_char (c : ascii) : ascii :=
  if has_lower c then ascii_of_N (N_of_ascii c + 32) else c.

(** [s.lower()] on strings of 8-bit characters. *)
Definition lower (s : str) : str := map lower_char s.

(** [sep.join(parts)] *)
Fixpoint join (sep : str) (parts : list str) : str :=
  match parts with
  | [] => []
  | p :: rest =>
      match rest with
      | [] => p
      | _ :: _ => p ++ sep ++ join sep rest
      end
  end.

Definition endswith_nl (s : str) : bool :=
  match rev s with
  | c :: _ => eqb c "010"%char
  | [] => false
  end.

End Str.

(** ** Regular expressions (the fragment of Python's [re] that PATH_RE uses) *)
Module Re.

Inductive regex : Type :=
| Empty : regex                         (* matches nothing *)
| Eps : regex                           (* matches the empty string *)
| Class : (ascii -> bool) -> regex      (* a character or a [...] class *)
| Cat : regex -> regex -> regex
| Alt : regex -> regex -> regex
| Star : regex -> regex.

(** [r+] *)
Definition Plus (r : regex) : regex := Cat r (Star r).

Definition Chr (c : ascii) : regex := Class (Str.eqb c).

Fixpoint nullable (r : regex) : bool :=
  match r with
  | Empty => false
  | Eps => true
  | Class _ => false
  | Cat r1 r2 => nullable r1 && nullable r2
  | Alt r1 r2 => nullable r1 || nullable r2
  | Star _ => true
  end.

(** Brzozowski derivative by one character. *)
Fixpoint deriv (c : ascii) (r : regex) : regex :=
  match r with
  | Empty => Empty
  | Eps => Empty
  | Class f => if f c then Eps else Empty
  | Cat r1 r2 =>
      if nullable r1
      then Alt (Cat (deriv c r1) r2) (deriv c r2)
      else Cat (deriv c r1) r2
  | Alt r1 r2 => Alt (deriv c r1) (deriv c r2)
  | Star r1 => Cat (deriv c r1) (Star r1)
  end.

(** Does [r] match the whole of [s]? *)
Fixpoint fullmatch (r : regex) (s : str) : bool :=
  match s with
  | [] => nullable r
  | c :: s' => fullmatch (deriv c r) s'
  end.

(** [re.compile("^" r "$").match(s)] without flags: [^] anchors at the
    start; [$] matches at the very end of the string and also just before
    a newline that is the last character. *)
Definition match_anchored (r : regex) (s : str) : bool :=
  fullmatch r s ||
  match rev s with
  | c :: s' => Str.eqb c "010"%char && fullmatch r (rev s')
  | [] => false
  end.

(** The language of a regular expression. *)
Inductive matches : regex -> str -> Prop :=
| MEps : matches Eps []
| MClass f c : f c = true -> matches (Class f) [c]
| MCat r1 r2 s1 s2 :
    matches r1 s1 -> matches r2 s2 -> matches (Cat r1 r2) (s1 ++ s2)
| MAltL r1 r2 s : matches r1 s -> matches (Alt r1 r2) s
| MAltR r1 r2 s : matches r2 s -> matches (Alt r1 r2) s
| MStarNil r : matches (Star r) []
| MStarApp r s1 s2 :
    matches r s1 -> matches (Star r) s2 -> matches (Star r) (s1 ++ s2).

End Re.

(** ** PATH_RE (cord.py:21) *)

Definition in_range (lo hi c : ascii) : bool :=
  ((N_of_ascii lo <=? N_of_ascii c) && (N_of_ascii c <=? N_of_ascii hi))%N.

(** [[a-z0-9]] *)
Definition lower_or_digit (c : ascii) : bool :=
  in_range "a" "z" c || in_range "0" "9" c.

(** [[a-z0-9-_]]: the hyphen after the range [0-9] is a literal. *)
Definition word_char (c : ascii) : bool :=
  in_range "a" "z" c || in_range "0" "9" c || Str.eqb "-" c || Str.eqb "_" c.

(** The pattern between [^] and [$]: one or more groups, each a slash,
    one or more of [[a-z0-9]], then any number of [[a-z0-9-_]]. *)
Definition PATH_RE_body : Re.regex :=
  Re.Plus
    (Re.Cat (Re.Chr "/")
       (Re.Cat (Re.Plus (Re.Class lower_or_digit))
               (Re.Star (Re.Class word_char)))).

(** [PATH_RE.match(path)] as a truth value. *)
Definition PATH_RE_match (path : str) : bool :=
  Re.match_anchored PATH_RE_body path.

(** [path = "/" + path.lstrip("/").rstrip("/")] (cord.py:75, 98, 119). *)
Definition normalize (path : str) : str :=
  "/"%char :: Str.rstrip (py "/") (Str.lstrip (py "/") path).

(** The guard of the three setters: ["//" in path or not PATH_RE.match(path)]. *)
Definition path_rejected (path : str) : bool :=
  Str.contains (py "//") path || negb (PATH_RE_match path).


(** ** Python values *)

(** The values that travel as call arguments and JSON documents. A [dict]
    keeps its items in insertion order, with string keys. *)
#[local] Unset Elimination Schemes.
Inductive pyval : Type :=
| VNone : pyval
| VBool : bool -> pyval
| VInt : Z -> pyval
| VFloat : float -> pyval
| VStr : str -> pyval
| VBytes : bytes -> pyval
| VList : list pyval -> pyval
| VTuple : list pyval -> pyval
| VDict : list (str * pyval) -> pyval.
#[local] Set Elimination Schemes.

(** Truth value of an object in a condition ([if x:], [not x]). *)
Definition truthy (v : pyval) : bool :=
  match v with
  | VNone => false
  | VBool b => b
  | VInt n => negb (n =? 0)
  | VFloat x => negb (PrimFloat.eqb x 0%float)
  | VStr s => negb (Nat.eqb (length s) 0)
  | VBytes b => negb (Nat.eqb (length b) 0)
  | VList xs => negb (Nat.eqb (length xs) 0)
  | VTuple xs => negb (Nat.eqb (length xs) 0)
  | VDict kvs => negb (Nat.eqb (length kvs) 0)
  end.

Definition str_truthy (s : str) : bool := negb (Nat.eqb (length s) 0).

(** Truth value of an attribute that holds [None] or a string. *)
Definition opt_truthy (o : option str) : bool :=
  match o with
  | None => false
  | Some s => str_truthy s
  end.

Fixpoint assoc {A : Type} (k : str) (kvs : list (str * A)) : option A :=
  match kvs with
  | [] => None
  | (k', v) :: rest => if Str.str_eqb k' k then Some v else assoc k rest
  end.

(** ** Exceptions *)

Inductive exn : Type :=
| InvalidPath : str -> exn                 (* chutes.exception *)
| DuplicatePath : str -> exn               (* chutes.exception *)
| StillProvisioning : str -> exn           (* chutes.exception *)
| PyException : pyval -> exn               (* Exception(x) *)
| KeyError : str -> exn
| TypeError : exn
| AttributeError : str -> exn
| UnsafeFileError : str -> exn             (* fickling.exception, with str(exc) *)
| HTTPException : Z -> str -> exn          (* fastapi: status_code, detail *)
| LibraryError : str -> exn.               (* any other error raised by a library *)

Definition result (A : Type) : Type := exn + A.

(** [d.get(key)] *)
Definition py_get (d : pyval) (key : str) : result pyval :=
  match d with
  | VDict kvs => inr (default VNone (assoc key kvs))
  | _ => inl (AttributeError (py "get"))
  end.

(** [d[key]] for a string key. *)
Definition py_getitem (d : pyval) (key : str) : result pyval :=
  match d with
  | VDict kvs =>
      match assoc key kvs with
      | Some v => inr v
      | None => inl (KeyError key)
      end
  | _ => inl TypeError
  end.

(** Star-unpacking in a call: the positional arguments [v] gives. *)
Definition star (v : pyval) : result (list pyval) :=
  match v with
  | VTuple xs => inr xs
  | VList xs => inr xs
  | VDict kvs => inr (map (fun kv => VStr (fst kv)) kvs)
  | VStr s => inr (map (fun c => VStr [c]) s)
  | VBytes b => inr (map (fun c => VInt (Z.of_N (N_of_ascii c))) b)
  | _ => inl TypeError
  end.

(** Double-star unpacking in a call: the keyword arguments [v] gives. *)
Definition starstar (v : pyval) : result (list (str * pyval)) :=
  match v with
  | VDict kvs => inr kvs
  | _ => inl TypeError
  end.

(** ** Objects and the world *)

Inductive level : Type := DEBUG | INFO | SUCCESS | WARNING | ERROR.

(** The wrapped function: its name and a handle on its behaviour. *)
Record pyfunc : Type := { __name__ : str; func_id : nat }.

(** What an HTTP client sees of a response (aiohttp.ClientResponse). *)
Record Response : Type := {
  status : Z;
  text : str;                       (* await response.text() *)
  content : list bytes;             (* the items async-iterating response.content gives *)
  json_body : result pyval          (* await response.json() *)
}.



(** An outbound HTTP call, as recorded by the world. *)
Record HttpCall : Type := {
  call_base_url : str;
  call_method : str;
  call_url : str;
  call_data : str;
  call_headers : list (str * str);
  call_kwargs : list (str * pyval)
}.

(** Modelled from the spec: the class chutes.chute.base.Chute is not part
    of these sources. A service instance owns its endpoints; cord.py reads
    its [uid] and its [cords], here the identities of the endpoints it
    owns. *)
Record Chute : Type := { uid : str; cords : list nat }.

Module Cord.
(** The attributes [__init__] and [__call__] assign. [_func] does not
    exist before [__call__]. *)
Record t : Type := {
  _app : nat;
  _path : option str;
  _passthrough_path : option str;
  _public_api_path : option str;
  _public_api_method : str;
  _passthrough_port : option Z;
  _stream : bool;
  _passthrough : bool;
  _method : str;
  _session_kwargs : list (str * pyval);
  _provision_timeout : Z;
  _func : option pyfunc
}.

Definition with_path (p : option str) (c : t) : t :=
  {| _app := _app c; _path := p; _passthrough_path := _passthrough_path c;
     _public_api_path := _public_api_path c;
     _public_api_method := _public_api_method c;
     _passthrough_port := _passthrough_port c; _stream := _stream c;
     _passthrough := _passthrough c; _method := _method c;
     _session_kwargs := _session_kwargs c;
     _provision_timeout := _provision_timeout c; _func := _func c |}.

Definition with_passthrough_path (p : option str) (c : t) : t :=
  {| _app := _app c; _path := _path c; _passthrough_path := p;
     _public_api_path := _public_api_path c;
     _public_api_method := _public_api_method c;
     _passthrough_port := _passthrough_port c; _stream := _stream c;
     _passthrough := _passthrough c; _method := _method c;
     _session_kwargs := _session_kwargs c;
     _provision_timeout := _provision_timeout c; _func := _func c |}.

Definition with_public_api_path (p : option str) (c : t) : t :=
  {| _app := _app c; _path := _path c;
     _passthrough_path := _passthrough_path c; _public_api_path := p;
     _public_api_method := _public_api_method c;
     _passthrough_port := _passthrough_port c; _stream := _stream c;
     _passthrough := _passthrough c; _method := _method c;
     _session_kwargs := _session_kwargs c;
     _provision_timeout := _provision_timeout c; _func := _func c |}.

Definition with_passthrough_port (p : option Z) (c : t) : t :=
  {| _app := _app c; _path := _path c;
     _passthrough_path := _passthrough_path c;
     _public_api_path := _public_api_path c;
     _public_api_method := _public_api_method c;
     _passthrough_port := p; _stream := _stream c;
     _passthrough := _passthrough c; _method := _method c;
     _session_kwargs := _session_kwargs c;
     _provision_timeout := _provision_timeout c; _func := _func c |}.

Definition with_func (f : option pyfunc) (c : t) : t :=
  {| _app := _app c; _path := _path c;
     _passthrough_path := _passthrough_path c;
     _public_api_path := _public_api_path c;
     _public_api_method := _public_api_method c;
     _passthrough_port := _passthrough_port c; _stream := _stream c;
     _passthrough := _passthrough c; _method := _method c;
     _session_kwargs := _session_kwargs c;
     _provision_timeout := _provision_timeout c; _func := f |}.
End Cord.

(** The store of objects (endpoints and services by identity), the log,
    the clock and the HTTP calls made so far (latest first). *)
Record World : Type := {
  cord_objs : gmap nat Cord.t;
  chute_objs : gmap nat Chute;
  log : list (level * str);
  clock : Z;
  api_calls : list HttpCall;
  sidecar_calls : list HttpCall;
  func_calls : list (nat * list pyval * list (str * pyval))
}.

Definition set_cord_objs (m : gmap nat Cord.t) (w : World) : World :=
  {| cord_objs := m; chute_objs := chute_objs w; log := log w;
     clock := clock w; api_calls := api_calls w;
     sidecar_calls := sidecar_calls w; func_calls := func_calls w |}.

Definition add_log (l : level) (msg : str) (w : World) : World :=
  {| cord_objs := cord_objs w; chute_objs := chute_objs w;
     log := log w ++ [(l, msg)];
     clock := clock w; api_calls := api_calls w;
     sidecar_calls := sidecar_calls w; func_calls := func_calls w |}.

Definition set_clock (t : Z) (w : World) : World :=
  {| cord_objs := cord_objs w; chute_objs := chute_objs w; log := log w;
     clock := t; api_calls := api_calls w;
     sidecar_calls := sidecar_calls w; func_calls := func_calls w |}.

Definition add_api_call (c : HttpCall) (w : World) : World :=
  {| cord_objs := cord_objs w; chute_objs := chute_objs w; log := log w;
     clock := clock w; api_calls := c :: api_calls w;
     sidecar_calls := sidecar_calls w; func_calls := func_calls w |}.

Definition add_sidecar_call (c : HttpCall) (w : World) : World :=
  {| cord_objs := cord_objs w; chute_objs := chute_objs w; log := log w;
     clock := clock w; api_calls := api_calls w;
     sidecar_calls := c :: sidecar_calls w; func_calls := func_calls w |}.

Definition add_func_call (c : nat * list pyval * list (str * pyval))
    (w : World) : World :=
  {| cord_objs := cord_objs w; chute_objs := chute_objs w; log := log w;
     clock := clock w; api_calls := api_calls w;
     sidecar_calls := sidecar_calls w; func_calls := func_calls w ++ [c] |}.

(** ** Computations: state and exceptions *)

(** A computation runs in a world and ends in a new world with either an
    exception or a value; the effects made before a [raise] stay. *)
Definition M (A : Type) : Type := World -> World * result A.

Definition ret {A : Type} (a : A) : M A := fun w => (w, inr a).

Definition raise {A : Type} (e : exn) : M A := fun w => (w, inl e).

Definition bind {A B : Type} (m : M A) (k : A -> M B) : M B :=
  fun w =>
    match m w with
    | (w', inl e) => (w', inl e)
    | (w', inr a) => k a w'
    end.

Notation "x <- c1 ;; c2" := (bind c1 (fun x => c2))
  (at level 20, c1 at level 99, c2 at level 200, only parsing).
Notation "c1 ;; c2" := (bind c1 (fun _ => c2))
  (at level 100, c2 at level 200, right associativity, only parsing).

Definition lift {A : Type} (r : result A) : M A := fun w => (w, r).

Definition get_world : M World := fun w => (w, inr w).

Definition modify (f : World -> World) : M unit := fun w => (f w, inr tt).

Definition logger (l : level) (msg : str) : M unit := modify (add_log l msg).

(** [time.time()] *)
Definition time_time : M Z := fun w => (w, inr (clock w)).

(** [try: m  except <caught> as exc: handler exc] *)
Definition try_except {A : Type} (m : M A) (caught : exn -> bool)
    (handler : exn -> M A) : M A :=
  fun w =>
    match m w with
    | (w', inl e) => if caught e then handler e w' else (w', inl e)
    | r => r
    end.

(** Reading an object through its identity. An identity that the store does
    not hold denotes no object; a well-formed store has none reachable. *)
Definition get_cord (self : nat) : M Cord.t :=
  fun w =>
    match cord_objs w !! self with
    | Some c => (w, inr c)
    | None => (w, inl (LibraryError (py "no such object")))
    end.

Definition get_chute (app : nat) : M Chute :=
  fun w =>
    match chute_objs w !! app with
    | Some a => (w, inr a)
    | None => (w, inl (LibraryError (py "no such object")))
    end.

Definition update_cord (self : nat) (f : Cord.t -> Cord.t) : M unit :=
  c <- get_cord self ;;
  modify (fun w => set_cord_objs (<[self := f c]> (cord_objs w)) w).

(** ** Generators: computations that also yield *)

(** An (async) generator run to its end: the values it yielded, in order,
    and how it ended. *)
Definition G (A : Type) : Type := World -> World * list pyval * result A.

Definition gret {A : Type} (a : A) : G A := fun w => (w, [], inr a).

Definition gyield (v : pyval) : G unit := fun w => (w, [v], inr tt).

Definition glift {A : Type} (m : M A) : G A :=
  fun w => let (w', r) := m w in (w', [], r).

Definition gbind {A B : Type} (g : G A) (k : A -> G B) : G B :=
  fun w =>
    match g w with
    | (w', ys, inl e) => (w', ys, inl e)
    | (w', ys, inr a) =>
        match k a w' with
        | (w'', ys', r) => (w'', ys ++ ys', r)
        end
    end.

Notation "x <~ c1 ;; c2" := (gbind c1 (fun x => c2))
  (at level 20, c1 at level 99, c2 at level 200, only parsing).

(** [async for x in xs: body x] over the items a finished source gives. *)
Fixpoint async_for {X : Type} (xs : list X) (body : X -> G unit) : G unit :=
  match xs with
  | [] => gret tt
  | x :: xs' => gbind (body x) (fun _ => async_for xs' body)
  end.

(** An async context manager made from a generator with one [yield]:
    entering it runs the generator up to the [yield] and gives the yielded
    value together with the rest of the generator, which runs when the
    block ends normally. None of the generators of cord.py catches an
    exception thrown in at its [yield], so a block that raises just
    propagates. *)
Definition ctxmgr (A : Type) : Type := M (A * M unit).

(** [@asynccontextmanager]: calling the decorated function runs none of its
    body; the call only builds the manager (contextlib's [helper] returns
    [_AsyncGeneratorContextManager(func, args, kwds)]). *)
Definition asynccontextmanager {A : Type} (generator : ctxmgr A) : M (ctxmgr A) :=
  ret generator.

(** [async with cm as x: body x], the block being part of a generator. *)
Definition async_with_g {A B : Type} (cm : ctxmgr A) (body : A -> G B) : G B :=
  gbind (glift cm) (fun entered =>
  gbind (body (fst entered)) (fun r =>
  gbind (glift (snd entered)) (fun _ => gret r))).

(** [async with cm as x: body x] in a coroutine. *)
Definition async_with {A B : Type} (cm : ctxmgr A) (body : A -> M B) : M B :=
  entered <- cm ;;
  r <- body (fst entered) ;;
  snd entered ;;
  ret r.

(** ** backoff.on_exception *)

(** [time.sleep(seconds)] *)
Definition sleep (seconds : Z) : M unit :=
  modify (fun w => set_clock (clock w + seconds) w).

(** The retry loop that [backoff.on_exception(backoff.constant, exceptions,
    jitter=None, interval=interval, max_time=max_time)] wraps around a plain
    function [target]: call it; when the call raises one of [exceptions],
    give up if [max_time] has elapsed, else sleep
    [min(interval, max_time - elapsed)] and call again. [elapsed] is read at
    the top of each round. *)
Fixpoint backoff_loop {A : Type} (rounds : nat) (exceptions : exn -> bool)
    (interval max_time start : Z) (target : M A) : M A :=
  fun w =>
    let elapsed := clock w - start in
    match target w with
    | (w', inr a) => (w', inr a)
    | (w', inl e) =>
        if exceptions e then
          if max_time <=? elapsed then (w', inl e)
          else
            match rounds with
            | O => (w', inl e)
            | S rounds' =>
                let seconds := Z.min interval (max_time - elapsed) in
                match sleep seconds w' with
                | (w'', _) =>
                    backoff_loop rounds' exceptions interval max_time start
                      target w''
                end
            end
        else (w', inl e)
    end.

(** With a positive whole [interval] every round but the last sleeps at
    least one second, so [max_time + 1] rounds always reach the give-up
    test. *)
Definition backoff_on_exception {A : Type} (exceptions : exn -> bool)
    (interval max_time : Z) (target : M A) : M A :=
  fun w =>
    backoff_loop (Z.to_nat max_time + 1) exceptions interval max_time
      (clock w) target w.

Definition is_StillProvisioning (e : exn) : bool :=
  match e with
  | StillProvisioning _ => true
  | _ => false
  end.

Definition is_UnsafeFileError (e : exn) : bool :=
  match e with
  | UnsafeFileError _ => true
  | _ => false
  end.

(** ** fastapi.status *)

(** The client-error names that the module [fastapi.status] binds (it
    re-exports starlette's): one name per code, and for 401 the name is
    [HTTP_401_UNAUTHORIZED]. *)
Definition fastapi_status : list (string * Z) :=
  [ ("HTTP_400_BAD_REQUEST", 400); ("HTTP_401_UNAUTHORIZED", 401);
    ("HTTP_402_PAYMENT_REQUIRED", 402); ("HTTP_403_FORBIDDEN", 403);
    ("HTTP_404_NOT_FOUND", 404); ("HTTP_405_METHOD_NOT_ALLOWED", 405);
    ("HTTP_406_NOT_ACCEPTABLE", 406);
    ("HTTP_407_PROXY_AUTHENTICATION_REQUIRED", 407);
    ("HTTP_408_REQUEST_TIMEOUT", 408); ("HTTP_409_CONFLICT", 409);
    ("HTTP_410_GONE", 410); ("HTTP_411_LENGTH_REQUIRED", 411);
    ("HTTP_412_PRECONDITION_FAILED", 412);
    ("HTTP_413_REQUEST_ENTITY_TOO_LARGE", 413);
    ("HTTP_414_REQUEST_URI_TOO_LONG", 414);
    ("HTTP_415_UNSUPPORTED_MEDIA_TYPE", 415);
    ("HTTP_416_REQUESTED_RANGE_NOT_SATISFIABLE", 416);
    ("HTTP_417_EXPECTATION_FAILED", 417); ("HTTP_418_IM_A_TEAPOT", 418);
    ("HTTP_421_MISDIRECTED_REQUEST", 421);
    ("HTTP_422_UNPROCESSABLE_ENTITY", 422); ("HTTP_423_LOCKED", 423);
    ("HTTP_424_FAILED_DEPENDENCY", 424); ("HTTP_425_TOO_EARLY", 425);
    ("HTTP_426_UPGRADE_REQUIRED", 426);
    ("HTTP_428_PRECONDITION_REQUIRED", 428);
    ("HTTP_429_TOO_MANY_REQUESTS", 429);
    ("HTTP_431_REQUEST_HEADER_FIELDS_TOO_LARGE", 431);
    ("HTTP_451_UNAVAILABLE_FOR_LEGAL_REASONS", 451) ]%string.

(** [status.<name>]: a module attribute, or AttributeError. *)
Definition status_attr (name : string) : result Z :=
  match List.find (fun kv => String.eqb (fst kv) name) fastapi_status with
  | Some kv => inr (snd kv)
  | None => inl (AttributeError (py name))
  end.

(** ** The collaborators cord.py imports *)

(** What an inbound [fastapi.Request] gives the handler. *)
Record Request : Type := {
  url_port : option Z;              (* request.url.port *)
  request_json : result pyval       (* await request.json() *)
}.

Record Env : Type := {
  is_local : bool;                                   (* chutes.util.context *)
  API_BASE_URL : str;                                (* chutes.config *)
  sign_request : pyval -> list (str * str) * str;    (* chutes.util.auth *)
  pickle_dumps : pyval -> bytes;
  gzip_compress : bytes -> bytes;
  gzip_decompress : bytes -> result bytes;
  b64encode : bytes -> bytes;
  b64decode : str -> result bytes;
  fickling_load : bytes -> result pyval;
  json_loads : str -> result pyval;                  (* orjson.loads *)
  bytes_decode : bytes -> result str;                (* bytes.decode() *)
  fstr : pyval -> str;                               (* a value inside an f-string *)
  fstr_seconds : Z -> str;
  (** the platform API: its answer to the n-th POST of this world *)
  api : nat -> HttpCall -> result Response;
  (** the sidecar on 127.0.0.1: its answer to the n-th forwarded call *)
  sidecar : nat -> HttpCall -> result Response;
  (** [async with getattr(session, name)(url, kwargs)] for a [name] that
      is none of the seven verbs: AttributeError where the session has no
      attribute of that name, and what calling the attribute does where it
      has one *)
  session_other : str -> option str -> list (str * pyval) -> M Response;
  (** [await func(args, kwargs)] of the wrapped coroutine function *)
  func_call : nat -> list pyval -> list (str * pyval) -> M pyval;
  (** [async for data in func(args, kwargs)] of the wrapped generator *)
  func_stream : nat -> list pyval -> list (str * pyval) -> G unit
}.

(** What [__call__] returns: one of the endpoint's bound methods. *)
Inductive bound_method : Type :=
| Bound_local_call
| Bound_local_stream_call
| Bound_remote_call
| Bound_remote_stream_call.

(** What [_request_handler] returns. *)
Inductive handler_result : Type :=
| Returned : pyval -> handler_result
| StreamingResponse : G unit -> handler_result.

Definition opt_pyval (o : option str) : pyval :=
  match o with
  | Some s => VStr s
  | None => VNone
  end.

Definition bool_str (b : bool) : str := if b then py "True" else py "False".

(** [headers.update({k: v})] *)
Fixpoint dict_set {A : Type} (k : str) (v : A) (kvs : list (str * A))
    : list (str * A) :=
  match kvs with
  | [] => [(k, v)]
  | (k', v') :: rest =>
      if Str.str_eqb k' k then (k', v) :: rest else (k', v') :: dict_set k v rest
  end.

(** The verbs a [aiohttp.ClientSession] has a method for. *)
Definition session_verbs : list string :=
  ["get"; "post"; "put"; "patch"; "delete"; "head"; "options"]%string.

(** ** The endpoint *)

Module CordImpl.
Section WithEnv.

Variable E : Env.

(** A value as an f-string renders it; a string renders as itself. *)
Definition fmt (v : pyval) : str :=
  match v with
  | VStr s => s
  | _ => fstr E v
  end.

(** [self._func.__name__] *)
Definition func_of (c : Cord.t) : M pyfunc :=
  match Cord._func c with
  | Some f => ret f
  | None => raise (AttributeError (py "_func"))
  end.

(** *** Path setters (cord.py:66-122) *)

(** [any([cord.path == path for cord in self._app.cords])] *)
Definition any_cord_has_path (w : World) (app : Chute) (path : str) : bool :=
  existsb
    (fun id =>
       match cord_objs w !! id with
       | Some cord => bool_decide (Cord._path cord = Some path)
       | None => false
       end)
    (cords app).

Definition path_setter (self : nat) (path : str) : M unit :=
  let path := normalize path in
  if path_rejected path then raise (InvalidPath path)
  else
    c <- get_cord self ;;
    app <- get_chute (Cord._app c) ;;
    w <- get_world ;;
    if any_cord_has_path w app path then raise (DuplicatePath path)
    else update_cord self (Cord.with_path (Some path)).

Definition passthrough_path_setter (self : nat) (path : str) : M unit :=
  let path := normalize path in
  if path_rejected path then raise (InvalidPath path)
  else update_cord self (Cord.with_passthrough_path (Some path)).

Definition public_api_path_setter (self : nat) (path : str) : M unit :=
  let path := normalize path in
  if path_rejected path then raise (InvalidPath path)
  else update_cord self (Cord.with_public_api_path (Some path)).

(** *** Constructor (cord.py:25-57) *)

(** The object [__init__] starts from. Attributes the constructor assigns
    after a setter call already hold their final value here; they are
    not read before the constructor returns. *)
Definition blank (app : nat) (stream passthrough : bool)
    (public_api_method method : str) (provision_timeout : Z)
    (session_kwargs : list (str * pyval)) : Cord.t :=
  {| Cord._app := app; Cord._path := None; Cord._passthrough_path := None;
     Cord._public_api_path := None;
     Cord._public_api_method := public_api_method;
     Cord._passthrough_port := None; Cord._stream := stream;
     Cord._passthrough := passthrough; Cord._method := method;
     Cord._session_kwargs := session_kwargs;
     Cord._provision_timeout := provision_timeout; Cord._func := None |}.

Definition when (b : bool) (m : M unit) : M unit := if b then m else ret tt.

(** [Cord(app, stream, path, ...)]: a new object, then [__init__]. *)
Definition __init__ (app : nat) (stream : bool) (path : option str)
    (passthrough_path : option str) (passthrough : bool)
    (public_api_path : option str) (public_api_method method : str)
    (provision_timeout : Z) (session_kwargs : list (str * pyval)) : M nat :=
  w <- get_world ;;
  let self := fresh (dom (cord_objs w)) in
  modify (fun w =>
    set_cord_objs
      (<[self := blank app stream passthrough public_api_method method
                   provision_timeout session_kwargs]> (cord_objs w)) w) ;;
  when (opt_truthy path) (path_setter self (default [] path)) ;;
  when (opt_truthy passthrough_path)
    (passthrough_path_setter self (default [] passthrough_path)) ;;
  when (opt_truthy public_api_path)
    (public_api_path_setter self (default [] public_api_path)) ;;
  ret self.

(** *** Binding (cord.py:308-316) *)

Definition __call__ (self : nat) (func : pyfunc) : M bound_method :=
  update_cord self (Cord.with_func (Some func)) ;;
  c <- get_cord self ;;
  when (negb (opt_truthy (Cord._path c))) (path_setter self (__name__ func)) ;;
  c <- get_cord self ;;
  when (negb (opt_truthy (Cord._passthrough_path c)))
    (passthrough_path_setter self (__name__ func)) ;;
  if is_local E
  then ret (if negb (Cord._stream c) then Bound_local_call
            else Bound_local_stream_call)
  else ret (if negb (Cord._stream c) then Bound_remote_call
            else Bound_remote_stream_call).

(** *** The local stub (cord.py:124-225) *)

(** [session.post(url, data=..., headers=...)] on a session opened with
    [base_url] and the endpoint's session options: the world records the
    call and the platform answers. *)
Definition session_post (session_kwargs : list (str * pyval))
    (url data : str) (headers : list (str * str)) : M Response :=
  w <- get_world ;;
  let call := {| call_base_url := API_BASE_URL E; call_method := py "post";
                 call_url := url; call_data := data;
                 call_headers := headers;
                 call_kwargs := session_kwargs |} in
  modify (add_api_call call) ;;
  lift (api E (length (api_calls w)) call).

(** [base64.b64encode(gzip.compress(pickle.dumps(v))).decode()] *)
Definition encode_value (v : pyval) : result str :=
  bytes_decode E (b64encode E (gzip_compress E (pickle_dumps E v))).

(** [request_payload] (cord.py:141-146): the positional arguments as a
    tuple and the keyword arguments as a dict, each encoded on its own. *)
Definition encode_envelope (args : list pyval) (kwargs : list (str * pyval))
    : result pyval :=
  match encode_value (VTuple args) with
  | inl e => inl e
  | inr a =>
      match encode_value (VDict kwargs) with
      | inl e => inl e
      | inr k => inr (VDict [(py "args", VStr a); (py "kwargs", VStr k)])
      end
  end.

(** The body of the inner generator [_call] (cord.py:140-172). *)
Definition _call (self : nat) (args : list pyval)
    (kwargs : list (str * pyval)) : ctxmgr Response :=
  request_payload <- lift (encode_envelope args kwargs) ;;
  let signed := sign_request E request_payload in
  c <- get_cord self ;;
  app <- get_chute (Cord._app c) ;;
  f <- func_of c ;;
  let headers :=
    dict_set (py "X-Parachutes-Function") (__name__ f)
      (dict_set (py "X-Parachutes-ChuteID") (uid app) (fst signed)) in
  response <- session_post (Cord._session_kwargs c)
                (py "/chutes/" ++ uid app ++ fmt (opt_pyval (Cord._path c)))
                (snd signed) headers ;;
  if status response =? 503 then
    logger WARNING
      (py "Function " ++ __name__ f ++ py " is still provisioning...") ;;
    raise (StillProvisioning (text response))
  else if negb (status response =? 200) then
    logger ERROR
      (py "Error invoking " ++ __name__ f ++ py " [status="
       ++ fmt (VInt (status response)) ++ py "]: " ++ text response) ;;
    raise (PyException (VStr (text response)))
  else ret (response, ret tt).

(** What [_local_call_base] does once its block has ended (cord.py:175-179):
    the inner manager finishes, then the completion line is logged. *)
Definition after_yield (self : nat) (started_at : Z) (inner : M unit)
    : M unit :=
  inner ;;
  c <- get_cord self ;;
  f <- func_of c ;;
  now <- time_time ;;
  logger DEBUG
    (py "Completed remote invocation [" ++ __name__ f
     ++ py " passthrough=" ++ bool_str (Cord._passthrough c)
     ++ py "] in " ++ fstr_seconds E (now - started_at)
     ++ py " seconds").

(** [_local_call_base] (cord.py:124-179). The decorators of [_call] are
    applied bottom-up: [asynccontextmanager] first, then
    [backoff.on_exception] around the resulting plain function. *)
Definition _local_call_base (self : nat) (args : list pyval)
    (kwargs : list (str * pyval)) : ctxmgr Response :=
  c <- get_cord self ;;
  f <- func_of c ;;
  logger DEBUG
    (py "Invoking remote function " ++ __name__ f ++ py " via HTTP...") ;;
  let decorated : M (ctxmgr Response) :=
    backoff_on_exception is_StillProvisioning 1 (Cord._provision_timeout c)
      (asynccontextmanager (_call self args kwargs)) in
  started_at <- time_time ;;
  cm <- decorated ;;
  entered <- cm ;;
  ret (fst entered, after_yield self started_at (snd entered)).

Definition not_in (k : str) (ks : list string) : bool :=
  negb (existsb (fun k' => Str.str_eqb (py k') k) ks).

(** The message logged for a trace frame (cord.py:203-216). *)
Definition trace_message (data : pyval) : result str :=
  match py_getitem data (py "trace") with
  | inl e => inl e
  | inr trace =>
      match py_getitem trace (py "timestamp") with
      | inl e => inl e
      | inr timestamp =>
          match trace with
          | VDict items =>
              let fields :=
                map (fun kv => fst kv ++ py "=" ++ fmt (snd kv))
                  (List.filter (fun kv => not_in (fst kv) ["timestamp"; "message"]%string)
                     items) in
              match py_getitem trace (py "message") with
              | inl e => inl e
              | inr message =>
                  match timestamp with
                  | VStr ts =>
                      inr (ts ++ (py " [" ++ Str.join (py " ") fields)
                           ++ (py "]: " ++ fmt message))
                  | _ => inl TypeError
                  end
              end
          | _ => inl (AttributeError (py "items"))
          end
      end
  end.

(** What the loop does with the decoded document (cord.py:202-225). *)
Definition dispatch_event (self : nat) (data : pyval) : G unit :=
  trace <~ glift (lift (py_get data (py "trace"))) ;;
  if truthy trace then
    message <~ glift (lift (trace_message data)) ;;
    glift (logger DEBUG message)
  else
    error <~ glift (lift (py_get data (py "error"))) ;;
    if truthy error then
      error <~ glift (lift (py_getitem data (py "error"))) ;;
      _ <~ glift (logger ERROR (fmt error)) ;;
      glift (raise (PyException error))
    else
      result <~ glift (lift (py_get data (py "result"))) ;;
      if truthy result then
        c <~ glift (get_cord self) ;;
        if Cord._passthrough c then
          f <~ glift (func_of c) ;;
          result <~ glift (lift (py_getitem data (py "result"))) ;;
          v <~ glift (modify (add_func_call (func_id f, [result], [])) ;;
                      func_call E (func_id f) [result] []) ;;
          gyield v
        else
          result <~ glift (lift (py_getitem data (py "result"))) ;;
          gyield result
      else gret tt.

(** One round of the loop over [response.content] (cord.py:198-225). *)
Definition handle_frame (self : nat) (encoded_content : bytes) : G unit :=
  content <~ glift (lift (bytes_decode E encoded_content)) ;;
  if negb (str_truthy content) || negb (str_truthy (Str.strip content))
     || negb (Str.contains (py "data: {") content)
  then gret tt
  else
    data <~ glift (lift (json_loads E (skipn 6 content))) ;;
    dispatch_event self data.

Definition _local_stream_call (self : nat) (args : list pyval)
    (kwargs : list (str * pyval)) : G unit :=
  async_with_g (_local_call_base self args kwargs) (fun response =>
    async_for (content response) (handle_frame self)).

(** [_local_call] (cord.py:181-188): [result = None], then
    [result = item] for every item of the stream, then [return result]. *)
Definition _local_call (self : nat) (args : list pyval)
    (kwargs : list (str * pyval)) : M pyval :=
  fun w =>
    match _local_stream_call self args kwargs w with
    | (w', items, inl e) => (w', inl e)
    | (w', items, inr _) => (w', inr (fold_left (fun _ item => item) items VNone))
    end.

(** *** The remote handler (cord.py:227-306) *)

Definition port_str (port : option Z) : str :=
  match port with
  | Some p => if p =? 0 then py "8000" else fmt (VInt p)
  | None => py "8000"
  end.

(** [getattr(session, name)(url, kwargs)]: for one of the seven verbs the
    world records the call and the sidecar answers; what any other name
    does is the session's affair. *)
Definition session_request (base_url name : str) (url : option str)
    (kwargs : list (str * pyval)) : M Response :=
  if existsb (fun v => Str.str_eqb (py v) name) session_verbs then
    match url with
    | Some url =>
        w <- get_world ;;
        let call := {| call_base_url := base_url; call_method := name;
                       call_url := url; call_data := [];
                       call_headers := []; call_kwargs := kwargs |} in
        modify (add_sidecar_call call) ;;
        lift (sidecar E (length (sidecar_calls w)) call)
    | None => raise TypeError
    end
  else session_other E name url kwargs.

Definition _passthrough_call (self : nat) (kwargs : list (str * pyval))
    : ctxmgr Response :=
  c <- get_cord self ;;
  logger DEBUG
    (py "Received passthrough call, passing along to "
     ++ fmt (opt_pyval (Cord._passthrough_path c)) ++ py " via "
     ++ Cord._method c) ;;
  response <- session_request
                (py "http://127.0.0.1:" ++ port_str (Cord._passthrough_port c))
                (Str.lower (Cord._method c)) (Cord._passthrough_path c)
                kwargs ;;
  ret (response, ret tt).

Definition completed_message (f : pyfunc) (what : str) (seconds : Z) : str :=
  py "Completed request [" ++ __name__ f ++ what ++ py "] in "
  ++ fstr_seconds E seconds ++ py " seconds".

Definition _remote_call (self : nat) (args : list pyval)
    (kwargs : list (str * pyval)) : M pyval :=
  c <- get_cord self ;;
  f <- func_of c ;;
  logger INFO
    (py "Received invocation request [" ++ __name__ f ++ py " passthrough="
     ++ bool_str (Cord._passthrough c) ++ py "]") ;;
  started_at <- time_time ;;
  if Cord._passthrough c then
    async_with (_passthrough_call self kwargs) (fun response =>
      now <- time_time ;;
      logger SUCCESS
        (completed_message f
           (py " passthrough=" ++ bool_str (Cord._passthrough c))
           (now - started_at)) ;;
      lift (json_body response))
  else
    modify (add_func_call (func_id f, args, kwargs)) ;;
    return_value <- func_call E (func_id f) args kwargs ;;
    now <- time_time ;;
    logger SUCCESS
      (completed_message f
         (py " passthrough=" ++ bool_str (Cord._passthrough c))
         (now - started_at)) ;;
    ret return_value.

Definition _remote_stream_call (self : nat) (args : list pyval)
    (kwargs : list (str * pyval)) : G unit :=
  c <~ glift (get_cord self) ;;
  f <~ glift (func_of c) ;;
  _ <~ glift (logger INFO
         (py "Received streaming invocation request [" ++ __name__ f
          ++ py "]")) ;;
  started_at <~ glift time_time ;;
  if Cord._passthrough c then
    _ <~ async_with_g (_passthrough_call self kwargs) (fun response =>
           async_for (content response) (fun content => gyield (VBytes content))) ;;
    now <~ glift time_time ;;
    glift (logger SUCCESS
             (completed_message f (py " (passthrough)") (now - started_at)))
  else
    _ <~ glift (modify (add_func_call (func_id f, args, kwargs))) ;;
    _ <~ func_stream E (func_id f) args kwargs ;;
    now <~ glift time_time ;;
    glift (logger SUCCESS (completed_message f [] (now - started_at))).

(** [fickling.load(gzip.decompress(base64.b64decode(request[key])))] *)
Definition decode_value (request : pyval) (key : str) : result pyval :=
  match py_getitem request key with
  | inl e => inl e
  | inr (VStr s) =>
      match b64decode E s with
      | inl e => inl e
      | inr compressed =>
          match gzip_decompress E compressed with
          | inl e => inl e
          | inr pickled => fickling_load E pickled
          end
      end
  | inr _ => inl TypeError
  end.

(** The two assignments of the [try] block (cord.py:295-296). *)
Definition decode_envelope (request : pyval) : result (pyval * pyval) :=
  match decode_value request (py "args") with
  | inl e => inl e
  | inr args =>
      match decode_value request (py "kwargs") with
      | inl e => inl e
      | inr kwargs => inr (args, kwargs)
      end
  end.

Definition exc_str (e : exn) : str :=
  match e with
  | UnsafeFileError reason => reason
  | _ => []
  end.

Definition _request_handler (self : nat) (request : Request)
    : M handler_result :=
  c <- get_cord self ;;
  when (bool_decide (Cord._passthrough_port c = None))
    (update_cord self (Cord.with_passthrough_port (url_port request))) ;;
  request <- lift (request_json request) ;;
  decoded <- try_except
    (lift (decode_envelope request))
    is_UnsafeFileError
    (fun exc =>
       let message :=
         py "Detected potentially hazardous call arguments, blocking: "
         ++ exc_str exc in
       logger ERROR message ;;
       status_code <- lift (status_attr "HTTP_401_FORBIDDEN") ;;
       raise (HTTPException status_code message)) ;;
  args <- lift (star (fst decoded)) ;;
  kwargs <- lift (starstar (snd decoded)) ;;
  c <- get_cord self ;;
  if Cord._stream c then
    ret (StreamingResponse (_remote_stream_call self args kwargs))
  else
    v <- _remote_call self args kwargs ;;
    ret (Returned v).

End WithEnv.
End CordImpl.

(** ** The path grammar as the specification words it *)

(** [s.split("/")] *)
Fixpoint split_slash (s : str) : list str :=
  match s with
  | [] => [[]]
  | c :: s' =>
      if Str.eqb c "/" then [] :: split_slash s'
      else
        match split_slash s' with
        | seg :: segs => (c :: seg) :: segs
        | [] => [[c]]
        end
  end.

Definition is_lower (c : ascii) : bool := in_range "a" "z" c.
Definition is_digit (c : ascii) : bool := in_range "0" "9" c.

(** A segment starts with a lowercase letter or digit and continues with
    lowercase letters, digits, hyphen, underscore. *)
Definition segment_ok (seg : str) : bool :=
  match seg with
  | [] => false
  | c :: rest =>
      (is_lower c || is_digit c)
      && forallb (fun x => is_lower x || is_digit x
                           || Str.eqb x "-" || Str.eqb x "_") rest
  end.

(** A path is a leading slash followed by segments separated by single
    slashes, none of them empty. *)
Definition path_grammar (path : str) : bool :=
  match path with
  | c :: rest => Str.eqb c "/" && forallb segment_ok (split_slash rest)
  | [] => false
  end.

(** The group of PATH_RE: a slash and one segment. *)
Definition segment_re : Re.regex :=
  Re.Cat (Re.Chr "/")
    (Re.Cat (Re.Plus (Re.Class lower_or_digit)) (Re.Star (Re.Class word_char))).

(** Every segment behind its own slash. *)
Definition join_segments (segs : list str) : str :=
  concat (map (cons "/"%char) segs).

(** ** Stream events *)

(** Modelled from the spec: the platform that writes the event stream is
    not part of these sources. A frame is [data: {json}] where the JSON
    object has one of the keys [trace], [error], [result]: a Trace
    (structured fields and a message), an Error (a message) or a Result (an
    opaque value). *)
Inductive StreamEvent : Type :=
| Trace : list (str * pyval) -> StreamEvent
| Error : pyval -> StreamEvent
| Result : pyval -> StreamEvent.

Definition event_json (ev : StreamEvent) : pyval :=
  match ev with
  | Trace fields => VDict [(py "trace", VDict fields)]
  | Error message => VDict [(py "error", message)]
  | Result value => VDict [(py "result", value)]
  end.

(** A trace carries a text timestamp, a message and at least one field. *)
Definition trace_ok (fields : list (str * pyval)) : Prop :=
  exists ts message,
    assoc (py "timestamp") fields = Some (VStr ts)
    /\ assoc (py "message") fields = Some message.

Definition event_ok (ev : StreamEvent) : Prop :=
  match ev with
  | Trace fields => trace_ok fields
  | Error message => truthy message = true
  | Result _ => True
  end.

Definition add_logs (lines : list (level * str)) (w : World) : World :=
  fold_left (fun w line => add_log (fst line) (snd line) w) lines w.

Section StreamSpec.

Variable E : Env.

(** [encoded] is the frame [data: {json}] of the event [ev]. *)
Definition frame_of (encoded : bytes) (ev : StreamEvent) : Prop :=
  exists text,
    bytes_decode E encoded = inr (py "data: {" ++ text)
    /\ json_loads E ("{"%char :: text) = inr (event_json ev).

(** [encoded] is an item the loop passes over: empty, blank, or without
    [data: {] in it. *)
Definition skipped_line (encoded : bytes) : Prop :=
  exists content,
    bytes_decode E encoded = inr content
    /\ negb (str_truthy content) || negb (str_truthy (Str.strip content))
       || negb (Str.contains (py "data: {") content) = true.

(** The items of a response body carry the events [evs], in order, with
    any number of passed-over items between them. *)
Inductive stream_of : list bytes -> list StreamEvent -> Prop :=
| stream_end : stream_of [] []
| stream_frame encoded ev items evs :
    frame_of encoded ev -> stream_of items evs ->
    stream_of (encoded :: items) (ev :: evs)
| stream_skip encoded items evs :
    skipped_line encoded -> stream_of items evs ->
    stream_of (encoded :: items) evs.

(** The line logged for a trace: its timestamp, its other fields as
    [key=value] in brackets, its message. *)
Definition trace_text (fields : list (str * pyval)) : str :=
  match assoc (py "timestamp") fields, assoc (py "message") fields with
  | Some (VStr ts), Some message =>
      ts
      ++ (py " ["
          ++ Str.join (py " ")
               (map (fun kv => fst kv ++ py "=" ++ CordImpl.fmt E (snd kv))
                  (List.filter
                     (fun kv =>
                        CordImpl.not_in (fst kv) ["timestamp"; "message"]%string)
                     fields)))
      ++ (py "]: " ++ CordImpl.fmt E message)
  | _, _ => []
  end.

(** What a stub without passthrough makes of a sequence of events: the
    lines it logs, the values it delivers, and how it ends. *)
Fixpoint delivery (evs : list StreamEvent)
    : list (level * str) * list pyval * result unit :=
  match evs with
  | [] => ([], [], inr tt)
  | Trace fields :: rest =>
      match delivery rest with
      | (lines, values, r) => ((DEBUG, trace_text fields) :: lines, values, r)
      end
  | Error message :: _ =>
      ([(ERROR, CordImpl.fmt E message)], [], inl (PyException message))
  | Result value :: rest =>
      match delivery rest with
      | (lines, values, r) =>
          (lines, (if truthy value then [value] else []) ++ values, r)
      end
  end.

End StreamSpec.

(** ** The POST of the local stub, as the world records it *)

Section Post.

Variable E : Env.

(** The call [_call] makes for endpoint [c] of service [app], bound to
    [f], with the envelope [payload]. *)
Definition post_of (c : Cord.t) (app : Chute) (f : pyfunc) (payload : pyval)
    : HttpCall :=
  {| call_base_url := API_BASE_URL E;
     call_method := py "post";
     call_url :=
       py "/chutes/" ++ uid app ++ CordImpl.fmt E (opt_pyval (Cord._path c));
     call_data := snd (sign_request E payload);
     call_headers :=
       dict_set (py "X-Parachutes-Function") (__name__ f)
         (dict_set (py "X-Parachutes-ChuteID") (uid app)
            (fst (sign_request E payload)));
     call_kwargs := Cord._session_kwargs c |}.

(** The world once the stub has logged its first line and made the POST. *)
Definition posted (w : World) (c : Cord.t) (app : Chute) (f : pyfunc)
    (payload : pyval) : World :=
  add_api_call (post_of c app f payload)
    (add_log DEBUG
       (py "Invoking remote function " ++ __name__ f ++ py " via HTTP...") w).

(** The line the stub logs when the block of [_local_call_base] ends. *)
Definition completed_line (c : Cord.t) (f : pyfunc) (seconds : Z)
    : level * str :=
  (DEBUG,
   py "Completed remote invocation [" ++ __name__ f
   ++ py " passthrough=" ++ bool_str (Cord._passthrough c)
   ++ py "] in " ++ fstr_seconds E seconds ++ py " seconds").

End Post.

(** ** A concrete environment *)

(** Base64 (RFC 4648) on bytes, bit by bit. *)
Module Base64.

(** Six bits, the most significant first. *)
Definition sextet : Type := (bool * bool * bool * bool * bool * bool)%type.

Definition alphabet : list ascii :=
  py "ABCDEFGHIJKLMNOPQRSTUVWXYZabcdefghijklmnopqrstuvwxyz0123456789+/".

Definition bit (b : bool) (weight : nat) : nat := if b then weight else 0%nat.

Definition index_of (s : sextet) : nat :=
  match s with
  | (a, b, c, d, e, f) =>
      (bit a 32 + bit b 16 + bit c 8 + bit d 4 + bit e 2 + bit f 1)%nat
  end.

Definition char_of (s : sextet) : ascii := nth (index_of s) alphabet "="%char.

Definition bits : list bool := [false; true].

Definition all_sextets : list sextet :=
  flat_map (fun a => flat_map (fun b => flat_map (fun c =>
  flat_map (fun d => flat_map (fun e => map (fun f => (a, b, c, d, e, f)) bits)
    bits) bits) bits) bits) bits.

Definition sextet_of (c : ascii) : option sextet :=
  List.find (fun s => Str.eqb (char_of s) c) all_sextets.

(** Three bytes as four characters. *)
Definition enc3 (x y z : ascii) : list ascii :=
  match x, y, z with
  | Ascii x0 x1 x2 x3 x4 x5 x6 x7, Ascii y0 y1 y2 y3 y4 y5 y6 y7,
    Ascii z0 z1 z2 z3 z4 z5 z6 z7 =>
      [char_of (x7, x6, x5, x4, x3, x2); char_of (x1, x0, y7, y6, y5, y4);
       char_of (y3, y2, y1, y0, z7, z6); char_of (z5, z4, z3, z2, z1, z0)]
  end.

Fixpoint encode (b : bytes) : bytes :=
  match b with
  | [] => []
  | [x] => firstn 2 (enc3 x Ascii.zero Ascii.zero) ++ py "=="
  | [x; y] => firstn 3 (enc3 x y Ascii.zero) ++ py "="
  | x :: y :: z :: rest => enc3 x y z ++ encode rest
  end.

Definition byte1 (s1 s2 : sextet) : ascii :=
  match s1, s2 with
  | (x7, x6, x5, x4, x3, x2), (x1, x0, _, _, _, _) =>
      Ascii x0 x1 x2 x3 x4 x5 x6 x7
  end.

Definition byte2 (s2 s3 : sextet) : ascii :=
  match s2, s3 with
  | (_, _, y7, y6, y5, y4), (y3, y2, y1, y0, _, _) =>
      Ascii y0 y1 y2 y3 y4 y5 y6 y7
  end.

Definition byte3 (s3 s4 : sextet) : ascii :=
  match s3, s4 with
  | (_, _, _, _, z7, z6), (z5, z4, z3, z2, z1, z0) =>
      Ascii z0 z1 z2 z3 z4 z5 z6 z7
  end.

Definition bad : result bytes := inl (LibraryError (py "binascii.Error")).

Fixpoint decode (s : str) : result bytes :=
  match s with
  | [] => inr []
  | c1 :: c2 :: c3 :: c4 :: rest =>
      match sextet_of c1, sextet_of c2 with
      | Some s1, Some s2 =>
          if Str.eqb c4 "=" then
            match rest with
            | [] =>
                if Str.eqb c3 "=" then inr [byte1 s1 s2]
                else
                  match sextet_of c3 with
                  | Some s3 => inr [byte1 s1 s2; byte2 s2 s3]
                  | None => bad
                  end
            | _ :: _ => bad
            end
          else
            match sextet_of c3, sextet_of c4, decode rest with
            | Some s3, Some s4, inr tail =>
                inr (byte1 s1 s2 :: byte2 s2 s3 :: byte3 s3 s4 :: tail)
            | _, _, _ => bad
            end
      | _, _ => bad
      end
  | _ => bad
  end.

End Base64.

Definition byte_list (codes : list nat) : bytes := map ascii_of_nat codes.

(** The pickles (protocol 4) of three values, and one that calls
    [os.system] when loaded. *)
Definition pickle_41 : bytes :=
  byte_list [128; 4; 149; 5; 0; 0; 0; 0; 0; 0; 0; 75; 41; 133; 148; 46]%nat.
Definition pickle_empty_dict : bytes := byte_list [128; 4; 125; 148; 46]%nat.
Definition pickle_k_v : bytes :=
  byte_list [128; 4; 149; 12; 0; 0; 0; 0; 0; 0; 0; 125; 148; 140; 1; 107; 148;
             140; 1; 118; 148; 115; 46]%nat.
Definition pickle_os_system : bytes :=
  byte_list [99; 111; 115; 10; 115; 121; 115; 116; 101; 109; 10; 40; 83; 39;
             101; 99; 104; 111; 32; 112; 119; 110; 101; 100; 39; 10; 116; 82;
             46]%nat.

Definition demo_pickle_dumps (v : pyval) : bytes :=
  match v with
  | VTuple [VInt 41] => pickle_41
  | VDict [] => pickle_empty_dict
  | VDict [(k, VStr v)] =>
      if Str.str_eqb k (py "k") && Str.str_eqb v (py "v") then pickle_k_v else []
  | _ => []
  end.

Definition demo_fickling_load (b : bytes) : result pyval :=
  if Str.str_eqb b pickle_41 then inr (VTuple [VInt 41])
  else if Str.str_eqb b pickle_empty_dict then inr (VDict [])
  else if Str.str_eqb b pickle_k_v then inr (VDict [(py "k", VStr (py "v"))])
  else if Str.str_eqb b pickle_os_system
       then inl (UnsafeFileError (py "unsafe import of os.system"))
       else inl (LibraryError (py "UnpicklingError")).

(** A store-only stand-in for gzip: the magic number, then the data. *)
Definition gzip_magic : bytes := byte_list [31; 139]%nat.

Definition demo_gzip_compress (b : bytes) : bytes := gzip_magic ++ b.

Definition demo_gzip_decompress (b : bytes) : result bytes :=
  match b with
  | m1 :: m2 :: data =>
      if Str.str_eqb [m1; m2] gzip_magic then inr data
      else inl (LibraryError (py "BadGzipFile"))
  | _ => inl (LibraryError (py "BadGzipFile"))
  end.

Definition quote : str := ["034"%char].

(** The text [{"key": value}] of a one-key JSON object. *)
Definition json_object (key value : str) : str :=
  py "{" ++ quote ++ key ++ quote ++ py ": " ++ value ++ py "}".

Definition json_string (s : str) : str := quote ++ s ++ quote.

Definition demo_trace (message : str) : list (str * pyval) :=
  [(py "timestamp", VStr (py "2024-01-01T00:00:00")); (py "host", VStr (py "gpu0"));
   (py "message", VStr message)].

Definition demo_trace_text (message : str) : str :=
  py "{" ++ json_string (py "timestamp") ++ py ": "
  ++ json_string (py "2024-01-01T00:00:00") ++ py ", "
  ++ json_string (py "host") ++ py ": " ++ json_string (py "gpu0") ++ py ", "
  ++ json_string (py "message") ++ py ": " ++ json_string message ++ py "}".

(** The documents the examples use, with the value [orjson.loads] gives. *)
Definition demo_documents : list (str * pyval) :=
  [ (json_object (py "result") (py "0"), VDict [(py "result", VInt 0)]);
    (json_object (py "result") (py "42"), VDict [(py "result", VInt 42)]);
    (json_object (py "result") (json_string (py "a")),
     VDict [(py "result", VStr (py "a"))]);
    (json_object (py "result") (json_string (py "b")),
     VDict [(py "result", VStr (py "b"))]);
    (json_object (py "error") (json_string (py "boom")),
     VDict [(py "error", VStr (py "boom"))]);
    (json_object (py "trace") (demo_trace_text (py "loading")),
     VDict [(py "trace", VDict (demo_trace (py "loading")))]);
    (json_object (py "trace") (demo_trace_text (py "running")),
     VDict [(py "trace", VDict (demo_trace (py "running")))]) ].

Definition demo_json_loads (text : str) : result pyval :=
  match assoc text demo_documents with
  | Some v => inr v
  | None => inl (LibraryError (py "JSONDecodeError"))
  end.

Definition demo_fstr (v : pyval) : str :=
  match v with
  | VNone => py "None"
  | VBool b => bool_str b
  | VInt n => py (pretty n)
  | VStr s => s
  | _ => py "<object>"
  end.

(** The wrapped function of the examples: [f(x) = x + 1]. *)
Definition demo_func : pyfunc := {| __name__ := py "predict"; func_id := 0 |}.

Definition demo_func_call (id : nat) (args : list pyval)
    (kwargs : list (str * pyval)) : M pyval :=
  match args, kwargs with
  | [VInt x], [] => ret (VInt (x + 1))
  | _, _ => raise TypeError
  end.

Definition demo_func_stream (id : nat) (args : list pyval)
    (kwargs : list (str * pyval)) : G unit :=
  fun w => (w, args, inr tt).

Definition demo_env (platform sidecar : nat -> HttpCall -> result Response)
    : Env :=
  {| is_local := true;
     API_BASE_URL := py "https://api.example";
     sign_request := fun _ => ([(py "X-Parachutes-Signature", py "sig")],
                               py "signed-body");
     pickle_dumps := demo_pickle_dumps;
     gzip_compress := demo_gzip_compress;
     gzip_decompress := demo_gzip_decompress;
     b64encode := Base64.encode;
     b64decode := Base64.decode;
     fickling_load := demo_fickling_load;
     json_loads := demo_json_loads;
     bytes_decode := fun b => inr b;
     fstr := demo_fstr;
     fstr_seconds := fun n => py (pretty n);
     api := platform;
     sidecar := sidecar;
     session_other := fun name _ _ => raise (AttributeError name);
     func_call := demo_func_call;
     func_stream := demo_func_stream |}.

Definition no_answer (n : nat) (call : HttpCall) : result Response :=
  inl (LibraryError (py "ClientConnectorError")).

Definition frame (document : str) : bytes := py "data: " ++ document.

Definition ok_response (frames : list bytes) : Response :=
  {| status := 200; text := []; content := frames;
     json_body := inl (LibraryError (py "ContentTypeError")) |}.

(** A platform that answers every POST with 200 and the given frames. *)
Definition streaming_platform (frames : list bytes) (n : nat) (call : HttpCall)
    : result Response :=
  inr (ok_response frames).

(** A platform that is still provisioning at the first POST only. *)
Definition provisioning_platform (n : nat) (call : HttpCall) : result Response :=
  match n with
  | O => inr {| status := 503; text := py "still provisioning"; content := [];
                json_body := inl (LibraryError (py "ContentTypeError")) |}
  | S _ => inr (ok_response [frame (json_object (py "result") (py "42"))])
  end.

(** ** A small world for examples *)

(** An endpoint as [Cord(app)] with the default options leaves it. *)
Definition default_cord (app : nat) (path : option str) : Cord.t :=
  {| Cord._app := app; Cord._path := path; Cord._passthrough_path := None;
     Cord._public_api_path := None; Cord._public_api_method := py "POST";
     Cord._passthrough_port := None; Cord._stream := false;
     Cord._passthrough := false; Cord._method := py "GET";
     Cord._session_kwargs := []; Cord._provision_timeout := 180;
     Cord._func := None |}.

(** Two services: the first owns endpoints 0 (registered at [/foo]) and 1,
    the second owns endpoint 2. *)
Definition demo_world : World :=
  {| cord_objs :=
       <[0%nat := default_cord 0 (Some (py "/foo"))]>
         (<[1%nat := default_cord 0 None]>
            (<[2%nat := default_cord 1 None]> ∅));
     chute_objs :=
       <[0%nat := {| uid := py "svc-a"; cords := [0%nat; 1%nat] |}]>
         (<[1%nat := {| uid := py "svc-b"; cords := [2%nat] |}]> ∅);
     log := []; clock := 0; api_calls := []; sidecar_calls := [];
     func_calls := [] |}.

(** [demo_world] after endpoint 1 has registered [bar]. *)
Definition demo_world_bar : World :=
  fst (CordImpl.path_setter 1%nat (py "bar") demo_world).

(** One service with one endpoint, bound to [demo_func] at [/predict]. *)
Definition stub_cord : Cord.t :=
  Cord.with_func (Some demo_func) (default_cord 0 (Some (py "/predict"))).

Definition stub_world : World :=
  {| cord_objs := <[0%nat := stub_cord]> ∅;
     chute_objs := <[0%nat := {| uid := py "svc-a"; cords := [0%nat] |}]> ∅;
     log := []; clock := 0; api_calls := []; sidecar_calls := [];
     func_calls := [] |}.

(** ** Reading a sequence of events *)

Definition is_error (ev : StreamEvent) : bool :=
  match ev with
  | Error _ => true
  | _ => false
  end.

(** The values of the Result events, in order. *)
Definition result_values (evs : list StreamEvent) : list pyval :=
  flat_map (fun ev => match ev with Result v => [v] | _ => [] end) evs.

(** The lines logged for the Trace events, in order. *)
Definition trace_lines (E : Env) (evs : list StreamEvent) : list (level * str) :=
  flat_map
    (fun ev => match ev with Trace fields => [(DEBUG, trace_text E fields)] | _ => [] end)
    evs.

(** The frames of the examples. *)
Definition frame_trace (message : str) : bytes :=
  frame (json_object (py "trace") (demo_trace_text message)).
Definition frame_result (value : str) : bytes :=
  frame (json_object (py "result") value).
Definition frame_error (message : str) : bytes :=
  frame (json_object (py "error") (json_string message)).

(** trace, result(0), trace, result("b"), error("boom") *)
Definition frames_with_zero : list bytes :=
  [frame_trace (py "loading"); frame_result (py "0");
   frame_trace (py "running"); frame_result (json_string (py "b"));
   frame_error (py "boom")].

(** trace, result("a"), trace, result("b"), error("boom") *)
Definition frames_a_b : list bytes :=
  [frame_trace (py "loading"); frame_result (json_string (py "a"));
   frame_trace (py "running"); frame_result (json_string (py "b"));
   frame_error (py "boom")].

(** ** The call forwarded to the sidecar, as the world records it *)

Section Forward.

Variable E : Env.



End Forward.





(** An endpoint in passthrough mode, bound to [demo_func], forwarding to
    [/v1/generate] with GET. *)
Definition relay_cord : Cord.t :=
  {| Cord._app := 0%nat; Cord._path := Some (py "/predict");
     Cord._passthrough_path := Some (py "/v1/generate");
     Cord._public_api_path := None; Cord._public_api_method := py "POST";
     Cord._passthrough_port := None; Cord._stream := false;
     Cord._passthrough := true; Cord._method := py "GET";
     Cord._session_kwargs := []; Cord._provision_timeout := 180;
     Cord._func := Some demo_func |}.

Definition relay_world : World :=
  {| cord_objs := <[0%nat := relay_cord]> ∅;
     chute_objs := <[0%nat := {| uid := py "svc-a"; cords := [0%nat] |}]> ∅;
     log := []; clock := 0; api_calls := []; sidecar_calls := [];
     func_calls := [] |}.

(** A request whose [args] unpickle to a call of [os.system]. *)
Definition hostile_request : Request :=
  {| url_port := Some 8000;
     request_json :=
       inr (VDict
              [(py "args",
                VStr (Base64.encode (demo_gzip_compress pickle_os_system)));
               (py "kwargs",
                VStr (Base64.encode (demo_gzip_compress pickle_empty_dict)))]) |}.

(** The line the handler logs for a rejected payload. *)
Definition hazard_message (reason : str) : str :=
  py "Detected potentially hazardous call arguments, blocking: " ++ reason.

(** ** Auxiliary notions used in the statements *)

Definition nonempty (seg : list ascii) : bool :=
  match seg with
  | [] => false
  | _ :: _ => true
  end.

Definition no_slash (seg : list ascii) : bool :=
  forallb (fun c => negb (Str.eqb c "/")) seg.

Definition starts_with_slash (s : list ascii) : bool :=
  match s with
  | c :: _ => Str.eqb c "/"
  | [] => false
  end.

Definition ends_with_slash (s : list ascii) : bool := starts_with_slash (rev s).

Definition slashes (n : nat) : list ascii := repeat "/"%char n.

Definition path_char (c : ascii) : bool := Str.eqb c "/" || word_char c.

(** The world once [self._func = func] has run. *)
Definition bound_world (w : World) (self : nat) (c : Cord.t) (func : pyfunc)
    : World :=
  set_cord_objs (<[self := Cord.with_func (Some func) c]> (cord_objs w)) w.

(** ** Notions for the further properties *)

Definition LF : ascii := "010"%char.

(** A path attribute holds nothing, or a path the guard of the setters
    lets through. *)
Definition accepted (o : option str) : Prop :=
  match o with
  | None => True
  | Some p => path_rejected p = false
  end.

(** Every path attribute of every endpoint in the store is accepted. *)
Definition paths_ok (w : World) : Prop :=
  forall id c,
    cord_objs w !! id = Some c ->
    accepted (Cord._path c) /\ accepted (Cord._passthrough_path c)
    /\ accepted (Cord._public_api_path c).

(** Every endpoint a service lists is in the store and names that service
    as its owner. *)
Definition owners_ok (w : World) : Prop :=
  forall a app id,
    chute_objs w !! a = Some app -> In id (cords app) ->
    exists c, cord_objs w !! id = Some c /\ Cord._app c = a.

(** No two endpoints that a service lists hold the same primary path. *)
Definition unique_paths (w : World) : Prop :=
  forall a app id1 id2 c1 c2 p,
    chute_objs w !! a = Some app ->
    In id1 (cords app) -> In id2 (cords app) ->
    cord_objs w !! id1 = Some c1 -> cord_objs w !! id2 = Some c2 ->
    Cord._path c1 = Some p -> Cord._path c2 = Some p ->
    id1 = id2.

(** A computation keeps a property of the world, however it ends. *)
Definition keeps {A : Type} (I : World -> Prop) (m : M A) : Prop :=
  forall w, I w -> I (fst (m w)).

(** The method [__call__] hands back, by context and by the endpoint's
    [_stream] flag (cord.py:314-316). *)
Definition bound_method_for (local stream : bool) : bound_method :=
  if local
  then (if stream then Bound_local_stream_call else Bound_local_call)
  else (if stream then Bound_remote_stream_call else Bound_remote_call).

(** What the constructor leaves in a path attribute for the argument [o]:
    nothing for [None] and for the empty string, else the normalized
    argument (cord.py:42-50). *)
Definition init_path (o : option str) : option str :=
  if opt_truthy o then Some (normalize (default [] o)) else None.

(** [w'] is [w] with endpoint [self] holding [c] and nothing else changed
    among endpoints, services and the log. *)
Definition only_endpoint (w : World) (self : nat) (c : Cord.t) (w' : World)
    : Prop :=
  cord_objs w' !! self = Some c
  /\ (forall id, id <> self -> cord_objs w' !! id = cord_objs w !! id)
  /\ chute_objs w' = chute_objs w
  /\ log w' = log w.

(** A platform that answers every POST with 500 and the body [boom]. *)
Definition failing_platform (n : nat) (call : HttpCall) : result Response :=
  inr {| status := 500; text := py "boom"; content := [];
         json_body := inl (LibraryError (py "ContentTypeError")) |}.

(** A trace document without a timestamp, and a parser that knows it
    besides the documents of the examples. *)
Definition bare_trace : list (str * pyval) := [(py "host", VStr (py "gpu0"))].

Definition bare_trace_text : str := json_object (py "host") (json_string (py "gpu0")).

Definition frame_bare_trace : bytes :=
  frame (json_object (py "trace") bare_trace_text).

Definition lenient_json_loads (text : str) : result pyval :=
  if Str.str_eqb text (json_object (py "trace") bare_trace_text)
  then inr (VDict [(py "trace", VDict bare_trace)])
  else demo_json_loads text.

Definition with_json_loads (loads : str -> result pyval) (E : Env) : Env :=
  {| is_local := is_local E; API_BASE_URL := API_BASE_URL E;
     sign_request := sign_request E; pickle_dumps := pickle_dumps E;
     gzip_compress := gzip_compress E; gzip_decompress := gzip_decompress E;
     b64encode := b64encode E; b64decode := b64decode E;
     fickling_load := fickling_load E; json_loads := loads;
     bytes_decode := bytes_decode E; fstr := fstr E;
     fstr_seconds := fstr_seconds E; api := api E; sidecar := sidecar E;
     session_other := session_other E;
     func_call := func_call E; func_stream := func_stream E |}.

(** The calls of the wrapped function, one per value, as the world
    records them. *)
Definition calls_on (f : pyfunc) (values : list pyval)
    : list (nat * list pyval * list (str * pyval)) :=
  map (fun v => (func_id f, [v], [])) values.

(** [demo_func] as a function on values. *)
Definition successor (v : pyval) : pyval :=
  match v with
  | VInt x => VInt (x + 1)
  | _ => VNone
  end.

(** The endpoint once the handler has looked at the port of a request
    (cord.py:291-292): an endpoint that has no port yet takes the
    request's. *)
Definition captured (c : Cord.t) (request : Request) : Cord.t :=
  if bool_decide (Cord._passthrough_port c = None)
  then Cord.with_passthrough_port (url_port request) c
  else c.

(** The world after that step. *)
Definition port_captured (w : World) (self : nat) (c : Cord.t)
    (request : Request) : World :=
  if bool_decide (Cord._passthrough_port c = None)
  then set_cord_objs
         (<[self := Cord.with_passthrough_port (url_port request) c]>
            (cord_objs w)) w
  else w.



(** The world when the wrapped function is entered with [args] and
    [kwargs], after the line [line]. *)
Definition entered (w : World) (line : level * str) (f : pyfunc)
    (args : list pyval) (kwargs : list (str * pyval)) : World :=
  add_func_call (func_id f, args, kwargs) (add_log (fst line) (snd line) w).





(** ** The chute reference (src/chutes/entrypoint/_shared.py) *)

(** [[a-z]] compiled with [re.I]: on 8-bit characters, the letters of
    both cases. *)
Definition letter (c : ascii) : bool :=
  in_range "a" "z" c || in_range "A" "Z" c.

(** [[a-z0-9]] with [re.I] *)
Definition letter_or_digit (c : ascii) : bool :=
  letter c || in_range "0" "9" c.

(** [[a-z0-9_]] with [re.I] *)
Definition ident_char (c : ascii) : bool :=
  letter c || in_range "0" "9" c || Str.eqb "_" c.

(** The pattern of CHUTE_REF_RE (_shared.py:10) between [^] and [$]. *)
Definition CHUTE_REF_RE_body : Re.regex :=
  Re.Cat (Re.Class letter_or_digit)
    (Re.Cat (Re.Star (Re.Class ident_char))
       (Re.Cat (Re.Chr ":")
          (Re.Cat (Re.Class letter) (Re.Plus (Re.Class ident_char))))).

(** [CHUTE_REF_RE.match(chute_ref_str)] as a truth value. *)
Definition CHUTE_REF_RE_match (chute_ref_str : str) : bool :=
  Re.match_anchored CHUTE_REF_RE_body chute_ref_str.

(** [s.split(sep)] for a separator of one character. *)
Fixpoint split_on (sep : ascii) (s : str) : list str :=
  match s with
  | [] => [[]]
  | c :: s' =>
      if Str.eqb c sep then [] :: split_on sep s'
      else
        match split_on sep s' with
        | part :: parts => (c :: part) :: parts
        | [] => [[c]]
        end
  end.

(** [module_name, chute_name = chute_ref_str.split(":")] (_shared.py:54,
    build.py:134): the unpacking needs exactly two parts. *)
Definition unpack_ref (chute_ref_str : str) : result (str * str) :=
  match split_on ":" chute_ref_str with
  | [module_name; chute_name] => inr (module_name, chute_name)
  | _ => inl (LibraryError (py "ValueError"))
  end.

(** A module name: a letter or digit, then letters, digits, underscores. *)
Definition module_name_ok (name : str) : bool :=
  match name with
  | c :: rest => letter_or_digit c && forallb ident_char rest
  | [] => false
  end.

(** A chute name: a letter, then at least one letter, digit or
    underscore. *)
Definition chute_name_ok (name : str) : bool :=
  match name with
  | c :: d :: rest => letter c && ident_char d && forallb ident_char rest
  | _ => false
  end.

(** ** The build context (src/chutes/entrypoint/build.py) *)

(** What the terminal has seen of a run: the lines logged, the prompts
    [input] has shown, and the answers not read yet. *)
Record Terminal : Type := {
  logged : list (level * str);
  asked : list str;
  answers : list str
}.

(** How the part of [temporary_build_directory] before the copying ends:
    it goes on to copy, [sys.exit] ends the process, or [input] finds the
    end of the input. *)
Inductive ended (A : Type) : Type :=
| Proceeds : A -> ended A
| SystemExit : Z -> ended A
| EOFError : ended A.

Arguments Proceeds {A} _.
Arguments SystemExit {A} _.
Arguments EOFError {A}.

Definition T (A : Type) : Type := Terminal -> Terminal * ended A.

Definition tret {A : Type} (a : A) : T A := fun t => (t, Proceeds a).

Definition tbind {A B : Type} (m : T A) (k : A -> T B) : T B :=
  fun t =>
    match m t with
    | (t', Proceeds a) => k a t'
    | (t', SystemExit code) => (t', SystemExit code)
    | (t', EOFError) => (t', EOFError)
    end.

(** [logger.<level>(message)] *)
Definition tlog (l : level) (message : str) : T unit :=
  fun t =>
    ({| logged := logged t ++ [(l, message)]; asked := asked t;
        answers := answers t |}, Proceeds tt).

(** [input(prompt)] *)
Definition input (prompt : str) : T str :=
  fun t =>
    match answers t with
    | [] =>
        ({| logged := logged t; asked := asked t ++ [prompt]; answers := [] |},
         EOFError)
    | answer :: rest =>
        ({| logged := logged t; asked := asked t ++ [prompt]; answers := rest |},
         Proceeds answer)
    end.

(** [sys.exit(code)] *)
Definition sys_exit {A : Type} (code : Z) : T A := fun t => (t, SystemExit code).

(** [for x in xs: body x] *)
Fixpoint for_each {X : Type} (xs : list X) (body : X -> T unit) : T unit :=
  match xs with
  | [] => tret tt
  | x :: xs' => tbind (body x) (fun _ => for_each xs' body)
  end.

Definition ESC : ascii := "027"%char.

Definition found_message (total : nat) : str :=
  py "Found " ++ py (pretty total)
  ++ py " files to include in build context -- " ++ [ESC] ++ py "[1m"
  ++ [ESC] ++ py "[4mthese will be uploaded for remote builds!"
  ++ [ESC] ++ py "[0m".

Definition show_prompt (shown total : nat) : str :=
  [ESC] ++ py "[93mShowing " ++ py (pretty shown) ++ py " of "
  ++ py (pretty total) ++ py ", would you like to see the rest? (y/n) "
  ++ [ESC] ++ py "[0m".

Definition confirm_prompt : str :=
  [ESC] ++ py "[1m" ++ [ESC]
  ++ py "[4mConfirm submitting build context? (y/n) " ++ [ESC] ++ py "[0m".

(** [temporary_build_directory(image)] up to the copying (build.py:42-62),
    for an image whose directives have the build contexts [directives]:
    it returns the files that the loop of build.py:67-71 then copies. *)
Definition temporary_build_directory (directives : list (list str))
    : T (list str) :=
  let all_input_files := concat directives in
  let samples := firstn 10 all_input_files in
  tbind (tlog INFO (found_message (length all_input_files))) (fun _ =>
  tbind (for_each samples (fun path => tlog INFO (" "%char :: path))) (fun _ =>
  tbind
    (if negb (Nat.eqb (length samples) (length all_input_files)) then
       tbind (input (show_prompt (length samples) (length all_input_files)))
         (fun show_all =>
            if Str.str_eqb (Str.lower show_all) (py "y") then
              for_each (firstn 10 all_input_files)
                (fun path => tlog INFO (" "%char :: path))
            else tret tt)
     else tret tt) (fun _ =>
  tbind (input confirm_prompt) (fun confirm =>
  if negb (Str.str_eqb (Str.strip (Str.lower confirm)) (py "y")) then
    tbind (tlog ERROR (py "Aborting!")) (fun _ => sys_exit 1)
  else tret all_input_files)))).

(** A terminal where nothing has happened and [lines] will be typed. *)
Definition fresh_terminal (lines : list str) : Terminal :=
  {| logged := []; asked := []; answers := lines |}.

(** The line logged for a file. *)
Definition file_line (path : str) : level * str := (INFO, " "%char :: path).

(** Twelve files in one directive. *)
Definition twelve_files : list str :=
  map (fun n => py "/src/f" ++ py (pretty n)) (seq 0 12).

(** The typed line that answers the offer to see the rest, which is made
    when there are more than ten files. *)
Definition offer_answer (files lines : list str) : option str :=
  if (10 <? length files)%nat then nth_error lines 0 else None.

(** The typed line that answers the confirmation: the second line when the
    offer was made before it, else the first. *)
Definition confirmation_answer (files lines : list str) : option str :=
  nth_error lines (if (10 <? length files)%nat then 1%nat else 0%nat).

(** The prompts of a run that is not cut short by the end of the input. *)
Definition prompts (files : list str) : list str :=
  (if (10 <? length files)%nat
   then [show_prompt (length (firstn 10 files)) (length files)]
   else [])
  ++ [confirm_prompt].

(** The lines logged before the confirmation is asked for: the count, the
    sample, and the sample again if the offer was answered with [y]. *)
Definition logged_before_confirmation (files lines : list str)
    : list (level * str) :=
  (INFO, found_message (length files))
  :: map file_line (firstn 10 files)
  ++ match offer_answer files lines with
     | Some show_all =>
         if Str.str_eqb (Str.lower show_all) (py "y")
         then map file_line (firstn 10 files)
         else []
     | None => []
     end.

(** * Properties *)

(** ** Examples *)

Example normalize_ex1 : normalize (py "//foo/bar//") = py "/foo/bar".
Proof. reflexivity. Qed.

Example normalize_ex2 : normalize (py "") = py "/".
Proof. reflexivity. Qed.

Example PATH_RE_ex1 : PATH_RE_match (py "/a-_b/0") = true.
Proof. reflexivity. Qed.

Example PATH_RE_ex2 : PATH_RE_match (py "/_a") = false.
Proof. reflexivity. Qed.

Example PATH_RE_ex3 : PATH_RE_match (py "/Foo") = false.
Proof. reflexivity. Qed.

Example path_rejected_ex : path_rejected (py "/a//b") = true.
Proof. reflexivity. Qed.

(** [$] lets one trailing line feed through, and only one. *)
Example PATH_RE_trailing_newline :
  PATH_RE_match (py "/foo" ++ ["010"%char]) = true
  /\ path_grammar (py "/foo" ++ ["010"%char]) = false
  /\ PATH_RE_match (py "/foo" ++ ["010"%char; "010"%char]) = false.
Proof. repeat split; reflexivity. Qed.

Example base64_ex : Base64.encode (py "hello") = py "aGVsbG8=".
Proof. reflexivity. Qed.

(** The end-to-end scenario of the specification: [f(41)] against a
    platform that streams [{"result": 42}]. *)
Example local_call_41 :
  snd (CordImpl._local_call
         (demo_env (streaming_platform [frame_result (py "42")]) no_answer)
         0%nat [VInt 41] [] stub_world)
  = inr (VInt 42).
Proof. vm_compute. reflexivity. Qed.

(** Blank lines between the frames are passed over. *)
Example local_call_blank_lines :
  snd (CordImpl._local_call
         (demo_env
            (streaming_platform
               [["010"%char]; frame_result (py "42"); ["010"%char]])
            no_answer)
         0%nat [VInt 41] [] stub_world)
  = inr (VInt 42).
Proof. vm_compute. reflexivity. Qed.

(** A status other than 200 and 503 raises at once, with the body text. *)
Example local_call_500 :
  snd (CordImpl._local_call
         (demo_env
            (fun _ _ => inr {| status := 500; text := py "boom"; content := [];
                              json_body := inl (LibraryError (py "x")) |})
            no_answer)
         0%nat [VInt 41] [] stub_world)
  = inl (PyException (VStr (py "boom"))).
Proof. vm_compute. reflexivity. Qed.

(** ** Regular expressions: the matcher decides the language *)

Module ReFacts.
Import Re.

Lemma nullable_matches r : nullable r = true <-> matches r [].
Proof.
  split.
  - induction r; simpl; intros Hn; try discriminate.
    + constructor.
    + apply andb_true_iff in Hn as [H1 H2].
      change (@nil ascii) with (@nil ascii ++ []). constructor; auto.
    + apply orb_true_iff in Hn as [H|H]; [apply MAltL | apply MAltR]; auto.
    + constructor.
  - intros Hm. remember [] as s eqn:Hs.
    induction Hm; simpl; subst; auto; try discriminate.
    + apply app_eq_nil in Hs as [-> ->]. rewrite IHHm1, IHHm2; auto.
    + rewrite IHHm; auto.
    + rewrite IHHm; auto. apply orb_true_r.
Qed.

Lemma matches_cons_cat c r1 r2 s1 s2 :
  matches r1 (c :: s1) -> matches r2 s2 -> matches (Cat r1 r2) (c :: s1 ++ s2).
Proof.
  intros H1 H2. change (c :: s1 ++ s2) with ((c :: s1) ++ s2).
  constructor; auto.
Qed.

Lemma deriv_sound c r : forall s, matches (deriv c r) s -> matches r (c :: s).
Proof.
  induction r as [| |f|r1 IH1 r2 IH2|r1 IH1 r2 IH2|r1 IH1]; simpl; intros s Hm.
  - inversion Hm.
  - inversion Hm.
  - destruct (f c) eqn:Hb; inversion Hm; subst. constructor; auto.
  - destruct (nullable r1) eqn:Hn.
    + inversion Hm as [| | |? ? ? Hc|? ? ? Hd| |]; subst.
      * inversion Hc; subst. apply matches_cons_cat; auto.
      * apply nullable_matches in Hn.
        change (c :: s) with ([] ++ c :: s). constructor; auto.
    + inversion Hm; subst. apply matches_cons_cat; auto.
  - inversion Hm; subst; [apply MAltL | apply MAltR]; auto.
  - inversion Hm; subst.
    change (c :: s1 ++ s2) with ((c :: s1) ++ s2). constructor; auto.
Qed.

Lemma deriv_complete r s0 :
  matches r s0 -> forall c s, s0 = c :: s -> matches (deriv c r) s.
Proof.
  induction 1; intros c' s' Heq; simpl.
  - discriminate.
  - injection Heq as -> <-. rewrite H. constructor.
  - destruct s1 as [|a s1].
    + simpl in Heq. subst s2.
      assert (Hn : nullable r1 = true) by (apply nullable_matches; auto).
      rewrite Hn. apply MAltR. auto.
    + simpl in Heq. injection Heq as -> <-.
      destruct (nullable r1).
      * apply MAltL. constructor; auto.
      * constructor; auto.
  - apply MAltL; auto.
  - apply MAltR; auto.
  - discriminate.
  - destruct s1 as [|a s1].
    + simpl in Heq. apply (IHmatches2 _ _ Heq).
    + simpl in Heq. injection Heq as -> <-.
      constructor; auto.
Qed.

Lemma fullmatch_matches s : forall r, fullmatch r s = true <-> matches r s.
Proof.
  induction s as [|c s IH]; intros r; simpl.
  - apply nullable_matches.
  - rewrite IH. split.
    + apply deriv_sound.
    + intros Hm. eapply deriv_complete; eauto.
Qed.

Lemma matches_star_class f s :
  matches (Star (Class f)) s <-> forallb f s = true.
Proof.
  split.
  - intros Hm. remember (Star (Class f)) as r eqn:Hr.
    induction Hm; try discriminate; auto.
    injection Hr as ->.
    inversion Hm1; subst. simpl. rewrite H0. simpl. auto.
  - induction s as [|c s IH]; simpl; intros Hf.
    + constructor.
    + apply andb_true_iff in Hf as [Hc Hs].
      change (c :: s) with ([c] ++ s). constructor; auto. constructor; auto.
Qed.

End ReFacts.

(** ** PATH_RE and the path grammar *)

Lemma eqb_eq a b : Str.eqb a b = true <-> a = b.
Proof. unfold Str.eqb. apply Ascii.eqb_eq. Qed.

Lemma eqb_refl a : Str.eqb a a = true.
Proof. apply eqb_eq; reflexivity. Qed.

Lemma eqb_sym a b : Str.eqb a b = Str.eqb b a.
Proof.
  destruct (Str.eqb a b) eqn:H1, (Str.eqb b a) eqn:H2; auto.
  - apply eqb_eq in H1. subst. rewrite eqb_refl in H2. discriminate.
  - apply eqb_eq in H2. subst. rewrite eqb_refl in H1. discriminate.
Qed.

Lemma forallb_ext {A : Type} (f g : A -> bool) (l : list A) :
  (forall x, f x = g x) -> forallb f l = forallb g l.
Proof. intros H. induction l as [|x l IH]; simpl; [|rewrite H, IH]; reflexivity. Qed.

Lemma word_char_spec x :
  word_char x = is_lower x || is_digit x || Str.eqb x "-" || Str.eqb x "_".
Proof.
  unfold word_char, is_lower, is_digit.
  rewrite (eqb_sym "-" x), (eqb_sym "_" x). reflexivity.
Qed.

Lemma lower_or_digit_word c : lower_or_digit c = true -> word_char c = true.
Proof. unfold lower_or_digit, word_char. intros ->. reflexivity. Qed.

Lemma word_char_not_slash c : word_char c = true -> Str.eqb c "/" = false.
Proof.
  intros Hw. destruct (Str.eqb c "/") eqn:He; auto.
  apply eqb_eq in He. subst. vm_compute in Hw. discriminate.
Qed.

Lemma segment_ok_spec seg :
  segment_ok seg = true <->
  exists c rest, seg = c :: rest /\ lower_or_digit c = true
                 /\ forallb word_char rest = true.
Proof.
  unfold segment_ok. destruct seg as [|c rest].
  - split; [discriminate | intros (c & rest & H & _); discriminate].
  - rewrite andb_true_iff.
    rewrite (forallb_ext _ word_char) by (intros; symmetry; apply word_char_spec).
    split.
    + intros [H1 H2]. exists c, rest. auto.
    + intros (c' & rest' & Heq & H1 & H2). injection Heq as -> ->. auto.
Qed.

Lemma matches_segment_re s :
  Re.matches segment_re s <-> exists seg, s = "/"%char :: seg /\ segment_ok seg = true.
Proof.
  unfold segment_re, Re.Plus, Re.Chr. split.
  - intros Hm.
    inversion Hm as [| |? ? s1 s2 Hslash Hrest| | | |]; subst.
    inversion Hslash as [|? c Hc| | | | |]; subst.
    apply eqb_eq in Hc. subst c.
    inversion Hrest as [| |? ? u v Hu Hv| | | |]; subst.
    inversion Hu as [| |? ? u1 u2 Hu1 Hu2| | | |]; subst.
    inversion Hu1 as [|? c Hc| | | | |]; subst.
    apply ReFacts.matches_star_class in Hu2, Hv.
    exists ((c :: u2) ++ v). split; [reflexivity|].
    apply segment_ok_spec. exists c, (u2 ++ v). split; [reflexivity|].
    split; [assumption|].
    rewrite forallb_app, Hv, andb_true_r.
    apply forallb_forall. intros x Hx.
    apply lower_or_digit_word.
    rewrite forallb_forall in Hu2. auto.
  - intros (seg & -> & Hok).
    apply segment_ok_spec in Hok as (c & rest & -> & Hc & Hrest).
    change ("/"%char :: c :: rest) with (["/"%char] ++ ([c] ++ []) ++ rest).
    constructor.
    + constructor. apply eqb_refl.
    + constructor.
      * constructor; constructor. assumption.
      * apply ReFacts.matches_star_class. assumption.
Qed.

Lemma matches_star_segments s :
  Re.matches (Re.Star segment_re) s <->
  exists segs, s = join_segments segs /\ forallb segment_ok segs = true.
Proof.
  split.
  - intros Hm. remember (Re.Star segment_re) as r eqn:Hr.
    induction Hm; try discriminate.
    + exists []. auto.
    + injection Hr as ->.
      destruct (IHHm2 eq_refl) as (segs & -> & Hok).
      apply matches_segment_re in Hm1 as (seg & -> & Hseg).
      exists (seg :: segs). split; [reflexivity|].
      simpl. rewrite Hseg, Hok. reflexivity.
  - intros (segs & -> & Hok).
    induction segs as [|seg segs IH]; simpl.
    + constructor.
    + simpl in Hok. apply andb_true_iff in Hok as [Hseg Hok].
      change (join_segments (seg :: segs))
        with (("/"%char :: seg) ++ join_segments segs).
      constructor; auto.
      apply matches_segment_re. eauto.
Qed.

Lemma matches_PATH_RE_body s :
  Re.matches PATH_RE_body s <->
  exists seg segs, s = join_segments (seg :: segs)
                   /\ forallb segment_ok (seg :: segs) = true.
Proof.
  change PATH_RE_body with (Re.Cat segment_re (Re.Star segment_re)). split.
  - intros Hm. inversion Hm as [| |? ? s1 s2 H1 H2| | | |]; subst.
    apply matches_segment_re in H1 as (seg & -> & Hseg).
    apply matches_star_segments in H2 as (segs & -> & Hok).
    exists seg, segs. split; [reflexivity|].
    simpl. rewrite Hseg, Hok. reflexivity.
  - intros (seg & segs & -> & Hok).
    simpl in Hok. apply andb_true_iff in Hok as [Hseg Hok].
    change (join_segments (seg :: segs))
      with (("/"%char :: seg) ++ join_segments segs).
    constructor.
    + apply matches_segment_re. eauto.
    + apply matches_star_segments. eauto.
Qed.

Lemma split_slash_cons s : exists seg segs, split_slash s = seg :: segs.
Proof.
  induction s as [|c s (seg & segs & IH)]; simpl.
  - eauto.
  - destruct (Str.eqb c "/"); [eauto|]. rewrite IH. eauto.
Qed.

Lemma join_split s : join_segments (split_slash s) = "/"%char :: s.
Proof.
  induction s as [|c s IH]; simpl.
  - reflexivity.
  - destruct (Str.eqb c "/") eqn:Hc.
    + apply eqb_eq in Hc. subst c.
      change (join_segments ([] :: split_slash s))
        with ("/"%char :: join_segments (split_slash s)).
      rewrite IH. reflexivity.
    + destruct (split_slash s) as [|seg segs].
      * discriminate IH.
      * unfold join_segments in *. simpl in *.
        injection IH as IH. rewrite IH. reflexivity.
Qed.

Lemma split_join seg segs :
  forallb no_slash (seg :: segs) = true ->
  split_slash (seg ++ join_segments segs) = seg :: segs.
Proof.
  revert seg. induction segs as [|seg' segs IH]; intros seg Hns.
  - simpl in Hns. rewrite andb_true_r in Hns.
    unfold join_segments. simpl. rewrite app_nil_r.
    induction seg as [|c seg IHs]; simpl; [reflexivity|].
    simpl in Hns. apply andb_true_iff in Hns as [Hc Hs].
    apply negb_true_iff in Hc. rewrite Hc, (IHs Hs). reflexivity.
  - simpl in Hns. apply andb_true_iff in Hns as [Hseg Hrest].
    specialize (IH seg' Hrest).
    change (join_segments (seg' :: segs))
      with ("/"%char :: seg' ++ join_segments segs).
    induction seg as [|c seg IHs]; simpl.
    + rewrite IH. reflexivity.
    + simpl in Hseg. apply andb_true_iff in Hseg as [Hc Hs].
      apply negb_true_iff in Hc. rewrite Hc, (IHs Hs). reflexivity.
Qed.

Lemma segment_ok_no_slash seg : segment_ok seg = true -> no_slash seg = true.
Proof.
  intros H. apply segment_ok_spec in H as (c & rest & -> & Hc & Hrest).
  unfold no_slash. simpl.
  rewrite (word_char_not_slash c (lower_or_digit_word c Hc)). simpl.
  apply forallb_forall. intros x Hx.
  rewrite forallb_forall in Hrest.
  rewrite (word_char_not_slash x (Hrest x Hx)). reflexivity.
Qed.

Lemma segment_ok_nonempty seg : segment_ok seg = true -> nonempty seg = true.
Proof. destruct seg; [discriminate | reflexivity]. Qed.

Lemma forallb_impl {A : Type} (f g : A -> bool) (l : list A) :
  (forall x, f x = true -> g x = true) ->
  forallb f l = true -> forallb g l = true.
Proof.
  intros H. induction l as [|x l IH]; simpl; auto.
  intros Hf. apply andb_true_iff in Hf as [Hx Hl].
  rewrite (H x Hx), (IH Hl). reflexivity.
Qed.

Lemma path_grammar_segments p :
  path_grammar p = true <->
  exists seg segs, p = join_segments (seg :: segs)
                   /\ forallb segment_ok (seg :: segs) = true.
Proof.
  split.
  - intros H. destruct p as [|c rest]; simpl in H; [discriminate|].
    apply andb_true_iff in H as [Hc Hok].
    apply eqb_eq in Hc. subst c.
    destruct (split_slash_cons rest) as (seg & segs & Hs).
    exists seg, segs. rewrite <- Hs. split; [|assumption].
    symmetry. apply join_split.
  - intros (seg & segs & -> & Hok).
    change (join_segments (seg :: segs))
      with ("/"%char :: seg ++ join_segments segs).
    simpl. rewrite split_join; [assumption|].
    eapply forallb_impl; [|exact Hok]. apply segment_ok_no_slash.
Qed.

(** The matcher on the pattern of PATH_RE decides the path grammar. *)
Lemma PATH_RE_body_grammar p : Re.fullmatch PATH_RE_body p = path_grammar p.
Proof.
  apply eq_true_iff_eq.
  rewrite ReFacts.fullmatch_matches, matches_PATH_RE_body, path_grammar_segments.
  reflexivity.
Qed.

Lemma PATH_RE_match_spec p :
  PATH_RE_match p =
  path_grammar p ||
  match rev p with
  | c :: q => Str.eqb c "010"%char && path_grammar (rev q)
  | [] => false
  end.
Proof.
  unfold PATH_RE_match, Re.match_anchored.
  rewrite PATH_RE_body_grammar.
  destruct (rev p); [reflexivity|].
  rewrite PATH_RE_body_grammar. reflexivity.
Qed.

Lemma split_head_nonempty s seg segs :
  split_slash s = seg :: segs -> nonempty seg = true ->
  exists c s', s = c :: s' /\ Str.eqb c "/" = false.
Proof.
  destruct s as [|c s']; simpl.
  - intros H. injection H as <- <-. discriminate.
  - destruct (Str.eqb c "/") eqn:Hc.
    + intros H. injection H as <- <-. discriminate.
    + eauto.
Qed.

Lemma contains_double_slash_cons c s :
  Str.contains (py "//") (c :: s) =
  (Str.eqb c "/"
   && match s with
      | c' :: _ => Str.eqb c' "/"
      | [] => false
      end)
  || Str.contains (py "//") s.
Proof.
  change (py "//") with ["/"%char; "/"%char].
  rewrite (eqb_sym c "/").
  destruct s as [|c' s']; simpl.
  - rewrite andb_false_r. reflexivity.
  - rewrite (eqb_sym c' "/"), andb_true_r. reflexivity.
Qed.

Lemma contains_double_slash s :
  forallb nonempty (tl (split_slash s)) = true ->
  Str.contains (py "//") s = false.
Proof.
  induction s as [|c s IH]; intros H.
  - reflexivity.
  - rewrite contains_double_slash_cons.
    simpl in H. destruct (Str.eqb c "/") eqn:Hc.
    + simpl in H. destruct (split_slash s) as [|seg segs] eqn:Hs.
      * destruct (split_slash_cons s) as (? & ? & Hx). congruence.
      * simpl in H. apply andb_true_iff in H as [Hseg Hsegs].
        destruct (split_head_nonempty _ _ _ Hs Hseg) as (c' & s' & -> & Hc').
        rewrite Hc'. simpl. apply IH. exact Hsegs.
    + destruct (split_slash s) as [|seg segs] eqn:Hs.
      * destruct (split_slash_cons s) as (? & ? & Hx). congruence.
      * simpl in H. simpl. apply IH. exact H.
Qed.

Lemma path_grammar_no_double_slash p :
  path_grammar p = true -> Str.contains (py "//") p = false.
Proof.
  intros H. destruct p as [|c rest]; simpl in H; [discriminate|].
  apply andb_true_iff in H as [Hc Hok].
  assert (Hne : forallb nonempty (split_slash rest) = true).
  { eapply forallb_impl; [|exact Hok]. apply segment_ok_nonempty. }
  rewrite contains_double_slash_cons.
  destruct (split_slash rest) as [|seg segs] eqn:Hs.
  - destruct (split_slash_cons rest) as (? & ? & Hx). congruence.
  - simpl in Hne. apply andb_true_iff in Hne as [Hseg Hsegs].
    destruct (split_head_nonempty _ _ _ Hs Hseg) as (c' & s' & -> & Hc').
    rewrite Hc', andb_false_r, orb_false_l.
    apply contains_double_slash. rewrite Hs. exact Hsegs.
Qed.

(** ** Normalization *)

Lemma lstrip_slash_spec s :
  exists i, s = slashes i ++ Str.lstrip (py "/") s
            /\ starts_with_slash (Str.lstrip (py "/") s) = false.
Proof.
  change (py "/") with ["/"%char].
  induction s as [|c s (i & IH1 & IH2)]; simpl.
  - exists 0%nat. auto.
  - unfold Str.mem. simpl. rewrite orb_false_r.
    destruct (Str.eqb c "/") eqn:Hc.
    + apply eqb_eq in Hc. subst c. exists (S i). simpl.
      split; [f_equal; exact IH1 | exact IH2].
    + exists 0%nat. simpl. auto.
Qed.

Lemma rev_slashes n : rev (slashes n) = slashes n.
Proof.
  unfold slashes. induction n as [|n IH]; simpl; auto.
  rewrite IH. clear IH. induction n; simpl; congruence.
Qed.

Lemma rstrip_slash_spec s :
  exists j, s = Str.rstrip (py "/") s ++ slashes j
            /\ ends_with_slash (Str.rstrip (py "/") s) = false.
Proof.
  unfold Str.rstrip, ends_with_slash.
  destruct (lstrip_slash_spec (rev s)) as (j & H1 & H2).
  exists j. rewrite rev_involutive. split; [|exact H2].
  apply (f_equal (@rev ascii)) in H1.
  rewrite rev_involutive, rev_app_distr, rev_slashes in H1. exact H1.
Qed.

Lemma starts_with_slash_prefix body j :
  starts_with_slash (body ++ slashes j) = false -> starts_with_slash body = false.
Proof. destruct body; simpl; auto. Qed.

(** The normalized form is a slash in front of the candidate with every
    leading and every trailing slash removed. *)
Lemma normalize_spec candidate :
  exists i j body,
    candidate = slashes i ++ body ++ slashes j
    /\ normalize candidate = "/"%char :: body
    /\ starts_with_slash body = false
    /\ ends_with_slash body = false.
Proof.
  unfold normalize.
  destruct (lstrip_slash_spec candidate) as (i & H1 & H2).
  destruct (rstrip_slash_spec (Str.lstrip (py "/") candidate)) as (j & H3 & H4).
  exists i, j, (Str.rstrip (py "/") (Str.lstrip (py "/") candidate)).
  split; [|split; [reflexivity|split; [|exact H4]]].
  - rewrite <- H3. exact H1.
  - rewrite H3 in H2. eapply starts_with_slash_prefix; eauto.
Qed.

Lemma mem_app c s t : Str.mem c (s ++ t) = Str.mem c s || Str.mem c t.
Proof. unfold Str.mem. apply existsb_app. Qed.

Lemma endswith_nl_mem s : Str.mem "010"%char s = false -> Str.endswith_nl s = false.
Proof.
  unfold Str.endswith_nl. intros H.
  destruct (rev s) as [|c r] eqn:Hr; [reflexivity|].
  assert (Hs : s = rev r ++ [c]).
  { rewrite <- (rev_involutive s), Hr. reflexivity. }
  rewrite Hs, mem_app in H. apply orb_false_iff in H as [_ H].
  unfold Str.mem in H. simpl in H. rewrite orb_false_r in H.
  rewrite eqb_sym. exact H.
Qed.

Lemma normalize_no_newline candidate :
  Str.mem "010"%char candidate = false ->
  Str.endswith_nl (normalize candidate) = false.
Proof.
  intros H. destruct (normalize_spec candidate) as (i & j & body & Hc & -> & _).
  apply endswith_nl_mem.
  rewrite Hc, !mem_app in H.
  apply orb_false_iff in H as [_ H]. apply orb_false_iff in H as [H _].
  change ("/"%char :: body) with (["/"%char] ++ body).
  rewrite mem_app, H. reflexivity.
Qed.

(** ** The guard of the setters *)

Lemma path_rejected_grammar p :
  path_grammar p = true -> path_rejected p = false.
Proof.
  intros H. unfold path_rejected.
  rewrite (path_grammar_no_double_slash p H), PATH_RE_match_spec, H.
  reflexivity.
Qed.

Lemma path_rejected_not_grammar p :
  path_grammar p = false -> Str.endswith_nl p = false -> path_rejected p = true.
Proof.
  intros H Hnl. unfold path_rejected.
  rewrite PATH_RE_match_spec, H. unfold Str.endswith_nl in Hnl.
  destruct (rev p) as [|c q].
  - apply orb_true_r.
  - rewrite Hnl. apply orb_true_r.
Qed.

(** ** The setters, run *)

Import CordImpl.

Lemma path_setter_run self candidate w :
  path_setter self candidate w =
  let path := normalize candidate in
  if path_rejected path then (w, inl (InvalidPath path))
  else
    match cord_objs w !! self with
    | None => (w, inl (LibraryError (py "no such object")))
    | Some c =>
        match chute_objs w !! Cord._app c with
        | None => (w, inl (LibraryError (py "no such object")))
        | Some app =>
            if any_cord_has_path w app path
            then (w, inl (DuplicatePath path))
            else (set_cord_objs
                    (<[self := Cord.with_path (Some path) c]> (cord_objs w)) w,
                  inr tt)
        end
    end.
Proof.
  unfold path_setter. cbv zeta.
  destruct (path_rejected (normalize candidate)); [reflexivity|].
  unfold bind, get_cord, get_chute, get_world, update_cord, bind, get_cord,
    modify, raise.
  destruct (cord_objs w !! self) as [c|] eqn:Hc; [|reflexivity].
  destruct (chute_objs w !! Cord._app c) as [app|]; [|reflexivity].
  destruct (any_cord_has_path w app (normalize candidate)); [reflexivity|].
  rewrite Hc. reflexivity.
Qed.

Lemma setter_run (field : option (list ascii) -> Cord.t -> Cord.t) self candidate w :
  (let path := normalize candidate in
   if path_rejected path then raise (InvalidPath path)
   else update_cord self (field (Some path))) w =
  let path := normalize candidate in
  if path_rejected path then (w, inl (InvalidPath path))
  else
    match cord_objs w !! self with
    | None => (w, inl (LibraryError (py "no such object")))
    | Some c =>
        (set_cord_objs (<[self := field (Some path) c]> (cord_objs w)) w, inr tt)
    end.
Proof.
  cbv zeta. destruct (path_rejected (normalize candidate)); [reflexivity|].
  unfold update_cord, bind, get_cord, modify.
  destruct (cord_objs w !! self); reflexivity.
Qed.

Lemma passthrough_path_setter_run self candidate w :
  passthrough_path_setter self candidate w =
  let path := normalize candidate in
  if path_rejected path then (w, inl (InvalidPath path))
  else
    match cord_objs w !! self with
    | None => (w, inl (LibraryError (py "no such object")))
    | Some c =>
        (set_cord_objs
           (<[self := Cord.with_passthrough_path (Some path) c]> (cord_objs w)) w,
         inr tt)
    end.
Proof. apply (setter_run Cord.with_passthrough_path). Qed.

(** ** C6: the primary path setter *)

(** C6 as stated fails: endpoint 1 of [demo_world] asks for [foo], whose
    normalized form [/foo] matches the grammar, and the setter does not
    succeed: endpoint 0 of the same service holds [/foo], so it raises
    DuplicatePath. *)
Lemma path_setter_valid_path_can_fail :
  path_grammar (normalize (py "foo")) = true
  /\ path_setter 1%nat (py "foo") demo_world
     = (demo_world, inl (DuplicatePath (py "/foo"))).
Proof. split; [reflexivity|]. rewrite path_setter_run. reflexivity. Qed.

(** C6 (amended). The setter turns the candidate into a slash followed by
    the candidate without its leading and trailing slashes. If that form
    matches the path grammar and no endpoint of the owning service holds
    it, the setter stores it; if it matches and an endpoint of the owner
    holds it, the setter raises DuplicatePath; if it violates the grammar
    (and does not end in a line feed) the setter raises InvalidPath. In
    both failures the world, hence the stored path, is unchanged. *)
Theorem path_setter_normalizes_and_validates
    (w : World) (self : nat) (c : Cord.t) (app : Chute) (candidate : str) :
  cord_objs w !! self = Some c ->
  chute_objs w !! Cord._app c = Some app ->
  let path := normalize candidate in
  (exists i j body,
      candidate = slashes i ++ body ++ slashes j
      /\ path = "/"%char :: body
      /\ starts_with_slash body = false
      /\ ends_with_slash body = false)
  /\ (path_grammar path = true ->
      any_cord_has_path w app path = false ->
      path_setter self candidate w =
      (set_cord_objs (<[self := Cord.with_path (Some path) c]> (cord_objs w)) w,
       inr tt))
  /\ (path_grammar path = true ->
      any_cord_has_path w app path = true ->
      path_setter self candidate w = (w, inl (DuplicatePath path)))
  /\ (path_grammar path = false ->
      Str.endswith_nl path = false ->
      path_setter self candidate w = (w, inl (InvalidPath path))).
Proof.
  intros Hc Happ path. split; [apply normalize_spec|].
  rewrite path_setter_run. fold path. cbv zeta. rewrite Hc, Happ.
  split; [|split].
  - intros Hg Hdup. rewrite (path_rejected_grammar _ Hg), Hdup. reflexivity.
  - intros Hg Hdup. rewrite (path_rejected_grammar _ Hg), Hdup. reflexivity.
  - intros Hg Hnl. rewrite (path_rejected_not_grammar _ Hg Hnl). reflexivity.
Qed.

(** Endpoint 2 of [demo_world] registers [/bar/]: stored as [/bar]. *)
Lemma path_setter_normalizes_and_validates_witness :
  path_setter 2%nat (py "/bar/") demo_world =
  (set_cord_objs
     (<[2%nat := Cord.with_path (Some (py "/bar")) (default_cord 1 None)]>
        (cord_objs demo_world)) demo_world,
   inr tt).
Proof.
  apply (path_setter_normalizes_and_validates demo_world 2%nat
           (default_cord 1 None) {| uid := py "svc-b"; cords := [2%nat] |}
           (py "/bar/") eq_refl eq_refl);
    reflexivity.
Defined.

(** What the setter does with a trailing line feed: [foo] followed by a
    line feed is stored although it does not match the grammar. *)
Example path_setter_trailing_newline :
  path_grammar (normalize (py "foo" ++ ["010"%char])) = false
  /\ snd (path_setter 2%nat (py "foo" ++ ["010"%char]) demo_world) = inr tt.
Proof. split; [reflexivity | vm_compute; reflexivity]. Qed.

(** Declaring a second endpoint at [foo] on the first service fails in the
    constructor. *)
Example init_duplicate :
  snd (__init__ 0%nat false (Some (py "foo")) None false None (py "POST")
         (py "GET") 180 [] demo_world)
  = inl (DuplicatePath (py "/foo")).
Proof. vm_compute. reflexivity. Qed.

(** ** C7: duplicates are per owning service, and only for the primary path *)

Lemma any_cord_has_path_intro w app first c1 path :
  In first (cords app) ->
  cord_objs w !! first = Some c1 ->
  Cord._path c1 = Some path ->
  any_cord_has_path w app path = true.
Proof.
  intros Hin Hc Hp. unfold any_cord_has_path.
  apply existsb_exists. exists first. split; [exact Hin|].
  rewrite Hc. apply bool_decide_eq_true. exact Hp.
Qed.

Lemma path_setter_success self candidate w w1 :
  path_setter self candidate w = (w1, inr tt) ->
  path_rejected (normalize candidate) = false
  /\ exists c, cord_objs w !! self = Some c
               /\ cord_objs w1 !! self
                  = Some (Cord.with_path (Some (normalize candidate)) c)
               /\ chute_objs w1 = chute_objs w.
Proof.
  rewrite path_setter_run. cbv zeta.
  destruct (path_rejected (normalize candidate)); [discriminate|].
  destruct (cord_objs w !! self) as [c|] eqn:Hc; [|discriminate].
  destruct (chute_objs w !! Cord._app c) as [app|]; [|discriminate].
  destruct (any_cord_has_path w app (normalize candidate)); [discriminate|].
  intros H. injection H as <-. split; [reflexivity|].
  exists c. split; [reflexivity|]. split; [|reflexivity].
  simpl. apply lookup_insert_eq.
Qed.

(** C7. Once an endpoint [first] has registered a path, an endpoint
    [second] whose owning service holds [first] and that asks for a
    candidate with the same normalized form gets DuplicatePath, and the
    world is unchanged; an endpoint [other] whose owning service holds no
    endpoint at that path registers it; and the passthrough setter never
    raises DuplicatePath: it stores every form that matches the grammar,
    even one an endpoint of the same service holds, and raises InvalidPath
    for the forms its guard rejects. *)
Theorem duplicate_path_per_owner
    (w w1 : World) (first second other : nat) (c2 c3 : Cord.t)
    (app app' : Chute) (candidate1 candidate2 : str) :
  path_setter first candidate1 w = (w1, inr tt) ->
  normalize candidate2 = normalize candidate1 ->
  cord_objs w1 !! second = Some c2 ->
  chute_objs w1 !! Cord._app c2 = Some app ->
  In first (cords app) ->
  cord_objs w1 !! other = Some c3 ->
  chute_objs w1 !! Cord._app c3 = Some app' ->
  any_cord_has_path w1 app' (normalize candidate2) = false ->
  path_setter second candidate2 w1
  = (w1, inl (DuplicatePath (normalize candidate2)))
  /\ path_setter other candidate2 w1
     = (set_cord_objs
          (<[other := Cord.with_path (Some (normalize candidate2)) c3]>
             (cord_objs w1)) w1,
        inr tt)
  /\ passthrough_path_setter second candidate2 w1
     = (set_cord_objs
          (<[second := Cord.with_passthrough_path (Some (normalize candidate2)) c2]>
             (cord_objs w1)) w1,
        inr tt)
  /\ (forall self candidate w0 w0' path,
         passthrough_path_setter self candidate w0
         <> (w0', inl (DuplicatePath path)))
  /\ (forall self candidate w0,
         path_rejected (normalize candidate) = true ->
         passthrough_path_setter self candidate w0
         = (w0, inl (InvalidPath (normalize candidate))))
  /\ (forall self candidate w0,
         path_grammar (normalize candidate) = false ->
         Str.endswith_nl (normalize candidate) = false ->
         passthrough_path_setter self candidate w0
         = (w0, inl (InvalidPath (normalize candidate)))).
Proof.
  intros Hfirst Hnorm Hc2 Happ Hin Hc3 Happ' Hfree.
  apply path_setter_success in Hfirst as (Hok & c1 & _ & Hc1 & _).
  rewrite <- Hnorm in Hok, Hc1.
  split; [|split; [|split; [|split; [|split]]]];
    [| | | | |intros self candidate w0 Hg Hnl;
              rewrite passthrough_path_setter_run; cbv zeta;
              rewrite (path_rejected_not_grammar _ Hg Hnl); reflexivity].
  - rewrite path_setter_run. cbv zeta. rewrite Hok, Hc2, Happ.
    rewrite (any_cord_has_path_intro w1 app first _ _ Hin Hc1 eq_refl).
    reflexivity.
  - rewrite path_setter_run. cbv zeta. rewrite Hok, Hc3, Happ', Hfree.
    reflexivity.
  - rewrite passthrough_path_setter_run. cbv zeta. rewrite Hok, Hc2.
    reflexivity.
  - intros self candidate w0 w0' path.
    rewrite passthrough_path_setter_run. cbv zeta.
    destruct (path_rejected (normalize candidate)); [discriminate|].
    destruct (cord_objs w0 !! self); discriminate.
  - intros self candidate w0 Hrej.
    rewrite passthrough_path_setter_run. cbv zeta. rewrite Hrej. reflexivity.
Qed.

(** Endpoint 1 has registered [bar]; endpoint 0 of the same service is
    refused [/bar/], endpoint 2 of the other service gets it. *)
Lemma duplicate_path_per_owner_witness :
  path_setter 0%nat (py "/bar/") demo_world_bar
  = (demo_world_bar, inl (DuplicatePath (py "/bar")))
  /\ exists w', path_setter 2%nat (py "/bar/") demo_world_bar = (w', inr tt).
Proof.
  destruct (duplicate_path_per_owner demo_world demo_world_bar 1%nat 0%nat 2%nat
              (default_cord 0 (Some (py "/foo"))) (default_cord 1 None)
              {| uid := py "svc-a"; cords := [0%nat; 1%nat] |}
              {| uid := py "svc-b"; cords := [2%nat] |}
              (py "bar") (py "/bar/")
              ltac:(vm_compute; reflexivity) eq_refl
              ltac:(vm_compute; reflexivity) ltac:(vm_compute; reflexivity)
              (or_intror (or_introl eq_refl))
              ltac:(vm_compute; reflexivity) ltac:(vm_compute; reflexivity)
              ltac:(vm_compute; reflexivity))
    as (H1 & H2 & _).
  split; [exact H1 | eexists; exact H2].
Defined.

(** ** Names that cannot be paths *)

Lemma normalize_no_leading_slash c rest :
  Str.eqb c "/" = false ->
  exists body, normalize (c :: rest) = "/"%char :: c :: body.
Proof.
  intros Hc.
  destruct (normalize_spec (c :: rest)) as (i & j & body & Hcand & Hn & Hs & He).
  rewrite Hn. destruct i as [|i].
  - simpl in Hcand. destruct body as [|b body].
    + simpl in Hcand. destruct j as [|j]; [discriminate|].
      simpl in Hcand. injection Hcand as -> _. discriminate Hc.
    + simpl in Hcand. injection Hcand as -> _. eauto.
  - simpl in Hcand. injection Hcand as -> _. discriminate Hc.
Qed.

Lemma split_slash_head c s :
  Str.eqb c "/" = false ->
  exists seg segs, split_slash (c :: s) = (c :: seg) :: segs.
Proof.
  intros Hc. simpl. rewrite Hc.
  destruct (split_slash_cons s) as (seg & segs & ->). eauto.
Qed.

(** A name that begins with an underscore never matches the grammar. *)
Lemma underscore_name_invalid rest :
  path_grammar (normalize ("_"%char :: rest)) = false.
Proof.
  destruct (normalize_no_leading_slash "_" rest eq_refl) as (body & ->).
  destruct (split_slash_head "_" body eq_refl) as (seg & segs & Hs).
  unfold path_grammar. rewrite Hs. reflexivity.
Qed.

Lemma join_segments_chars segs :
  forallb segment_ok segs = true -> forallb path_char (join_segments segs) = true.
Proof.
  induction segs as [|seg segs IH]; [reflexivity|].
  intros H. simpl in H. apply andb_true_iff in H as [Hseg Hsegs].
  change (join_segments (seg :: segs))
    with (("/"%char :: seg) ++ join_segments segs).
  rewrite forallb_app, (IH Hsegs), andb_true_r.
  change (forallb path_char ("/"%char :: seg)) with (forallb path_char seg).
  apply segment_ok_spec in Hseg as (c & rest & -> & Hc & Hrest).
  simpl. unfold path_char at 1.
  rewrite (lower_or_digit_word c Hc), orb_true_r. simpl.
  eapply forallb_impl; [|exact Hrest].
  intros x Hx. unfold path_char. rewrite Hx. apply orb_true_r.
Qed.

Lemma path_grammar_chars p :
  path_grammar p = true -> forallb path_char p = true.
Proof.
  intros H. apply path_grammar_segments in H as (seg & segs & -> & Hok).
  apply join_segments_chars. exact Hok.
Qed.

Lemma is_upper_not_path_char c : Str.is_upper c = true -> path_char c = false.
Proof.
  unfold Str.is_upper, path_char, word_char, in_range, Str.eqb.
  intros H. apply andb_true_iff in H as [H1 H2].
  apply N.leb_le in H1, H2.
  destruct (Ascii.eqb c "/") eqn:E1.
  { apply Ascii.eqb_eq in E1. subst. vm_compute in H1. contradiction H1; reflexivity. }
  destruct (Ascii.eqb "-" c) eqn:E2.
  { apply Ascii.eqb_eq in E2. subst. vm_compute in H1. contradiction H1; reflexivity. }
  destruct (Ascii.eqb "_" c) eqn:E3.
  { apply Ascii.eqb_eq in E3. subst. vm_compute in H2. contradiction H2; reflexivity. }
  simpl. rewrite !orb_false_r.
  change (N_of_ascii "a") with 97%N. change (N_of_ascii "z") with 122%N.
  change (N_of_ascii "0") with 48%N. change (N_of_ascii "9") with 57%N.
  apply orb_false_iff. split; apply andb_false_iff.
  - left. apply N.leb_gt. lia.
  - right. apply N.leb_gt. lia.
Qed.

(** A name with an uppercase letter never matches the grammar. *)
Lemma uppercase_name_invalid name :
  existsb Str.is_upper name = true -> path_grammar (normalize name) = false.
Proof.
  intros Hup. destruct (path_grammar (normalize name)) eqn:Hg; [|reflexivity].
  apply path_grammar_chars in Hg.
  destruct (normalize_spec name) as (i & j & body & Hcand & Hn & _).
  rewrite Hn in Hg. simpl in Hg. rename Hg into Hbody.
  rewrite Hcand, !existsb_app in Hup.
  assert (Hsl : forall n, existsb Str.is_upper (slashes n) = false).
  { induction n; simpl; auto. }
  rewrite !Hsl, orb_false_r in Hup. simpl in Hup.
  apply existsb_exists in Hup as (x & Hin & Hx).
  rewrite forallb_forall in Hbody. specialize (Hbody x Hin).
  rewrite (is_upper_not_path_char x Hx) in Hbody. discriminate.
Qed.

(** ** C10: binding falls back on the function's name *)

Lemma update_cord_run self f w c :
  cord_objs w !! self = Some c ->
  update_cord self f w
  = (set_cord_objs (<[self := f c]> (cord_objs w)) w, inr tt).
Proof.
  intros Hc. unfold update_cord, bind, get_cord, modify. rewrite Hc. reflexivity.
Qed.

Lemma get_cord_run self w c :
  cord_objs w !! self = Some c -> get_cord self w = (w, inr c).
Proof. intros Hc. unfold get_cord. rewrite Hc. reflexivity. Qed.

Ltac field_simpl_cord :=
  cbn [Cord._path Cord._passthrough_path Cord._app Cord.with_func
       Cord.with_path].

(** C10. Binding an endpoint whose primary path or whose passthrough path
    is not set takes the function's name as the candidate of the missing
    one, through the same setters. Hence, for a name (without line feed)
    whose normalized form violates the path grammar, binding raises
    InvalidPath, as it does for every such name that begins with an
    underscore or has an uppercase letter; and for a name whose normalized
    form matches the grammar and is free in the owning service, binding an
    endpoint with neither path set stores the normalized name as both. *)
Theorem bind_defaults_to_function_name
    (E : Env) (w : World) (self : nat) (c : Cord.t) (func : pyfunc) :
  cord_objs w !! self = Some c ->
  opt_truthy (Cord._path c) = false
  \/ opt_truthy (Cord._passthrough_path c) = false ->
  let path := normalize (__name__ func) in
  (path_grammar path = false ->
   Str.mem "010"%char (__name__ func) = false ->
   __call__ E self func w = (bound_world w self c func, inl (InvalidPath path)))
  /\ (forall app,
        path_grammar path = true ->
        opt_truthy (Cord._path c) = false ->
        opt_truthy (Cord._passthrough_path c) = false ->
        chute_objs w !! Cord._app c = Some app ->
        any_cord_has_path (bound_world w self c func) app path = false ->
        exists w' m c',
          __call__ E self func w = (w', inr m)
          /\ cord_objs w' !! self = Some c'
          /\ Cord._path c' = Some path
          /\ Cord._passthrough_path c' = Some path
          /\ Cord._func c' = Some func)
  /\ (forall rest,
        __name__ func = "_"%char :: rest ->
        Str.mem "010"%char (__name__ func) = false ->
        __call__ E self func w
        = (bound_world w self c func, inl (InvalidPath path)))
  /\ (existsb Str.is_upper (__name__ func) = true ->
      Str.mem "010"%char (__name__ func) = false ->
      __call__ E self func w
      = (bound_world w self c func, inl (InvalidPath path))).
Proof.
  intros Hc Hunset path.
  assert (Hb : cord_objs (bound_world w self c func) !! self
               = Some (Cord.with_func (Some func) c)).
  { simpl. apply lookup_insert_eq. }
  assert (Hinvalid :
            path_grammar path = false ->
            Str.mem "010"%char (__name__ func) = false ->
            __call__ E self func w
            = (bound_world w self c func, inl (InvalidPath path))).
  { intros Hg Hnl.
    assert (Hrej : path_rejected path = true).
    { apply path_rejected_not_grammar; [exact Hg|].
      apply normalize_no_newline. exact Hnl. }
    unfold __call__, bind. rewrite (update_cord_run _ _ _ _ Hc).
    fold (bound_world w self c func). rewrite (get_cord_run _ _ _ Hb).
    field_simpl_cord. unfold when.
    destruct (opt_truthy (Cord._path c)) eqn:Hp; cbn [negb].
    - destruct Hunset as [Hx|Hq]; [discriminate|].
      unfold ret at 1. cbv beta iota. rewrite (get_cord_run _ _ _ Hb).
      field_simpl_cord. rewrite Hq. cbn [negb].
      rewrite passthrough_path_setter_run. cbv zeta. fold path.
      rewrite Hrej. reflexivity.
    - rewrite path_setter_run. cbv zeta. fold path. rewrite Hrej. reflexivity. }
  split; [exact Hinvalid|]. split; [|split].
  - intros app Hg Hp Hq Happ Hfree.
    assert (Hok : path_rejected path = false)
      by (apply path_rejected_grammar; exact Hg).
    unfold __call__, bind. rewrite (update_cord_run _ _ _ _ Hc).
    fold (bound_world w self c func). rewrite (get_cord_run _ _ _ Hb).
    field_simpl_cord. unfold when. rewrite Hp. cbn [negb].
    rewrite path_setter_run. cbv zeta. fold path. rewrite Hok, Hb.
    field_simpl_cord.
    change (chute_objs (bound_world w self c func)) with (chute_objs w).
    rewrite Happ, Hfree.
    match goal with
    | |- context [get_cord self ?w1] =>
        assert (Hb1 : cord_objs w1 !! self
                      = Some (Cord.with_path (Some path)
                                (Cord.with_func (Some func) c)))
          by (simpl; apply lookup_insert_eq);
        rewrite (get_cord_run _ _ _ Hb1)
    end.
    field_simpl_cord. rewrite Hq. cbn [negb].
    rewrite passthrough_path_setter_run. cbv zeta. fold path.
    rewrite Hok, Hb1.
    destruct (is_local E); eexists _, _, _; (split; [reflexivity|]);
      (split; [simpl; apply lookup_insert_eq|]); repeat split; reflexivity.
  - intros rest Hname. apply Hinvalid. unfold path. rewrite Hname.
    apply underscore_name_invalid.
  - intros Hup. apply Hinvalid. apply uppercase_name_invalid, Hup.
Qed.

(** An endpoint with no path set, bound to a function named [_private]. *)
Lemma bind_defaults_to_function_name_witness :
  snd (__call__ (demo_env no_answer no_answer) 1%nat
         {| __name__ := py "_private"; func_id := 0 |} demo_world)
  = inl (InvalidPath (py "/_private")).
Proof.
  pose proof (bind_defaults_to_function_name (demo_env no_answer no_answer)
                demo_world 1%nat (default_cord 0 None)
                {| __name__ := py "_private"; func_id := 0 |}
                ltac:(vm_compute; reflexivity) (or_introl eq_refl))
    as [H _].
  cbv zeta in H. rewrite (H eq_refl eq_refl). reflexivity.
Defined.

(** ** The event stream of the local stub *)

Lemma lstrip_space_snoc l c :
  Str.isspace c = false -> Str.lstrip_space (l ++ [c]) <> [].
Proof.
  intros Hc. induction l as [|x l IH]; simpl.
  - rewrite Hc. discriminate.
  - destruct (Str.isspace x); [exact IH | discriminate].
Qed.

Lemma strip_nonspace c rest :
  Str.isspace c = false -> str_truthy (Str.strip (c :: rest)) = true.
Proof.
  intros Hc. unfold Str.strip. simpl. rewrite Hc. simpl.
  pose proof (lstrip_space_snoc (rev rest) c Hc) as Hne.
  destruct (Str.lstrip_space (rev rest ++ [c])) as [|x l]; [contradiction|].
  unfold str_truthy. rewrite length_rev. reflexivity.
Qed.

Lemma frame_passes_filter text :
  let content := py "data: {" ++ text in
  negb (str_truthy content) || negb (str_truthy (Str.strip content))
  || negb (Str.contains (py "data: {") content) = false.
Proof.
  cbv zeta. change (py "data: {" ++ text)
    with ("d" :: "a" :: "t" :: "a" :: ":" :: " " :: "{" :: text)%char.
  rewrite strip_nonspace by reflexivity. reflexivity.
Qed.

Section StreamFacts.

Variable E : Env.

Lemma handle_frame_run self encoded text data w :
  bytes_decode E encoded = inr (py "data: {" ++ text) ->
  json_loads E ("{"%char :: text) = inr data ->
  handle_frame E self encoded w = dispatch_event E self data w.
Proof.
  intros Hd Hj. unfold handle_frame, gbind, glift, lift. rewrite Hd.
  rewrite frame_passes_filter.
  change (skipn 6 (py "data: {" ++ text)) with ("{"%char :: text).
  rewrite Hj.
  destruct (dispatch_event E self data w) as [[w' ys] r]. reflexivity.
Qed.

Lemma trace_message_ok fields :
  trace_ok fields ->
  trace_message E (event_json (Trace fields)) = inr (trace_text E fields).
Proof.
  intros (ts & message & Hts & Hm). unfold trace_message, trace_text.
  change (py_getitem (event_json (Trace fields)) (py "trace"))
    with (@inr exn pyval (VDict fields)).
  cbv beta iota. unfold py_getitem. rewrite Hts, Hm. reflexivity.
Qed.

Lemma dispatch_trace self fields w :
  trace_ok fields ->
  dispatch_event E self (event_json (Trace fields)) w
  = (add_log DEBUG (trace_text E fields) w, [], inr tt).
Proof.
  intros Hok. unfold dispatch_event, gbind, glift, lift.
  change (py_get (event_json (Trace fields)) (py "trace"))
    with (@inr exn pyval (VDict fields)).
  cbv beta iota.
  assert (Ht : truthy (VDict fields) = true).
  { destruct Hok as (ts & message & Hts & _).
    destruct fields; [discriminate Hts | reflexivity]. }
  rewrite Ht, (trace_message_ok fields Hok). reflexivity.
Qed.

Lemma dispatch_error self message w :
  truthy message = true ->
  dispatch_event E self (event_json (Error message)) w
  = (add_log ERROR (fmt E message) w, [], inl (PyException message)).
Proof.
  intros Ht. unfold dispatch_event, gbind, glift, lift. simpl.
  rewrite Ht. reflexivity.
Qed.

Lemma dispatch_result_falsy self value w :
  truthy value = false ->
  dispatch_event E self (event_json (Result value)) w = (w, [], inr tt).
Proof.
  intros Ht. unfold dispatch_event, gbind, glift, lift. simpl.
  rewrite Ht. reflexivity.
Qed.

Lemma dispatch_result_truthy self value w c :
  truthy value = true ->
  cord_objs w !! self = Some c ->
  Cord._passthrough c = false ->
  dispatch_event E self (event_json (Result value)) w = (w, [value], inr tt).
Proof.
  intros Ht Hc Hp. unfold dispatch_event, gbind, glift, lift. simpl.
  rewrite Ht. unfold get_cord. rewrite Hc, Hp. reflexivity.
Qed.

Lemma dispatch_result_passthrough self value w c f :
  truthy value = true ->
  cord_objs w !! self = Some c ->
  Cord._passthrough c = true ->
  Cord._func c = Some f ->
  dispatch_event E self (event_json (Result value)) w
  = match func_call E (func_id f) [value] []
            (add_func_call (func_id f, [value], []) w) with
    | (w', inr v) => (w', [v], inr tt)
    | (w', inl e) => (w', [], inl e)
    end.
Proof.
  intros Ht Hc Hp Hf. unfold dispatch_event, gbind, glift, lift. simpl.
  rewrite Ht. unfold get_cord. rewrite Hc, Hp. unfold func_of. rewrite Hf.
  unfold ret, bind, modify.
  destruct (func_call E (func_id f) [value] []
              (add_func_call (func_id f, [value], []) w)) as [w' [e|v]];
    reflexivity.
Qed.

End StreamFacts.

(** ** The POST and the retry decorator *)

Lemma backoff_loop_no_exception {A : Type} rounds exceptions interval max_time
    start (target : M A) w w' a :
  target w = (w', inr a) ->
  backoff_loop rounds exceptions interval max_time start target w = (w', inr a).
Proof. intros H. destruct rounds; simpl; rewrite H; reflexivity. Qed.

(** A target whose call does not raise is called once and never slept on. *)
Lemma backoff_on_exception_no_exception {A : Type} exceptions interval max_time
    (target : M A) w w' a :
  target w = (w', inr a) ->
  backoff_on_exception exceptions interval max_time target w = (w', inr a).
Proof. intros H. unfold backoff_on_exception. apply backoff_loop_no_exception, H. Qed.

Section LocalFacts.

Variable E : Env.

Lemma _call_run self args kwargs w c app f payload :
  cord_objs w !! self = Some c ->
  chute_objs w !! Cord._app c = Some app ->
  Cord._func c = Some f ->
  encode_envelope E args kwargs = inr payload ->
  _call E self args kwargs w =
  let w1 := add_api_call (post_of E c app f payload) w in
  match api E (length (api_calls w)) (post_of E c app f payload) with
  | inl e => (w1, inl e)
  | inr response =>
      if status response =? 503 then
        (add_log WARNING
           (py "Function " ++ __name__ f ++ py " is still provisioning...") w1,
         inl (StillProvisioning (text response)))
      else if negb (status response =? 200) then
        (add_log ERROR
           (py "Error invoking " ++ __name__ f ++ py " [status="
            ++ fmt E (VInt (status response)) ++ py "]: " ++ text response) w1,
         inl (PyException (VStr (text response))))
      else (w1, inr (response, ret tt))
  end.
Proof.
  intros Hc Happ Hf Hp.
  unfold _call, bind, lift. rewrite Hp.
  unfold get_cord, get_chute. rewrite Hc, Happ.
  unfold func_of. rewrite Hf. unfold ret at 1.
  unfold session_post, bind, get_world, modify, lift.
  fold (post_of E c app f payload). cbv zeta.
  change (api_calls (add_api_call (post_of E c app f payload) w))
    with (post_of E c app f payload :: api_calls w).
  destruct (api E (length (api_calls w)) (post_of E c app f payload))
    as [e|response]; [reflexivity|].
  destruct (status response =? 503); [reflexivity|].
  destruct (status response =? 200); reflexivity.
Qed.

Lemma _local_call_base_run self args kwargs w c f :
  cord_objs w !! self = Some c ->
  Cord._func c = Some f ->
  _local_call_base E self args kwargs w =
  let w0 :=
    add_log DEBUG
      (py "Invoking remote function " ++ __name__ f ++ py " via HTTP...") w in
  match _call E self args kwargs w0 with
  | (w1, inl e) => (w1, inl e)
  | (w1, inr entered) =>
      (w1, inr (fst entered, after_yield E self (clock w) (snd entered)))
  end.
Proof.
  intros Hc Hf. unfold _local_call_base.
  unfold bind at 1. unfold get_cord at 1. rewrite Hc.
  unfold bind at 1. unfold func_of at 1. rewrite Hf. unfold ret at 1.
  unfold bind at 1. unfold logger at 1, modify at 1.
  unfold bind at 1. unfold time_time at 1.
  unfold bind at 1.
  erewrite backoff_on_exception_no_exception by reflexivity.
  unfold bind at 1. cbv zeta.
  destruct (_call E self args kwargs _) as [w1 [e|entered]]; reflexivity.
Qed.

Lemma after_yield_run self started_at w c f :
  cord_objs w !! self = Some c ->
  Cord._func c = Some f ->
  after_yield E self started_at (ret tt) w
  = (add_logs [completed_line E c f (clock w - started_at)] w, inr tt).
Proof.
  intros Hc Hf. unfold after_yield, bind, ret, get_cord. rewrite Hc.
  unfold func_of. rewrite Hf. reflexivity.
Qed.

End LocalFacts.

(** ** The stream, event by event *)

Section DeliveryFacts.

Variable E : Env.

Lemma add_logs_cord_objs lines w : cord_objs (add_logs lines w) = cord_objs w.
Proof.
  revert w. induction lines as [|line lines IH]; intros w; simpl; [reflexivity|].
  unfold add_logs in IH. rewrite IH. reflexivity.
Qed.

Lemma add_logs_log lines w : log (add_logs lines w) = log w ++ lines.
Proof.
  revert w. induction lines as [|[l m] lines IH]; intros w; simpl.
  - rewrite app_nil_r. reflexivity.
  - unfold add_logs in IH. rewrite IH. simpl. rewrite <- app_assoc. reflexivity.
Qed.

Lemma add_logs_func_calls lines w :
  func_calls (add_logs lines w) = func_calls w.
Proof.
  revert w. induction lines as [|line lines IH]; intros w; simpl; [reflexivity|].
  unfold add_logs in IH. rewrite IH. reflexivity.
Qed.

Lemma handle_frame_event self encoded ev w :
  frame_of E encoded ev ->
  handle_frame E self encoded w = dispatch_event E self (event_json ev) w.
Proof. intros (text & Hd & Hj). eapply handle_frame_run; eauto. Qed.

Lemma handle_frame_skipped self encoded w :
  skipped_line E encoded -> handle_frame E self encoded w = (w, [], inr tt).
Proof.
  intros (content & Hd & Hskip).
  unfold handle_frame, gbind, glift, lift. rewrite Hd, Hskip. reflexivity.
Qed.

(** Without passthrough the loop over the items does what [delivery]
    says of their events. *)
Lemma async_for_delivery self c items evs :
  stream_of E items evs ->
  Forall event_ok evs ->
  Cord._passthrough c = false ->
  forall w,
    cord_objs w !! self = Some c ->
    async_for items (handle_frame E self) w
    = match delivery E evs with
      | (lines, values, r) => (add_logs lines w, values, r)
      end.
Proof.
  intros Hstream.
  induction Hstream as [|encoded ev items evs Hf Hrest IH
                        |encoded items evs Hskip Hrest IH];
    intros Hok Hp w Hc.
  - reflexivity.
  - inversion Hok as [|? ? Hev Hevs]; subst.
    specialize (IH Hevs Hp).
    cbn [async_for]. unfold gbind.
    rewrite (handle_frame_event self encoded ev w Hf).
    destruct ev as [fields|message|value]; cbn [delivery].
    + rewrite (dispatch_trace E self fields w Hev).
      rewrite (IH (add_log DEBUG (trace_text E fields) w) Hc).
      destruct (delivery E evs) as [[lines values] r]. reflexivity.
    + rewrite (dispatch_error E self message w Hev). reflexivity.
    + destruct (truthy value) eqn:Ht.
      * rewrite (dispatch_result_truthy E self value w c Ht Hc Hp).
        rewrite (IH w Hc).
        destruct (delivery E evs) as [[lines values] r]. reflexivity.
      * rewrite (dispatch_result_falsy E self value w Ht).
        rewrite (IH w Hc).
        destruct (delivery E evs) as [[lines values] r]. reflexivity.
  - cbn [async_for]. unfold gbind.
    rewrite (handle_frame_skipped self encoded w Hskip).
    rewrite (IH Hok Hp w Hc).
    destruct (delivery E evs) as [[lines values] r]. reflexivity.
Qed.

(** The streaming stub once the platform has answered 200. *)
Lemma _local_stream_call_run self args kwargs w c app f payload response :
  cord_objs w !! self = Some c ->
  chute_objs w !! Cord._app c = Some app ->
  Cord._func c = Some f ->
  encode_envelope E args kwargs = inr payload ->
  api E (length (api_calls w)) (post_of E c app f payload) = inr response ->
  status response = 200 ->
  _local_stream_call E self args kwargs w
  = match async_for (content response) (handle_frame E self)
            (posted E w c app f payload) with
    | (w2, values, inl e) => (w2, values, inl e)
    | (w2, values, inr _) =>
        match after_yield E self (clock w) (ret tt) w2 with
        | (w3, inl e) => (w3, values, inl e)
        | (w3, inr _) => (w3, values, inr tt)
        end
    end.
Proof.
  intros Hc Happ Hf Hp Hapi Hst.
  unfold _local_stream_call, async_with_g, gbind, glift.
  rewrite (_local_call_base_run E self args kwargs w c f Hc Hf). cbv zeta.
  erewrite (_call_run E self args kwargs _ c app f payload);
    [|exact Hc|exact Happ|exact Hf|exact Hp].
  cbv zeta.
  change (api_calls (add_log DEBUG _ w)) with (api_calls w).
  rewrite Hapi, Hst. cbn [Z.eqb Pos.eqb negb fst snd].
  fold (posted E w c app f payload).
  destruct (async_for (content response) (handle_frame E self)
              (posted E w c app f payload)) as [[w2 values] [e|[]]].
  - rewrite app_nil_l. reflexivity.
  - destruct (after_yield E self (clock w) (ret tt) w2) as [w3 [e|[]]];
      cbn [gret List.app]; rewrite ?app_nil_r; reflexivity.
Qed.

End DeliveryFacts.

(** ** C3: the provisioning retry *)

(** C3 (what the code does when the platform answers 503). The stub logs
    a warning and raises StillProvisioning with the body of the response
    right away: one POST has been made, the clock has not moved, whatever
    [provision_timeout] is and whatever the platform would answer next.
    [backoff.on_exception] wraps the function that [asynccontextmanager]
    returns; that function only builds the manager, so no exception ever
    reaches the retry loop: the POST happens later, when [async with]
    enters the manager. *)
Theorem still_provisioning_is_not_retried
    (E : Env) (w : World) (self : nat) (args : list pyval)
    (kwargs : list (str * pyval)) (c : Cord.t) (app : Chute) (f : pyfunc)
    (payload : pyval) (response : Response) :
  cord_objs w !! self = Some c ->
  chute_objs w !! Cord._app c = Some app ->
  Cord._func c = Some f ->
  encode_envelope E args kwargs = inr payload ->
  api E (length (api_calls w)) (post_of E c app f payload) = inr response ->
  status response = 503 ->
  let w' :=
    add_log WARNING
      (py "Function " ++ __name__ f ++ py " is still provisioning...")
      (posted E w c app f payload) in
  _local_call_base E self args kwargs w
  = (w', inl (StillProvisioning (text response)))
  /\ _local_stream_call E self args kwargs w
     = (w', [], inl (StillProvisioning (text response)))
  /\ _local_call E self args kwargs w
     = (w', inl (StillProvisioning (text response)))
  /\ length (api_calls w') = S (length (api_calls w))
  /\ clock w' = clock w.
Proof.
  intros Hc Happ Hf Hp Hapi Hst w'.
  assert (Hbase : _local_call_base E self args kwargs w
                  = (w', inl (StillProvisioning (text response)))).
  { rewrite (_local_call_base_run E self args kwargs w c f Hc Hf). cbv zeta.
    erewrite (_call_run E self args kwargs _ c app f payload);
      [|exact Hc|exact Happ|exact Hf|exact Hp].
    cbv zeta. change (api_calls (add_log DEBUG _ w)) with (api_calls w).
    rewrite Hapi, Hst. reflexivity. }
  assert (Hstream : _local_stream_call E self args kwargs w
                    = (w', [], inl (StillProvisioning (text response)))).
  { unfold _local_stream_call, async_with_g, gbind, glift.
    rewrite Hbase. reflexivity. }
  split; [exact Hbase|]. split; [exact Hstream|].
  split; [unfold _local_call; rewrite Hstream; reflexivity|].
  split; reflexivity.
Qed.

(** The platform is provisioning at the first POST only and the timeout
    is 180 seconds: the call still fails at once. *)
Lemma still_provisioning_is_not_retried_witness :
  snd (_local_call (demo_env provisioning_platform no_answer) 0%nat
         [VInt 41] [] stub_world)
  = inl (StillProvisioning (py "still provisioning"))
  /\ Cord._provision_timeout stub_cord = 180.
Proof.
  split; [|reflexivity].
  destruct (still_provisioning_is_not_retried
              (demo_env provisioning_platform no_answer) stub_world 0%nat
              [VInt 41] [] stub_cord
              {| uid := py "svc-a"; cords := [0%nat] |} demo_func
              (VDict [(py "args", VStr (py "H4uABJUFAAAAAAAAAEsphZQu"));
                      (py "kwargs", VStr (py "H4uABH2ULg=="))])
              {| status := 503; text := py "still provisioning"; content := [];
                 json_body := inl (LibraryError (py "ContentTypeError")) |}
              ltac:(vm_compute; reflexivity) ltac:(vm_compute; reflexivity)
              eq_refl ltac:(vm_compute; reflexivity)
              ltac:(vm_compute; reflexivity) eq_refl)
    as (_ & _ & H & _).
  rewrite H. reflexivity.
Defined.

(** ** C4: delivery order of the streaming stub *)

(** C4 as stated fails: with the frames trace, result(0), trace,
    result("b"), error("boom") the stub yields only ["b"] before it raises;
    the result 0 is not yielded. *)
Lemma stream_drops_result_zero :
  let run :=
    _local_stream_call (demo_env (streaming_platform frames_with_zero) no_answer)
      0%nat [VInt 41] [] stub_world in
  snd (fst run) = [VStr (py "b")]
  /\ snd (fst run) <> [VInt 0; VStr (py "b")]
  /\ snd run = inl (PyException (VStr (py "boom"))).
Proof.
  vm_compute. split; [reflexivity|]. split; [discriminate|reflexivity].
Qed.

(** C4 (amended). On an endpoint without passthrough, when the platform
    answers 200 with the frames trace, result(A), trace, result(B),
    error(E), where A, B and E are truthy and each trace has a text
    timestamp and a message, the streaming stub yields A, then B, then
    raises Exception(E); it logs both trace lines and the error, and yields
    neither trace. *)
Theorem stream_delivery_order
    (E : Env) (w : World) (self : nat) (args : list pyval)
    (kwargs : list (str * pyval)) (c : Cord.t) (app : Chute) (f : pyfunc)
    (payload : pyval) (response : Response)
    (t1 t2 : list (str * pyval)) (A B Emsg : pyval) :
  cord_objs w !! self = Some c ->
  chute_objs w !! Cord._app c = Some app ->
  Cord._func c = Some f ->
  Cord._passthrough c = false ->
  encode_envelope E args kwargs = inr payload ->
  api E (length (api_calls w)) (post_of E c app f payload) = inr response ->
  status response = 200 ->
  stream_of E (content response)
    [Trace t1; Result A; Trace t2; Result B; Error Emsg] ->
  trace_ok t1 -> trace_ok t2 ->
  truthy A = true -> truthy B = true -> truthy Emsg = true ->
  _local_stream_call E self args kwargs w
  = (add_logs [(DEBUG, trace_text E t1); (DEBUG, trace_text E t2);
               (ERROR, fmt E Emsg)]
       (posted E w c app f payload),
     [A; B], inl (PyException Emsg)).
Proof.
  intros Hc Happ Hf Hp Hpay Hapi Hst Hstream Ht1 Ht2 HA HB HE.
  rewrite (_local_stream_call_run E self args kwargs w c app f payload response
             Hc Happ Hf Hpay Hapi Hst).
  rewrite (async_for_delivery E self c (content response)
             [Trace t1; Result A; Trace t2; Result B; Error Emsg] Hstream);
    [|repeat constructor; assumption|exact Hp|exact Hc].
  cbn [delivery]. rewrite HA, HB. reflexivity.
Qed.

Lemma demo_frame_of platform sidecar document ev :
  demo_json_loads document = inr (event_json ev) ->
  (exists text, document = "{"%char :: text) ->
  frame_of (demo_env platform sidecar) (frame document) ev.
Proof.
  intros Hj (text & ->). exists text. split; [reflexivity|exact Hj].
Qed.

Lemma demo_trace_ok message : trace_ok (demo_trace message).
Proof. exists (py "2024-01-01T00:00:00"), (VStr message). split; reflexivity. Qed.

Ltac demo_frame :=
  apply demo_frame_of; [vm_compute; reflexivity | eexists; reflexivity].

Ltac demo_frames :=
  cbn [content ok_response];
  repeat (first [apply stream_end | apply stream_frame; [demo_frame|]]).

Ltac demo_events_ok :=
  repeat (first [apply List.Forall_nil
                | apply List.Forall_cons;
                  [cbn [event_ok];
                   first [apply demo_trace_ok | exact I | reflexivity]|]]).

(** trace, result("a"), trace, result("b"), error("boom"). *)
Lemma stream_delivery_order_witness :
  let run :=
    _local_stream_call (demo_env (streaming_platform frames_a_b) no_answer)
      0%nat [VInt 41] [] stub_world in
  snd (fst run) = [VStr (py "a"); VStr (py "b")]
  /\ snd run = inl (PyException (VStr (py "boom"))).
Proof.
  cbv zeta.
  rewrite (stream_delivery_order
             (demo_env (streaming_platform frames_a_b) no_answer) stub_world
             0%nat [VInt 41] [] stub_cord
             {| uid := py "svc-a"; cords := [0%nat] |} demo_func
             (VDict [(py "args", VStr (py "H4uABJUFAAAAAAAAAEsphZQu"));
                     (py "kwargs", VStr (py "H4uABH2ULg=="))])
             (ok_response frames_a_b)
             (demo_trace (py "loading")) (demo_trace (py "running"))
             (VStr (py "a")) (VStr (py "b")) (VStr (py "boom"))
             ltac:(vm_compute; reflexivity) ltac:(vm_compute; reflexivity)
             eq_refl eq_refl ltac:(vm_compute; reflexivity)
             eq_refl eq_refl ltac:(demo_frames)
             (demo_trace_ok _) (demo_trace_ok _) eq_refl eq_refl eq_refl).
  split; reflexivity.
Defined.

(** ** C5: the unary stub *)

Lemma last_cons_default (y : pyval) (l : list pyval) (a b : pyval) :
  List.last (y :: l) a = List.last (y :: l) b.
Proof.
  revert y. induction l as [|z l IH]; intros y; [reflexivity|].
  change (List.last (z :: l) a = List.last (z :: l) b). apply IH.
Qed.

Lemma fold_left_last (items : list pyval) (d : pyval) :
  fold_left (fun _ item => item) items d = List.last items d.
Proof.
  revert d. induction items as [|x items IH]; intros d; [reflexivity|].
  cbn [fold_left]. rewrite IH.
  destruct items as [|y items]; [reflexivity|].
  change (List.last (x :: y :: items) d) with (List.last (y :: items) d).
  apply last_cons_default.
Qed.

Section UnaryFacts.

Variable E : Env.

(** Without an Error event, [delivery] logs the traces, keeps the truthy
    results and ends normally. *)
Lemma delivery_no_error evs :
  existsb is_error evs = false ->
  delivery E evs
  = (trace_lines E evs, List.filter truthy (result_values evs), inr tt).
Proof.
  induction evs as [|ev evs IH]; intros Hne; [reflexivity|].
  destruct ev as [fields|message|value]; simpl in Hne; [|discriminate|].
  - cbn [delivery]. rewrite (IH Hne). reflexivity.
  - cbn [delivery]. rewrite (IH Hne). cbn [result_values flat_map List.app].
    cbn [List.filter]. destruct (truthy value); reflexivity.
Qed.

(** Up to the first Error event likewise; then the error is logged and
    raised, and nothing behind it is looked at. *)
Lemma delivery_error pre message post :
  existsb is_error pre = false ->
  delivery E (pre ++ Error message :: post)
  = (trace_lines E pre ++ [(ERROR, fmt E message)],
     List.filter truthy (result_values pre), inl (PyException message)).
Proof.
  induction pre as [|ev pre IH]; intros Hne; [reflexivity|].
  destruct ev as [fields|m|value]; simpl in Hne; [|discriminate|].
  - cbn [List.app delivery]. rewrite (IH Hne). reflexivity.
  - cbn [List.app delivery]. rewrite (IH Hne).
    cbn [result_values flat_map List.app List.filter].
    destruct (truthy value); reflexivity.
Qed.

End UnaryFacts.

(** C5 as stated fails: the platform streams result("a") and then
    result(0); the last Result event carries 0 and the call returns "a". *)
Lemma unary_call_skips_last_falsy_result :
  snd (_local_call
         (demo_env
            (streaming_platform
               [frame_result (json_string (py "a")); frame_result (py "0")])
            no_answer)
         0%nat [VInt 41] [] stub_world)
  = inr (VStr (py "a"))
  /\ VStr (py "a") <> VInt 0.
Proof. split; [vm_compute; reflexivity | discriminate]. Qed.

(** C5 (amended). On an endpoint without passthrough, when the platform
    answers 200 with the frames of a sequence of events (each Error with a
    truthy message, each Trace with a text timestamp and a message): if the
    sequence has no Error event, the unary call returns the value of the
    last Result event whose value is truthy, or None when there is none,
    having logged every trace and the completion line; if it has one, the
    call raises Exception with the message of the first Error event, having
    logged the traces before it. A trace is never returned. *)
Theorem unary_call_returns_last_truthy_result
    (E : Env) (w : World) (self : nat) (args : list pyval)
    (kwargs : list (str * pyval)) (c : Cord.t) (app : Chute) (f : pyfunc)
    (payload : pyval) (response : Response) (evs : list StreamEvent) :
  cord_objs w !! self = Some c ->
  chute_objs w !! Cord._app c = Some app ->
  Cord._func c = Some f ->
  Cord._passthrough c = false ->
  encode_envelope E args kwargs = inr payload ->
  api E (length (api_calls w)) (post_of E c app f payload) = inr response ->
  status response = 200 ->
  stream_of E (content response) evs ->
  Forall event_ok evs ->
  (existsb is_error evs = false ->
   _local_call E self args kwargs w
   = (add_logs (trace_lines E evs ++ [completed_line E c f 0])
        (posted E w c app f payload),
      inr (List.last (List.filter truthy (result_values evs)) VNone)))
  /\ (forall pre message post,
        evs = pre ++ Error message :: post ->
        existsb is_error pre = false ->
        _local_call E self args kwargs w
        = (add_logs (trace_lines E pre ++ [(ERROR, fmt E message)])
             (posted E w c app f payload),
           inl (PyException message))).
Proof.
  intros Hc Happ Hf Hp Hpay Hapi Hst Hframes Hok.
  assert (Hrun : _local_stream_call E self args kwargs w
                 = match delivery E evs with
                   | (lines, values, inl e) =>
                       (add_logs lines (posted E w c app f payload), values, inl e)
                   | (lines, values, inr _) =>
                       (add_logs (lines ++ [completed_line E c f 0])
                          (posted E w c app f payload), values, inr tt)
                   end).
  { rewrite (_local_stream_call_run E self args kwargs w c app f payload
               response Hc Happ Hf Hpay Hapi Hst).
    rewrite (async_for_delivery E self c (content response) evs Hframes Hok Hp
               (posted E w c app f payload) Hc).
    destruct (delivery E evs) as [[lines values] [e|[]]]; [reflexivity|].
    assert (Hc' : cord_objs (add_logs lines (posted E w c app f payload)) !! self
                  = Some c)
      by (rewrite add_logs_cord_objs; exact Hc).
    rewrite (after_yield_run E self (clock w) _ c f Hc' Hf).
    assert (Hclock : forall ls w0, clock (add_logs ls w0) = clock w0).
    { induction ls as [|l ls IH]; intros w0; [reflexivity|].
      simpl. unfold add_logs in IH. rewrite IH. reflexivity. }
    rewrite Hclock. change (clock (posted E w c app f payload)) with (clock w).
    rewrite Z.sub_diag. unfold add_logs. rewrite fold_left_app. reflexivity. }
  split.
  - intros Hne. unfold _local_call. rewrite Hrun.
    rewrite (delivery_no_error E evs Hne), fold_left_last. reflexivity.
  - intros pre message post -> Hne. unfold _local_call. rewrite Hrun.
    rewrite (delivery_error E pre message post Hne). reflexivity.
Qed.

(** The platform streams a trace and the results "a" and "b": the call
    returns "b". *)
Lemma unary_call_returns_last_truthy_result_witness :
  snd (_local_call
         (demo_env
            (streaming_platform
               [frame_trace (py "loading"); frame_result (json_string (py "a"));
                frame_result (json_string (py "b"))])
            no_answer)
         0%nat [VInt 41] [] stub_world)
  = inr (VStr (py "b")).
Proof.
  pose proof (unary_call_returns_last_truthy_result
              (demo_env
                 (streaming_platform
                    [frame_trace (py "loading");
                     frame_result (json_string (py "a"));
                     frame_result (json_string (py "b"))])
                 no_answer)
              stub_world 0%nat [VInt 41] [] stub_cord
              {| uid := py "svc-a"; cords := [0%nat] |} demo_func
              (VDict [(py "args", VStr (py "H4uABJUFAAAAAAAAAEsphZQu"));
                      (py "kwargs", VStr (py "H4uABH2ULg=="))])
              (ok_response
                 [frame_trace (py "loading");
                  frame_result (json_string (py "a"));
                  frame_result (json_string (py "b"))])
              [Trace (demo_trace (py "loading")); Result (VStr (py "a"));
               Result (VStr (py "b"))]
              ltac:(vm_compute; reflexivity) ltac:(vm_compute; reflexivity)
              eq_refl eq_refl ltac:(vm_compute; reflexivity) eq_refl eq_refl
              ltac:(demo_frames) ltac:(demo_events_ok))
    as [H _].
  rewrite (H eq_refl). reflexivity.
Defined.

(** ** C9: falsy results *)

(** C9. A frame whose event is Result(value): when [value] is falsy the
    streaming stub leaves the world as it is (nothing logged, the wrapped
    function not called) and yields nothing; when [value] is truthy it
    yields [value] on an endpoint without passthrough, and on an endpoint
    with passthrough it calls the wrapped function on [value] and yields
    what the function returns. 0, the empty string, the empty list, False
    and None are falsy. *)
Theorem falsy_results_are_dropped
    (E : Env) (w : World) (self : nat) (c : Cord.t) (encoded : bytes)
    (value : pyval) :
  frame_of E encoded (Result value) ->
  cord_objs w !! self = Some c ->
  (truthy value = false -> handle_frame E self encoded w = (w, [], inr tt))
  /\ (truthy value = true -> Cord._passthrough c = false ->
      handle_frame E self encoded w = (w, [value], inr tt))
  /\ (forall f,
        truthy value = true -> Cord._passthrough c = true ->
        Cord._func c = Some f ->
        handle_frame E self encoded w
        = match func_call E (func_id f) [value] []
                  (add_func_call (func_id f, [value], []) w) with
          | (w', inr v) => (w', [v], inr tt)
          | (w', inl e) => (w', [], inl e)
          end)
  /\ truthy (VInt 0) = false /\ truthy (VStr []) = false
  /\ truthy (VList []) = false /\ truthy (VBool false) = false
  /\ truthy VNone = false.
Proof.
  intros Hframe Hc.
  rewrite (handle_frame_event E self encoded (Result value) w Hframe).
  split; [|split; [|split]].
  - apply dispatch_result_falsy.
  - intros Ht Hp. eapply dispatch_result_truthy; eauto.
  - intros f Ht Hp Hf. eapply dispatch_result_passthrough; eauto.
  - repeat split; reflexivity.
Qed.

(** The frame of result(0) is dropped; the frame of result("a") is
    delivered. *)
Lemma falsy_results_are_dropped_witness :
  handle_frame (demo_env no_answer no_answer) 0%nat (frame_result (py "0"))
    stub_world
  = (stub_world, [], inr tt).
Proof.
  apply (falsy_results_are_dropped (demo_env no_answer no_answer) stub_world
           0%nat stub_cord (frame_result (py "0")) (VInt 0)
           ltac:(demo_frame) ltac:(vm_compute; reflexivity)).
  reflexivity.
Defined.

(** ** C8: the passthrough relay *)

Section RelayFacts.

Variable E : Env.





End RelayFacts.








(** ** C2: hostile payloads *)

(** C2 (what the code does with a payload that fickling rejects). The
    handler catches UnsafeFileError, logs the reason at error level, and
    then reads [status.HTTP_401_FORBIDDEN]. [fastapi.status] has no such
    name (401 is [HTTP_401_UNAUTHORIZED], FORBIDDEN is 403), so the handler
    ends with AttributeError, not with HTTPException(401, detail); neither
    the wrapped function nor the sidecar is called. *)
Theorem hostile_payload_raises_attribute_error
    (E : Env) (w : World) (self : nat) (c : Cord.t) (request : Request)
    (doc : pyval) (reason : str) :
  cord_objs w !! self = Some c ->
  request_json request = inr doc ->
  decode_envelope E doc = inl (UnsafeFileError reason) ->
  status_attr "HTTP_401_FORBIDDEN" = inl (AttributeError (py "HTTP_401_FORBIDDEN"))
  /\ status_attr "HTTP_401_UNAUTHORIZED" = inr 401
  /\ status_attr "HTTP_403_FORBIDDEN" = inr 403
  /\ exists w',
       _request_handler E self request w
       = (w', inl (AttributeError (py "HTTP_401_FORBIDDEN")))
       /\ log w' = log w ++ [(ERROR, hazard_message reason)]
       /\ func_calls w' = func_calls w
       /\ sidecar_calls w' = sidecar_calls w.
Proof.
  intros Hc Hjson Hdec.
  split; [reflexivity|]. split; [reflexivity|]. split; [reflexivity|].
  unfold _request_handler. unfold bind at 1. unfold get_cord at 1. rewrite Hc.
  unfold bind at 1. unfold when.
  destruct (bool_decide (Cord._passthrough_port c = None)).
  - rewrite (update_cord_run _ _ _ _ Hc).
    unfold bind at 1. unfold lift at 1. rewrite Hjson.
    unfold bind at 1. unfold try_except, lift at 1. rewrite Hdec.
    cbn [is_UnsafeFileError exc_str].
    eexists. split; [reflexivity|]. repeat split; reflexivity.
  - unfold ret at 1.
    unfold bind at 1. unfold lift at 1. rewrite Hjson.
    unfold bind at 1. unfold try_except, lift at 1. rewrite Hdec.
    cbn [is_UnsafeFileError exc_str].
    eexists. split; [reflexivity|]. repeat split; reflexivity.
Qed.

(** A request whose [args] are the pickle of a call to [os.system]. *)
Lemma hostile_payload_raises_attribute_error_witness :
  snd (_request_handler (demo_env no_answer no_answer) 0%nat hostile_request
         stub_world)
  = inl (AttributeError (py "HTTP_401_FORBIDDEN")).
Proof.
  pose proof (hostile_payload_raises_attribute_error
                (demo_env no_answer no_answer) stub_world 0%nat stub_cord
                hostile_request _ (py "unsafe import of os.system")
                ltac:(vm_compute; reflexivity) eq_refl
                ltac:(vm_compute; reflexivity))
    as (_ & _ & _ & w' & H & _).
  rewrite H. reflexivity.
Defined.

(** ** C1: the envelope round trip *)

Module Base64Facts.
Import Base64.

Lemma sextet_of_char_of s : sextet_of (char_of s) = Some s.
Proof.
  destruct s as [[[[[a b] c] d] e] f].
  destruct a, b, c, d, e, f; reflexivity.
Qed.

Lemma char_of_not_pad s : Str.eqb (char_of s) "=" = false.
Proof.
  destruct s as [[[[[a b] c] d] e] f].
  destruct a, b, c, d, e, f; reflexivity.
Qed.

Lemma decode_group x y z rest tail :
  decode rest = inr tail ->
  decode (enc3 x y z ++ rest) = inr (x :: y :: z :: tail).
Proof.
  intros Hrest.
  destruct x as [x0 x1 x2 x3 x4 x5 x6 x7], y as [y0 y1 y2 y3 y4 y5 y6 y7],
           z as [z0 z1 z2 z3 z4 z5 z6 z7].
  unfold enc3. cbn [List.app decode].
  rewrite !sextet_of_char_of, char_of_not_pad, Hrest. reflexivity.
Qed.

Lemma decode_one x : decode (encode [x]) = inr [x].
Proof.
  destruct x as [x0 x1 x2 x3 x4 x5 x6 x7].
  cbn [encode enc3 firstn List.app Ascii.zero].
  change (py "==") with ["="%char; "="%char].
  cbn [List.app decode]. rewrite !sextet_of_char_of. reflexivity.
Qed.

Lemma decode_two x y : decode (encode [x; y]) = inr [x; y].
Proof.
  destruct x as [x0 x1 x2 x3 x4 x5 x6 x7], y as [y0 y1 y2 y3 y4 y5 y6 y7].
  cbn [encode enc3 firstn List.app Ascii.zero].
  change (py "=") with ["="%char].
  cbn [List.app decode].
  rewrite !sextet_of_char_of, char_of_not_pad. reflexivity.
Qed.

(** Induction three bytes at a time. *)
Lemma triples_ind (P : list ascii -> Prop) :
  P [] -> (forall x, P [x]) -> (forall x y, P [x; y]) ->
  (forall x y z rest, P rest -> P (x :: y :: z :: rest)) ->
  forall b, P b.
Proof.
  intros H0 H1 H2 H3 b.
  assert (H : P b /\ (forall x, P (x :: b)) /\ (forall x y, P (x :: y :: b))).
  { induction b as [|z b (IHa & IHb & IHc)].
    - auto.
    - split; [apply IHb|]. split; [intros x; apply IHc|].
      intros x y. apply H3. exact IHa. }
  apply H.
Qed.

Theorem decode_encode b : decode (encode b) = inr b.
Proof.
  induction b as [|x|x y|x y z rest IH] using triples_ind.
  - reflexivity.
  - apply decode_one.
  - apply decode_two.
  - change (encode (x :: y :: z :: rest)) with (enc3 x y z ++ encode rest).
    apply decode_group. exact IH.
Qed.

End Base64Facts.

Lemma demo_gzip_round_trip b : demo_gzip_decompress (demo_gzip_compress b) = inr b.
Proof. reflexivity. Qed.

(** C1. If the Base64 codec and the gzip codec invert each other, and the
    tuple of positional arguments and the dict of keyword arguments each
    come back from the checked unpickler as they went into the pickler,
    then the envelope the local stub builds decodes, on the handler's
    side, to that tuple and that dict, which unpack to the original
    arguments. *)
Theorem envelope_round_trip
    (E : Env) (args : list pyval) (kwargs : list (str * pyval)) :
  (forall b, exists s,
      bytes_decode E (b64encode E b) = inr s /\ b64decode E s = inr b) ->
  (forall b, gzip_decompress E (gzip_compress E b) = inr b) ->
  fickling_load E (pickle_dumps E (VTuple args)) = inr (VTuple args) ->
  fickling_load E (pickle_dumps E (VDict kwargs)) = inr (VDict kwargs) ->
  exists payload,
    encode_envelope E args kwargs = inr payload
    /\ decode_envelope E payload = inr (VTuple args, VDict kwargs)
    /\ star (VTuple args) = inr args
    /\ starstar (VDict kwargs) = inr kwargs.
Proof.
  intros Hb64 Hgzip Hargs Hkwargs.
  destruct (Hb64 (gzip_compress E (pickle_dumps E (VTuple args))))
    as (a & Ha1 & Ha2).
  destruct (Hb64 (gzip_compress E (pickle_dumps E (VDict kwargs))))
    as (k & Hk1 & Hk2).
  exists (VDict [(py "args", VStr a); (py "kwargs", VStr k)]).
  split; [|split; [|split; reflexivity]].
  - unfold encode_envelope, encode_value. rewrite Ha1, Hk1. reflexivity.
  - unfold decode_envelope, decode_value.
    change (py_getitem (VDict [(py "args", VStr a); (py "kwargs", VStr k)])
              (py "args")) with (@inr exn pyval (VStr a)).
    change (py_getitem (VDict [(py "args", VStr a); (py "kwargs", VStr k)])
              (py "kwargs")) with (@inr exn pyval (VStr k)).
    cbv beta iota. rewrite Ha2, Hk2, !Hgzip, Hargs, Hkwargs. reflexivity.
Qed.

(** The call [f(41, k="v")], with the pickles Python makes of [(41,)] and
    [{"k": "v"}]. *)
Lemma envelope_round_trip_witness :
  exists payload,
    encode_envelope (demo_env no_answer no_answer) [VInt 41]
      [(py "k", VStr (py "v"))] = inr payload
    /\ decode_envelope (demo_env no_answer no_answer) payload
       = inr (VTuple [VInt 41], VDict [(py "k", VStr (py "v"))]).
Proof.
  destruct (envelope_round_trip (demo_env no_answer no_answer) [VInt 41]
              [(py "k", VStr (py "v"))]
              (fun b => ex_intro _ (Base64.encode b)
                          (conj eq_refl (Base64Facts.decode_encode b)))
              demo_gzip_round_trip
              ltac:(vm_compute; reflexivity) ltac:(vm_compute; reflexivity))
    as (payload & H1 & H2 & _).
  exists payload. split; assumption.
Defined.

(** * Further properties of the code *)

(** ** Normalization and the guard *)

Lemma lstrip_slashes i s :
  Str.lstrip (py "/") (slashes i ++ s) = Str.lstrip (py "/") s.
Proof. induction i as [|i IH]; [reflexivity|]. exact IH. Qed.

Lemma lstrip_no_slash s :
  starts_with_slash s = false -> Str.lstrip (py "/") s = s.
Proof.
  destruct s as [|c s]; [reflexivity|]. simpl. intros Hc.
  change (py "/") with ["/"%char]. unfold Str.mem. simpl.
  rewrite Hc. reflexivity.
Qed.

Lemma rstrip_slashes s j :
  Str.rstrip (py "/") (s ++ slashes j) = Str.rstrip (py "/") s.
Proof.
  unfold Str.rstrip. rewrite rev_app_distr, rev_slashes, lstrip_slashes.
  reflexivity.
Qed.

Lemma rstrip_no_slash s :
  ends_with_slash s = false -> Str.rstrip (py "/") s = s.
Proof.
  unfold ends_with_slash, Str.rstrip. intros H.
  rewrite (lstrip_no_slash _ H). apply rev_involutive.
Qed.

Lemma normalize_decomposed i j body :
  starts_with_slash body = false -> ends_with_slash body = false ->
  normalize (slashes i ++ body ++ slashes j) = "/"%char :: body.
Proof.
  intros Hs He. unfold normalize. rewrite lstrip_slashes. f_equal.
  destruct body as [|c body].
  - simpl. rewrite <- (app_nil_r (slashes j)), lstrip_slashes. reflexivity.
  - rewrite lstrip_no_slash by exact Hs.
    rewrite rstrip_slashes. apply rstrip_no_slash, He.
Qed.

Lemma slashes_app i j : slashes i ++ slashes j = slashes (i + j).
Proof. unfold slashes. symmetry. apply repeat_app. Qed.

(** X1. Normalizing is idempotent, and it does not see slashes added in
    front of or behind a candidate. *)
Theorem normalize_idempotent (candidate : str) (i j : nat) :
  normalize (normalize candidate) = normalize candidate
  /\ normalize (slashes i ++ candidate ++ slashes j) = normalize candidate.
Proof.
  destruct (normalize_spec candidate) as (a & b & body & Hc & Hn & Hs & He).
  split.
  - rewrite Hn.
    change ("/"%char :: body) with (slashes 1 ++ body).
    rewrite <- (app_nil_r body) at 1. change [] with (slashes 0).
    rewrite (normalize_decomposed 1 0 body Hs He). reflexivity.
  - rewrite Hn, Hc.
    rewrite <- !app_assoc, (app_assoc (slashes i)), slashes_app.
    rewrite slashes_app. apply normalize_decomposed; assumption.
Qed.

Lemma no_double_slash_snoc q c :
  Str.eqb c "/" = false ->
  Str.contains (py "//") q = false ->
  Str.contains (py "//") (q ++ [c]) = false.
Proof.
  intros Hc. induction q as [|x q IH]; intros Hq.
  - change ([] ++ [c]) with [c].
    rewrite contains_double_slash_cons, Hc. reflexivity.
  - rewrite contains_double_slash_cons in Hq.
    apply orb_false_iff in Hq as [Hhead Htail].
    change ((x :: q) ++ [c]) with (x :: (q ++ [c])).
    rewrite contains_double_slash_cons, (IH Htail), orb_false_r.
    destruct q as [|y q]; simpl.
    + rewrite Hc. apply andb_false_r.
    + exact Hhead.
Qed.

Lemma rev_cons_snoc (p : list ascii) c q :
  rev p = c :: q -> p = rev q ++ [c].
Proof.
  intros H. rewrite <- (rev_involutive p), H. reflexivity.
Qed.

Lemma PATH_RE_match_no_double_slash p :
  PATH_RE_match p = true -> Str.contains (py "//") p = false.
Proof.
  rewrite PATH_RE_match_spec. intros H.
  apply orb_true_iff in H as [H|H].
  - apply path_grammar_no_double_slash, H.
  - destruct (rev p) as [|c q] eqn:Hr; [discriminate|].
    apply andb_true_iff in H as [Hc Hq].
    apply eqb_eq in Hc. subst c.
    rewrite (rev_cons_snoc _ _ _ Hr).
    apply no_double_slash_snoc; [reflexivity|].
    apply path_grammar_no_double_slash, Hq.
Qed.

(** X2. The guard of the setters rejects exactly the paths PATH_RE does
    not match: its test for a double slash never decides. The paths it
    lets through are those of the path grammar and those of the grammar
    followed by one line feed. *)
Theorem guard_is_PATH_RE (path : str) :
  path_rejected path = negb (PATH_RE_match path)
  /\ (path_rejected path = false <->
      path_grammar path = true
      \/ exists q, path = q ++ [LF] /\ path_grammar q = true).
Proof.
  assert (Hguard : path_rejected path = negb (PATH_RE_match path)).
  { unfold path_rejected. destruct (PATH_RE_match path) eqn:Hm.
    - rewrite (PATH_RE_match_no_double_slash _ Hm). reflexivity.
    - apply orb_true_r. }
  split; [exact Hguard|].
  rewrite Hguard, negb_false_iff, PATH_RE_match_spec, orb_true_iff.
  split; (intros [H|H]; [left; exact H|right]).
  - destruct (rev path) as [|c q] eqn:Hr; [discriminate|].
    apply andb_true_iff in H as [Hc Hq].
    apply eqb_eq in Hc. subst c.
    exists (rev q). split; [apply rev_cons_snoc, Hr | exact Hq].
  - destruct H as (q & -> & Hq).
    rewrite rev_app_distr. simpl. rewrite rev_involutive. exact Hq.
Qed.

(** ** The root path *)

(** X20. No endpoint can be put at the root: a candidate that is empty
    or made of slashes only normalizes to the single slash, which the
    guard rejects, so each of the three setters raises InvalidPath for it
    and stores nothing. *)
Theorem root_path_is_never_accepted (i : nat) (self : nat) (w : World) :
  normalize (slashes i) = py "/"
  /\ path_setter self (slashes i) w = (w, inl (InvalidPath (py "/")))
  /\ passthrough_path_setter self (slashes i) w
     = (w, inl (InvalidPath (py "/")))
  /\ public_api_path_setter self (slashes i) w
     = (w, inl (InvalidPath (py "/"))).
Proof.
  assert (Hn : normalize (slashes i) = py "/").
  { unfold normalize. rewrite <- (app_nil_r (slashes i)), lstrip_slashes.
    reflexivity. }
  split; [exact Hn|]. split; [|split].
  - rewrite path_setter_run. cbv zeta. rewrite Hn. reflexivity.
  - rewrite passthrough_path_setter_run. cbv zeta. rewrite Hn. reflexivity.
  - unfold public_api_path_setter.
    rewrite (setter_run Cord.with_public_api_path). cbv zeta. rewrite Hn.
    reflexivity.
Qed.

(** ** Invariants of the store *)

Section Keeps.

Variable I : World -> Prop.

Lemma keeps_ret {A : Type} (a : A) : keeps I (ret a).
Proof. intros w Hw. exact Hw. Qed.

Lemma keeps_raise {A : Type} (e : exn) : keeps I (@raise A e).
Proof. intros w Hw. exact Hw. Qed.

Lemma keeps_lift {A : Type} (r : result A) : keeps I (lift r).
Proof. intros w Hw. exact Hw. Qed.

Lemma keeps_bind {A B : Type} (m : M A) (k : A -> M B) :
  keeps I m -> (forall a, keeps I (k a)) -> keeps I (bind m k).
Proof.
  intros Hm Hk w Hw. unfold bind. specialize (Hm w Hw).
  destruct (m w) as [w' [e|a]]; [exact Hm|]. apply Hk. exact Hm.
Qed.

Lemma keeps_when (b : bool) (m : M unit) : keeps I m -> keeps I (when b m).
Proof. intros Hm. destruct b; [exact Hm | apply keeps_ret]. Qed.

Lemma keeps_get_cord self : keeps I (get_cord self).
Proof. intros w Hw. unfold get_cord. destruct (cord_objs w !! self); exact Hw. Qed.

Lemma keeps_get_chute a : keeps I (get_chute a).
Proof. intros w Hw. unfold get_chute. destruct (chute_objs w !! a); exact Hw. Qed.

Lemma keeps_get_world : keeps I get_world.
Proof. intros w Hw. exact Hw. Qed.

End Keeps.

Lemma paths_ok_insert w id c :
  paths_ok w ->
  accepted (Cord._path c) -> accepted (Cord._passthrough_path c) ->
  accepted (Cord._public_api_path c) ->
  paths_ok (set_cord_objs (<[id := c]> (cord_objs w)) w).
Proof.
  intros Hw H1 H2 H3 id' c' Hl. simpl in Hl.
  destruct (decide (id = id')) as [->|Hne].
  - rewrite lookup_insert_eq in Hl. injection Hl as <-. auto.
  - rewrite lookup_insert_ne in Hl by exact Hne. eapply Hw; eauto.
Qed.

Lemma keeps_paths_update self (f : Cord.t -> Cord.t) :
  (forall c,
      accepted (Cord._path c) /\ accepted (Cord._passthrough_path c)
      /\ accepted (Cord._public_api_path c) ->
      accepted (Cord._path (f c)) /\ accepted (Cord._passthrough_path (f c))
      /\ accepted (Cord._public_api_path (f c))) ->
  keeps paths_ok (update_cord self f).
Proof.
  intros Hf w Hw. unfold update_cord, bind, get_cord, modify.
  destruct (cord_objs w !! self) as [c|] eqn:Hc; [|exact Hw].
  destruct (Hf c (Hw self c Hc)) as (H1 & H2 & H3).
  apply paths_ok_insert; assumption.
Qed.

Lemma keeps_paths_path_setter self candidate :
  keeps paths_ok (path_setter self candidate).
Proof.
  unfold path_setter. cbv zeta.
  destruct (path_rejected (normalize candidate)) eqn:Hr; [apply keeps_raise|].
  apply keeps_bind; [apply keeps_get_cord|]. intros c.
  apply keeps_bind; [apply keeps_get_chute|]. intros app.
  apply keeps_bind; [apply keeps_get_world|]. intros w0.
  destruct (any_cord_has_path w0 app (normalize candidate)); [apply keeps_raise|].
  apply keeps_paths_update. intros c0 (H1 & H2 & H3). repeat split; assumption.
Qed.

Lemma keeps_paths_passthrough_path_setter self candidate :
  keeps paths_ok (passthrough_path_setter self candidate).
Proof.
  unfold passthrough_path_setter. cbv zeta.
  destruct (path_rejected (normalize candidate)) eqn:Hr; [apply keeps_raise|].
  apply keeps_paths_update. intros c0 (H1 & H2 & H3). repeat split; assumption.
Qed.

Lemma keeps_paths_public_api_path_setter self candidate :
  keeps paths_ok (public_api_path_setter self candidate).
Proof.
  unfold public_api_path_setter. cbv zeta.
  destruct (path_rejected (normalize candidate)) eqn:Hr; [apply keeps_raise|].
  apply keeps_paths_update. intros c0 (H1 & H2 & H3). repeat split; assumption.
Qed.

(** X3. Whatever the candidates and however each call ends, the three
    setters, the constructor and the binding leave every stored path
    attribute either unset or a path that the guard lets through: an
    endpoint never holds a path PATH_RE does not match. *)
Theorem stored_paths_stay_accepted
    (E : Env) (w : World) (self app : nat) (candidate : str)
    (stream passthrough : bool) (path passthrough_path public_api_path : option str)
    (public_api_method method : str) (provision_timeout : Z)
    (session_kwargs : list (str * pyval)) (func : pyfunc) :
  paths_ok w ->
  paths_ok (fst (path_setter self candidate w))
  /\ paths_ok (fst (passthrough_path_setter self candidate w))
  /\ paths_ok (fst (public_api_path_setter self candidate w))
  /\ paths_ok (fst (__init__ app stream path passthrough_path passthrough
                      public_api_path public_api_method method
                      provision_timeout session_kwargs w))
  /\ paths_ok (fst (__call__ E self func w)).
Proof.
  intros Hw. split; [apply keeps_paths_path_setter, Hw|].
  split; [apply keeps_paths_passthrough_path_setter, Hw|].
  split; [apply keeps_paths_public_api_path_setter, Hw|].
  split.
  - revert w Hw. unfold __init__.
    apply keeps_bind; [apply keeps_get_world|]. intros w0.
    apply keeps_bind.
    { intros w Hw. simpl. apply paths_ok_insert; simpl; auto. }
    intros _.
    apply keeps_bind; [apply keeps_when, keeps_paths_path_setter|]. intros _.
    apply keeps_bind; [apply keeps_when, keeps_paths_passthrough_path_setter|].
    intros _.
    apply keeps_bind; [apply keeps_when, keeps_paths_public_api_path_setter|].
    intros _. apply keeps_ret.
  - revert w Hw. unfold __call__.
    apply keeps_bind.
    { apply keeps_paths_update. intros c H. exact H. }
    intros _.
    apply keeps_bind; [apply keeps_get_cord|]. intros c.
    apply keeps_bind; [apply keeps_when, keeps_paths_path_setter|]. intros _.
    apply keeps_bind; [apply keeps_get_cord|]. intros c'.
    apply keeps_bind; [apply keeps_when, keeps_paths_passthrough_path_setter|].
    intros _. destruct (is_local E); apply keeps_ret.
Qed.

(** The demo world holds [/foo] and nothing else. *)
Lemma demo_world_paths_ok : paths_ok demo_world.
Proof.
  intros id c Hl. unfold demo_world in Hl. simpl in Hl.
  destruct (decide (id = 0%nat)) as [->|H0].
  { rewrite lookup_insert_eq in Hl. injection Hl as <-.
    repeat split; reflexivity. }
  rewrite lookup_insert_ne in Hl by congruence.
  destruct (decide (id = 1%nat)) as [->|H1].
  { rewrite lookup_insert_eq in Hl. injection Hl as <-.
    repeat split; reflexivity. }
  rewrite lookup_insert_ne in Hl by congruence.
  destruct (decide (id = 2%nat)) as [->|H2].
  { rewrite lookup_insert_eq in Hl. injection Hl as <-.
    repeat split; reflexivity. }
  rewrite lookup_insert_ne in Hl by congruence.
  rewrite lookup_empty in Hl. discriminate.
Qed.

(** Endpoint 1 of [demo_world] asks for a path the guard rejects, and for
    one it lets through. *)
Lemma stored_paths_stay_accepted_witness :
  paths_ok (fst (path_setter 1%nat (py "A//b") demo_world))
  /\ paths_ok (fst (path_setter 1%nat (py "/bar/") demo_world)).
Proof.
  split.
  - apply (stored_paths_stay_accepted (demo_env no_answer no_answer) demo_world
             1%nat 0%nat (py "A//b") false false None None None [] [] 180 []
             demo_func demo_world_paths_ok).
  - apply (stored_paths_stay_accepted (demo_env no_answer no_answer) demo_world
             1%nat 0%nat (py "/bar/") false false None None None [] [] 180 []
             demo_func demo_world_paths_ok).
Defined.

Lemma any_cord_has_path_false w app id c path :
  any_cord_has_path w app path = false ->
  In id (cords app) -> cord_objs w !! id = Some c ->
  Cord._path c <> Some path.
Proof.
  intros Hany Hin Hc Hp.
  rewrite (any_cord_has_path_intro w app id c path Hin Hc Hp) in Hany.
  discriminate.
Qed.

(** X4. In a store where every listed endpoint names its lister as owner,
    the primary-path setter keeps primary paths unique within each
    service, however it ends: after the call no two distinct endpoints of
    one service hold the same path. *)
Theorem path_setter_keeps_paths_unique
    (w : World) (self : nat) (candidate : str) :
  owners_ok w -> unique_paths w ->
  unique_paths (fst (path_setter self candidate w))
  /\ owners_ok (fst (path_setter self candidate w)).
Proof.
  intros Hown Huniq. rewrite path_setter_run. cbv zeta.
  destruct (path_rejected (normalize candidate)); [split; assumption|].
  destruct (cord_objs w !! self) as [c|] eqn:Hc; [|split; assumption].
  destruct (chute_objs w !! Cord._app c) as [app|] eqn:Happ; [|split; assumption].
  destruct (any_cord_has_path w app (normalize candidate)) eqn:Hany;
    [split; assumption|].
  cbn [fst]. set (p := normalize candidate) in *.
  assert (Hother : forall a app' id c',
             chute_objs w !! a = Some app' -> In self (cords app') ->
             In id (cords app') -> id <> self ->
             cord_objs w !! id = Some c' -> Cord._path c' <> Some p).
  { intros a app' id c' Ha Hself Hid Hne Hc'.
    destruct (Hown a app' self Ha Hself) as (c0 & Hc0 & Hca).
    rewrite Hc in Hc0. injection Hc0 as <-. subst a.
    rewrite Happ in Ha. injection Ha as <-.
    exact (any_cord_has_path_false w app id c' p Hany Hid Hc'). }
  split.
  - intros a app' id1 id2 c1 c2 q Ha H1 H2 Hl1 Hl2 Hp1 Hp2. simpl in *.
    destruct (decide (id1 = self)) as [->|Hn1];
      destruct (decide (id2 = self)) as [->|Hn2]; [reflexivity| | |].
    + rewrite lookup_insert_eq in Hl1. injection Hl1 as <-.
      rewrite lookup_insert_ne in Hl2 by congruence.
      simpl in Hp1. injection Hp1 as <-.
      exact (False_ind _ (Hother a app' id2 c2 Ha H1 H2 Hn2 Hl2 Hp2)).
    + rewrite lookup_insert_eq in Hl2. injection Hl2 as <-.
      rewrite lookup_insert_ne in Hl1 by congruence.
      simpl in Hp2. injection Hp2 as <-.
      exact (False_ind _ (Hother a app' id1 c1 Ha H2 H1 Hn1 Hl1 Hp1)).
    + rewrite lookup_insert_ne in Hl1 by congruence.
      rewrite lookup_insert_ne in Hl2 by congruence.
      eapply Huniq; eauto.
  - intros a app' id Ha Hin. simpl in *.
    destruct (Hown a app' id Ha Hin) as (c0 & Hc0 & Hca).
    destruct (decide (id = self)) as [->|Hne].
    + rewrite lookup_insert_eq. rewrite Hc in Hc0. injection Hc0 as <-.
      eexists. split; [reflexivity|]. exact Hca.
    + rewrite lookup_insert_ne by congruence. eauto.
Qed.

Ltac demo_lookup H :=
  repeat
    match type of H with
    | <[?k := _]> _ !! ?i = Some _ =>
        destruct (decide (i = k)) as [->|?];
        [rewrite lookup_insert_eq in H; injection H as <-
        |rewrite lookup_insert_ne in H by congruence]
    | ∅ !! _ = Some _ => rewrite lookup_empty in H; discriminate H
    end.

Lemma demo_world_owners_ok : owners_ok demo_world.
Proof.
  intros a app id Ha Hin. unfold demo_world in *. simpl in Ha |- *.
  demo_lookup Ha; simpl in Hin;
    repeat (destruct Hin as [<-|Hin]; [eexists; split; reflexivity|]);
    contradiction.
Qed.

Lemma demo_world_unique_paths : unique_paths demo_world.
Proof.
  intros a app id1 id2 c1 c2 p Ha H1 H2 Hl1 Hl2 Hp1 Hp2.
  unfold demo_world in *. simpl in Ha, Hl1, Hl2.
  demo_lookup Ha; simpl in H1, H2;
    repeat (destruct H1 as [<-|H1]); try contradiction;
    repeat (destruct H2 as [<-|H2]); try contradiction;
    try reflexivity;
    vm_compute in Hl1, Hl2; injection Hl1 as <-; injection Hl2 as <-;
    discriminate.
Qed.

(** Endpoint 1 of [demo_world] registers [bar]. *)
Lemma path_setter_keeps_paths_unique_witness :
  unique_paths (fst (path_setter 1%nat (py "bar") demo_world))
  /\ owners_ok (fst (path_setter 1%nat (py "bar") demo_world)).
Proof.
  apply (path_setter_keeps_paths_unique demo_world 1%nat (py "bar")
           demo_world_owners_ok demo_world_unique_paths).
Defined.

(** ** Binding *)

Lemma bound_world_lookup w self c func :
  cord_objs (bound_world w self c func) !! self
  = Some (Cord.with_func (Some func) c).
Proof. simpl. apply lookup_insert_eq. Qed.

(** X5. An endpoint whose primary path and passthrough path are both set
    binds to any function, whatever its name: binding only attaches the
    function, keeps both paths, and returns the local or the remote
    method, unary or streaming, by the context and the endpoint's stream
    flag. *)
Theorem binding_keeps_explicit_paths
    (E : Env) (w : World) (self : nat) (c : Cord.t) (func : pyfunc) :
  cord_objs w !! self = Some c ->
  opt_truthy (Cord._path c) = true ->
  opt_truthy (Cord._passthrough_path c) = true ->
  __call__ E self func w
  = (bound_world w self c func,
     inr (bound_method_for (is_local E) (Cord._stream c))).
Proof.
  intros Hc Hp Hq.
  pose proof (bound_world_lookup w self c func) as Hb.
  unfold __call__, bind. rewrite (update_cord_run _ _ _ _ Hc).
  fold (bound_world w self c func). rewrite (get_cord_run _ _ _ Hb).
  field_simpl_cord. unfold when. rewrite Hp. cbn [negb].
  unfold ret at 1. cbv beta iota. rewrite (get_cord_run _ _ _ Hb).
  field_simpl_cord. rewrite Hq. cbn [negb]. unfold ret at 1. cbv beta iota.
  unfold bound_method_for.
  change (Cord._stream (Cord.with_func (Some func) c)) with (Cord._stream c).
  destruct (is_local E), (Cord._stream c); reflexivity.
Qed.

(** The relay endpoint, whose paths are set, bound to a function whose
    name is no valid path. *)
Lemma binding_keeps_explicit_paths_witness :
  __call__ (demo_env no_answer no_answer) 0%nat
    {| __name__ := py "_Private"; func_id := 7 |} relay_world
  = (bound_world relay_world 0%nat relay_cord
       {| __name__ := py "_Private"; func_id := 7 |},
     inr Bound_local_call).
Proof.
  apply (binding_keeps_explicit_paths (demo_env no_answer no_answer)
           relay_world 0%nat relay_cord
           {| __name__ := py "_Private"; func_id := 7 |});
    vm_compute; reflexivity.
Defined.

Lemma __call___outcome
    (E : Env) (w : World) (self : nat) (c : Cord.t) (app : Chute)
    (func : pyfunc) (w' : World) (r : result bound_method) :
  cord_objs w !! self = Some c ->
  chute_objs w !! Cord._app c = Some app ->
  __call__ E self func w = (w', r) ->
  match r with
  | inl e =>
      w' = bound_world w self c func
      /\ (e = InvalidPath (normalize (__name__ func))
          \/ e = DuplicatePath (normalize (__name__ func))
             /\ opt_truthy (Cord._path c) = false)
  | inr m =>
      m = bound_method_for (is_local E) (Cord._stream c)
      /\ exists c',
           cord_objs w' !! self = Some c'
           /\ Cord._func c' = Some func
           /\ Cord._path c'
              = (if opt_truthy (Cord._path c) then Cord._path c
                 else Some (normalize (__name__ func)))
           /\ Cord._passthrough_path c'
              = (if opt_truthy (Cord._passthrough_path c)
                 then Cord._passthrough_path c
                 else Some (normalize (__name__ func)))
  end.
Proof.
  intros Hc Happ.
  pose proof (bound_world_lookup w self c func) as Hb.
  unfold __call__, bind. rewrite (update_cord_run _ _ _ _ Hc).
  fold (bound_world w self c func). rewrite (get_cord_run _ _ _ Hb).
  field_simpl_cord. unfold when.
  destruct (opt_truthy (Cord._path c)) eqn:Hp; cbn [negb].
  - unfold ret at 1. cbv beta iota. rewrite (get_cord_run _ _ _ Hb).
    field_simpl_cord.
    destruct (opt_truthy (Cord._passthrough_path c)) eqn:Hq; cbn [negb].
    + unfold ret at 1. cbv beta iota.
      change (Cord._stream (Cord.with_func (Some func) c)) with (Cord._stream c).
      destruct (is_local E), (Cord._stream c); intros H; injection H as <- <-;
        (split; [reflexivity|]); eexists; (split; [exact Hb|]);
        repeat split; reflexivity.
    + rewrite passthrough_path_setter_run. cbv zeta.
      destruct (path_rejected (normalize (__name__ func))).
      * intros H; injection H as <- <-. split; [reflexivity|]. left. reflexivity.
      * rewrite Hb.
        change (Cord._stream (Cord.with_func (Some func) c)) with (Cord._stream c).
        destruct (is_local E), (Cord._stream c); intros H; injection H as <- <-;
          (split; [reflexivity|]); eexists;
          (split; [simpl; apply lookup_insert_eq|]);
          repeat split; reflexivity.
  - rewrite path_setter_run. cbv zeta.
    destruct (path_rejected (normalize (__name__ func))) eqn:Hrej.
    { intros H; injection H as <- <-. split; [reflexivity|]. left. reflexivity. }
    rewrite Hb. field_simpl_cord.
    change (chute_objs (bound_world w self c func)) with (chute_objs w).
    rewrite Happ.
    destruct (any_cord_has_path (bound_world w self c func) app
                (normalize (__name__ func))).
    { intros H; injection H as <- <-. split; [reflexivity|]. right.
      split; reflexivity. }
    match goal with
    | |- context [get_cord self ?w1] =>
        assert (Hb1 : cord_objs w1 !! self
                      = Some (Cord.with_path (Some (normalize (__name__ func)))
                                (Cord.with_func (Some func) c)))
          by (simpl; apply lookup_insert_eq);
        rewrite (get_cord_run _ _ _ Hb1)
    end.
    field_simpl_cord.
    change (Cord._stream (Cord.with_path (Some (normalize (__name__ func)))
                            (Cord.with_func (Some func) c)))
      with (Cord._stream c).
    destruct (opt_truthy (Cord._passthrough_path c)) eqn:Hq; cbn [negb].
    + unfold ret at 1. cbv beta iota.
      destruct (is_local E), (Cord._stream c); intros H; injection H as <- <-;
        (split; [reflexivity|]); eexists; (split; [exact Hb1|]);
        repeat split; reflexivity.
    + rewrite passthrough_path_setter_run. cbv zeta. rewrite Hrej, Hb1.
      destruct (is_local E), (Cord._stream c); intros H; injection H as <- <-;
        (split; [reflexivity|]); eexists;
        (split; [simpl; apply lookup_insert_eq|]);
        repeat split; reflexivity.
Qed.

(** X6. Binding sets the missing paths together or changes no path. When
    it fails, the error is InvalidPath or (only if the primary path was
    missing) DuplicatePath, on the normalized function name, and the
    endpoint has only gained the function. When it succeeds, each path that
    was set is kept and each path that was missing holds the normalized
    function name: both setters apply the same guard to the same name, so
    the second cannot fail after the first has stored it. *)
Theorem binding_sets_missing_paths_or_none
    (E : Env) (w : World) (self : nat) (c : Cord.t) (app : Chute)
    (func : pyfunc) :
  cord_objs w !! self = Some c ->
  chute_objs w !! Cord._app c = Some app ->
  match snd (__call__ E self func w) with
  | inl e =>
      fst (__call__ E self func w) = bound_world w self c func
      /\ (e = InvalidPath (normalize (__name__ func))
          \/ e = DuplicatePath (normalize (__name__ func))
             /\ opt_truthy (Cord._path c) = false)
  | inr m =>
      m = bound_method_for (is_local E) (Cord._stream c)
      /\ exists c',
           cord_objs (fst (__call__ E self func w)) !! self = Some c'
           /\ Cord._func c' = Some func
           /\ Cord._path c'
              = (if opt_truthy (Cord._path c) then Cord._path c
                 else Some (normalize (__name__ func)))
           /\ Cord._passthrough_path c'
              = (if opt_truthy (Cord._passthrough_path c)
                 then Cord._passthrough_path c
                 else Some (normalize (__name__ func)))
  end.
Proof.
  intros Hc Happ.
  destruct (__call__ E self func w) as [w' r] eqn:Hrun.
  exact (__call___outcome E w self c app func w' r Hc Happ Hrun).
Qed.

(** Endpoint 1 of [demo_world], with no path set, bound to a function
    named [foo]: endpoint 0 of its service holds [/foo]. *)
Lemma binding_sets_missing_paths_or_none_witness :
  fst (__call__ (demo_env no_answer no_answer) 1%nat
         {| __name__ := py "foo"; func_id := 0 |} demo_world)
  = bound_world demo_world 1%nat (default_cord 0 None)
      {| __name__ := py "foo"; func_id := 0 |}
  /\ snd (__call__ (demo_env no_answer no_answer) 1%nat
            {| __name__ := py "foo"; func_id := 0 |} demo_world)
     = inl (DuplicatePath (py "/foo")).
Proof.
  pose proof (binding_sets_missing_paths_or_none
                (demo_env no_answer no_answer) demo_world 1%nat
                (default_cord 0 None)
                {| uid := py "svc-a"; cords := [0%nat; 1%nat] |}
                {| __name__ := py "foo"; func_id := 0 |}
                ltac:(vm_compute; reflexivity) ltac:(vm_compute; reflexivity))
    as H.
  assert (Hs : snd (__call__ (demo_env no_answer no_answer) 1%nat
                      {| __name__ := py "foo"; func_id := 0 |} demo_world)
               = inl (DuplicatePath (py "/foo")))
    by (vm_compute; reflexivity).
  rewrite Hs in H. destruct H as [H _]. split; [exact H | exact Hs].
Defined.

(** ** The constructor *)

Lemma only_endpoint_update w self c w' (f : Cord.t -> Cord.t) :
  only_endpoint w self c w' ->
  only_endpoint w self (f c)
    (set_cord_objs (<[self := f c]> (cord_objs w')) w').
Proof.
  intros (Hself & Hothers & Hchutes & Hlog).
  split; [simpl; apply lookup_insert_eq|].
  split; [|split; [exact Hchutes | exact Hlog]].
  intros id Hne. simpl. rewrite lookup_insert_ne by congruence.
  apply Hothers, Hne.
Qed.

Lemma only_endpoint_path_setter w self c w' (b : bool) candidate :
  only_endpoint w self c w' ->
  (exists e, when b (path_setter self candidate) w' = (w', inl e))
  \/ exists w'',
       when b (path_setter self candidate) w' = (w'', inr tt)
       /\ only_endpoint w self
            (if b then Cord.with_path (Some (normalize candidate)) c else c) w''.
Proof.
  intros Hinv. destruct b; cbn [when]; [|right; eexists; split; [reflexivity|exact Hinv]].
  rewrite path_setter_run. cbv zeta.
  destruct (path_rejected (normalize candidate)); [left; eexists; reflexivity|].
  pose proof Hinv as (Hself & _). rewrite Hself.
  destruct (chute_objs w' !! Cord._app c) as [app|];
    [|left; eexists; reflexivity].
  destruct (any_cord_has_path w' app (normalize candidate));
    [left; eexists; reflexivity|].
  right. eexists. split; [reflexivity|].
  apply (only_endpoint_update w self c w' (Cord.with_path (Some (normalize candidate)))).
  exact Hinv.
Qed.

Lemma only_endpoint_setter
    (field : option (list ascii) -> Cord.t -> Cord.t) w self c w' (b : bool)
    candidate :
  only_endpoint w self c w' ->
  (exists e,
      when b (let path := normalize candidate in
              if path_rejected path then raise (InvalidPath path)
              else update_cord self (field (Some path))) w' = (w', inl e))
  \/ exists w'',
       when b (let path := normalize candidate in
               if path_rejected path then raise (InvalidPath path)
               else update_cord self (field (Some path))) w' = (w'', inr tt)
       /\ only_endpoint w self
            (if b then field (Some (normalize candidate)) c else c) w''.
Proof.
  intros Hinv. destruct b; cbn [when]; [|right; eexists; split; [reflexivity|exact Hinv]].
  rewrite setter_run. cbv zeta.
  destruct (path_rejected (normalize candidate)); [left; eexists; reflexivity|].
  pose proof Hinv as (Hself & _). rewrite Hself.
  right. eexists. split; [reflexivity|].
  apply (only_endpoint_update w self c w' (field (Some (normalize candidate)))).
  exact Hinv.
Qed.

Lemma only_endpoint_passthrough_path_setter w self c w' (b : bool) candidate :
  only_endpoint w self c w' ->
  (exists e, when b (passthrough_path_setter self candidate) w' = (w', inl e))
  \/ exists w'',
       when b (passthrough_path_setter self candidate) w' = (w'', inr tt)
       /\ only_endpoint w self
            (if b then Cord.with_passthrough_path (Some (normalize candidate)) c
             else c) w''.
Proof. exact (only_endpoint_setter Cord.with_passthrough_path w self c w' b candidate). Qed.

Lemma only_endpoint_public_api_path_setter w self c w' (b : bool) candidate :
  only_endpoint w self c w' ->
  (exists e, when b (public_api_path_setter self candidate) w' = (w', inl e))
  \/ exists w'',
       when b (public_api_path_setter self candidate) w' = (w'', inr tt)
       /\ only_endpoint w self
            (if b then Cord.with_public_api_path (Some (normalize candidate)) c
             else c) w''.
Proof. exact (only_endpoint_setter Cord.with_public_api_path w self c w' b candidate). Qed.

Lemma __init___outcome
    (w : World) (app : nat) (stream : bool) (path passthrough_path : option str)
    (passthrough : bool) (public_api_path : option str)
    (public_api_method method : str) (provision_timeout : Z)
    (session_kwargs : list (str * pyval)) (w' : World) (r : result nat) :
  __init__ app stream path passthrough_path passthrough public_api_path
    public_api_method method provision_timeout session_kwargs w = (w', r) ->
  chute_objs w' = chute_objs w
  /\ log w' = log w
  /\ (forall id c, cord_objs w !! id = Some c -> cord_objs w' !! id = Some c)
  /\ (forall self,
        r = inr self ->
        cord_objs w !! self = None
        /\ cord_objs w' !! self
           = Some {| Cord._app := app;
                     Cord._path := init_path path;
                     Cord._passthrough_path := init_path passthrough_path;
                     Cord._public_api_path := init_path public_api_path;
                     Cord._public_api_method := public_api_method;
                     Cord._passthrough_port := None;
                     Cord._stream := stream;
                     Cord._passthrough := passthrough;
                     Cord._method := method;
                     Cord._session_kwargs := session_kwargs;
                     Cord._provision_timeout := provision_timeout;
                     Cord._func := None |}).
Proof.
  set (self := fresh (dom (cord_objs w))).
  assert (Hfresh : cord_objs w !! self = None).
  { apply not_elem_of_dom. apply is_fresh. }
  set (b0 := blank app stream passthrough public_api_method method
               provision_timeout session_kwargs).
  set (w1 := set_cord_objs (<[self := b0]> (cord_objs w)) w).
  assert (H1 : only_endpoint w self b0 w1).
  { split; [simpl; apply lookup_insert_eq|].
    split; [|split; reflexivity].
    intros id Hne. simpl. apply lookup_insert_ne. congruence. }
  assert (Hframe : forall c1 w2,
             only_endpoint w self c1 w2 ->
             chute_objs w2 = chute_objs w /\ log w2 = log w
             /\ forall id c, cord_objs w !! id = Some c ->
                             cord_objs w2 !! id = Some c).
  { intros c1 w2 (Hself & Hothers & Hchutes & Hlog).
    split; [exact Hchutes|]. split; [exact Hlog|].
    intros id c Hid. rewrite Hothers; [exact Hid|].
    intros ->. rewrite Hfresh in Hid. discriminate. }
  unfold __init__. unfold bind at 1. unfold get_world at 1.
  unfold bind at 1. unfold modify at 1. fold self. fold b0. fold w1.
  unfold bind at 1.
  destruct (only_endpoint_path_setter w self b0 w1 (opt_truthy path)
              (default [] path) H1) as [(e & ->)|(w2 & -> & H2)].
  { intros H; injection H as <- <-.
    destruct (Hframe _ _ H1) as (Ha & Hb & Hc).
    repeat split; try assumption; discriminate. }
  unfold bind at 1.
  destruct (only_endpoint_passthrough_path_setter w self _ w2
              (opt_truthy passthrough_path) (default [] passthrough_path) H2)
    as [(e & ->)|(w3 & -> & H3)].
  { intros H; injection H as <- <-.
    destruct (Hframe _ _ H2) as (Ha & Hb & Hc).
    repeat split; try assumption; discriminate. }
  unfold bind at 1.
  destruct (only_endpoint_public_api_path_setter w self _ w3
              (opt_truthy public_api_path) (default [] public_api_path) H3)
    as [(e & ->)|(w4 & -> & H4)].
  { intros H; injection H as <- <-.
    destruct (Hframe _ _ H3) as (Ha & Hb & Hc).
    repeat split; try assumption; discriminate. }
  intros H; injection H as <- <-.
  destruct (Hframe _ _ H4) as (Ha & Hb & Hc).
  split; [exact Ha|]. split; [exact Hb|]. split; [exact Hc|].
  intros self' Hs. injection Hs as <-. split; [exact Hfresh|].
  destruct H4 as (H4 & _). rewrite H4. f_equal.
  unfold init_path, b0, blank.
  destruct (opt_truthy path), (opt_truthy passthrough_path),
    (opt_truthy public_api_path); reflexivity.
Qed.

(** X7. Constructing an endpoint writes to the new object only: the
    services (so also the list of endpoints of the owning service), the log
    and every endpoint that existed are as before, whether the constructor
    returns or raises. When it returns, the new object is one the store did
    not hold, its options are the arguments, and each path attribute holds
    the normalized argument, or nothing where the argument was [None] or
    empty. *)
Theorem constructor_touches_only_the_new_endpoint
    (w : World) (app : nat) (stream : bool) (path passthrough_path : option str)
    (passthrough : bool) (public_api_path : option str)
    (public_api_method method : str) (provision_timeout : Z)
    (session_kwargs : list (str * pyval)) :
  let run :=
    __init__ app stream path passthrough_path passthrough public_api_path
      public_api_method method provision_timeout session_kwargs w in
  chute_objs (fst run) = chute_objs w
  /\ log (fst run) = log w
  /\ (forall id c,
        cord_objs w !! id = Some c -> cord_objs (fst run) !! id = Some c)
  /\ (forall self,
        snd run = inr self ->
        cord_objs w !! self = None
        /\ cord_objs (fst run) !! self
           = Some {| Cord._app := app;
                     Cord._path := init_path path;
                     Cord._passthrough_path := init_path passthrough_path;
                     Cord._public_api_path := init_path public_api_path;
                     Cord._public_api_method := public_api_method;
                     Cord._passthrough_port := None;
                     Cord._stream := stream;
                     Cord._passthrough := passthrough;
                     Cord._method := method;
                     Cord._session_kwargs := session_kwargs;
                     Cord._provision_timeout := provision_timeout;
                     Cord._func := None |}).
Proof.
  intros run. subst run.
  destruct (__init__ app stream path passthrough_path passthrough
              public_api_path public_api_method method provision_timeout
              session_kwargs w) as [w' r] eqn:Hrun.
  exact (__init___outcome w app stream path passthrough_path passthrough
           public_api_path public_api_method method provision_timeout
           session_kwargs w' r Hrun).
Qed.

(** ** The local stub: failures of the POST *)

(** X8. A status other than 200 and 503 is a permanent failure: the stub
    logs the status and the body at error level and raises Exception with
    the body, after the single POST and without waiting; nothing is
    yielded and no completion line is logged. A POST that fails in
    transport ends the three entry points with that error, likewise after
    the single POST, with nothing logged about it. *)
Theorem other_status_is_permanent_failure
    (E : Env) (w : World) (self : nat) (args : list pyval)
    (kwargs : list (str * pyval)) (c : Cord.t) (app : Chute) (f : pyfunc)
    (payload : pyval) :
  cord_objs w !! self = Some c ->
  chute_objs w !! Cord._app c = Some app ->
  Cord._func c = Some f ->
  encode_envelope E args kwargs = inr payload ->
  (forall response,
      api E (length (api_calls w)) (post_of E c app f payload) = inr response ->
      status response <> 200 -> status response <> 503 ->
      let w' :=
        add_log ERROR
          (py "Error invoking " ++ __name__ f ++ py " [status="
           ++ fmt E (VInt (status response)) ++ py "]: " ++ text response)
          (posted E w c app f payload) in
      _local_call_base E self args kwargs w
      = (w', inl (PyException (VStr (text response))))
      /\ _local_stream_call E self args kwargs w
         = (w', [], inl (PyException (VStr (text response))))
      /\ _local_call E self args kwargs w
         = (w', inl (PyException (VStr (text response))))
      /\ api_calls w' = post_of E c app f payload :: api_calls w
      /\ clock w' = clock w)
  /\ (forall e,
        api E (length (api_calls w)) (post_of E c app f payload) = inl e ->
        _local_call_base E self args kwargs w
        = (posted E w c app f payload, inl e)
        /\ _local_stream_call E self args kwargs w
           = (posted E w c app f payload, [], inl e)
        /\ _local_call E self args kwargs w
           = (posted E w c app f payload, inl e)).
Proof.
  intros Hc Happ Hf Hp.
  assert (Hbase : _local_call_base E self args kwargs w
                  = match api E (length (api_calls w))
                            (post_of E c app f payload) with
                    | inl e => (posted E w c app f payload, inl e)
                    | inr response =>
                        if status response =? 503 then
                          (add_log WARNING
                             (py "Function " ++ __name__ f
                              ++ py " is still provisioning...")
                             (posted E w c app f payload),
                           inl (StillProvisioning (text response)))
                        else if negb (status response =? 200) then
                          (add_log ERROR
                             (py "Error invoking " ++ __name__ f
                              ++ py " [status="
                              ++ fmt E (VInt (status response)) ++ py "]: "
                              ++ text response)
                             (posted E w c app f payload),
                           inl (PyException (VStr (text response))))
                        else
                          (posted E w c app f payload,
                           inr (response,
                                after_yield E self (clock w) (ret tt)))
                    end).
  { rewrite (_local_call_base_run E self args kwargs w c f Hc Hf). cbv zeta.
    erewrite (_call_run E self args kwargs _ c app f payload);
      [|exact Hc|exact Happ|exact Hf|exact Hp].
    cbv zeta. change (api_calls (add_log DEBUG _ w)) with (api_calls w).
    fold (posted E w c app f payload).
    destruct (api E (length (api_calls w)) (post_of E c app f payload))
      as [e|response]; [reflexivity|].
    destruct (status response =? 503); [reflexivity|].
    destruct (status response =? 200); reflexivity. }
  split.
  - intros response Hapi H200 H503 w'.
    rewrite Hapi in Hbase.
    apply Z.eqb_neq in H200, H503. rewrite H200, H503 in Hbase.
    cbn [negb] in Hbase. fold w' in Hbase.
    assert (Hstream : _local_stream_call E self args kwargs w
                      = (w', [], inl (PyException (VStr (text response))))).
    { unfold _local_stream_call, async_with_g, gbind, glift.
      rewrite Hbase. reflexivity. }
    split; [exact Hbase|]. split; [exact Hstream|].
    split; [unfold _local_call; rewrite Hstream; reflexivity|].
    split; reflexivity.
  - intros e Hapi. rewrite Hapi in Hbase.
    assert (Hstream : _local_stream_call E self args kwargs w
                      = (posted E w c app f payload, [], inl e)).
    { unfold _local_stream_call, async_with_g, gbind, glift.
      rewrite Hbase. reflexivity. }
    split; [exact Hbase|]. split; [exact Hstream|].
    unfold _local_call. rewrite Hstream. reflexivity.
Qed.

(** The platform does not answer: the unary call ends with the client's
    connection error. The platform answers 500 with the body [boom]: the
    unary call raises Exception with that body. *)
Lemma other_status_is_permanent_failure_witness :
  snd (_local_call (demo_env no_answer no_answer) 0%nat [VInt 41] []
         stub_world)
  = inl (LibraryError (py "ClientConnectorError"))
  /\ snd (_local_call (demo_env failing_platform no_answer) 0%nat [VInt 41] []
            stub_world)
     = inl (PyException (VStr (py "boom"))).
Proof.
  split.
  - pose proof (other_status_is_permanent_failure
                  (demo_env no_answer no_answer) stub_world 0%nat
                  [VInt 41] [] stub_cord
                  {| uid := py "svc-a"; cords := [0%nat] |} demo_func
                  (VDict [(py "args", VStr (py "H4uABJUFAAAAAAAAAEsphZQu"));
                          (py "kwargs", VStr (py "H4uABH2ULg=="))])
                  ltac:(vm_compute; reflexivity) ltac:(vm_compute; reflexivity)
                  eq_refl ltac:(vm_compute; reflexivity))
      as [_ H].
    destruct (H _ eq_refl) as (_ & _ & H3).
    rewrite H3. reflexivity.
  - pose proof (other_status_is_permanent_failure
                  (demo_env failing_platform no_answer) stub_world 0%nat
                  [VInt 41] [] stub_cord
                  {| uid := py "svc-a"; cords := [0%nat] |} demo_func
                  (VDict [(py "args", VStr (py "H4uABJUFAAAAAAAAAEsphZQu"));
                          (py "kwargs", VStr (py "H4uABH2ULg=="))])
                  ltac:(vm_compute; reflexivity) ltac:(vm_compute; reflexivity)
                  eq_refl ltac:(vm_compute; reflexivity))
      as [H _].
    destruct (H _ eq_refl ltac:(discriminate) ltac:(discriminate))
      as (_ & _ & H3 & _).
    rewrite H3. reflexivity.
Defined.

(** ** The local stub: what is sent *)

Lemma str_eqb_eq a b : Str.str_eqb a b = true <-> a = b.
Proof.
  revert b. induction a as [|x a IH]; intros [|y b]; simpl;
    try (split; [discriminate|discriminate]); [split; reflexivity|].
  rewrite andb_true_iff, IH. unfold Str.eqb. rewrite Ascii.eqb_eq.
  split; [intros [-> ->]; reflexivity|intros H; injection H as -> ->; split; reflexivity].
Qed.

Lemma str_eqb_neq a b : a <> b -> Str.str_eqb a b = false.
Proof.
  intros Hne. destruct (Str.str_eqb a b) eqn:H; [|reflexivity].
  apply str_eqb_eq in H. contradiction.
Qed.

Lemma assoc_dict_set_eq {A : Type} k (v : A) kvs :
  assoc k (dict_set k v kvs) = Some v.
Proof.
  induction kvs as [|[k' v'] kvs IH]; simpl.
  - rewrite (proj2 (str_eqb_eq k k) eq_refl). reflexivity.
  - destruct (Str.str_eqb k' k) eqn:Hk; simpl; rewrite Hk; [reflexivity|exact IH].
Qed.

Lemma assoc_dict_set_ne {A : Type} k q (v : A) kvs :
  k <> q -> assoc q (dict_set k v kvs) = assoc q kvs.
Proof.
  intros Hne. induction kvs as [|[k' v'] kvs IH]; simpl.
  - rewrite (str_eqb_neq k q Hne). reflexivity.
  - destruct (Str.str_eqb k' k) eqn:Hk; simpl.
    + apply str_eqb_eq in Hk. subst k'. rewrite (str_eqb_neq k q Hne).
      reflexivity.
    + rewrite IH. reflexivity.
Qed.

(** X9. Whatever the platform answers, the stub makes exactly one POST:
    to [/chutes/<service id><primary path>] on the configured base URL,
    with the signed payload string as body. Its headers are the signer's,
    except that [X-Parachutes-ChuteID] is the service id and
    [X-Parachutes-Function] the name of the bound function, also when the
    signer had set headers of these names. *)
Theorem post_carries_service_and_function
    (E : Env) (w : World) (self : nat) (args : list pyval)
    (kwargs : list (str * pyval)) (c : Cord.t) (app : Chute) (f : pyfunc)
    (payload : pyval) (path : str) :
  cord_objs w !! self = Some c ->
  chute_objs w !! Cord._app c = Some app ->
  Cord._func c = Some f ->
  Cord._path c = Some path ->
  encode_envelope E args kwargs = inr payload ->
  exists call,
    api_calls (fst (_local_call_base E self args kwargs w))
    = call :: api_calls w
    /\ call_base_url call = API_BASE_URL E
    /\ call_method call = py "post"
    /\ call_url call = py "/chutes/" ++ uid app ++ path
    /\ call_data call = snd (sign_request E payload)
    /\ call_kwargs call = Cord._session_kwargs c
    /\ assoc (py "X-Parachutes-ChuteID") (call_headers call) = Some (uid app)
    /\ assoc (py "X-Parachutes-Function") (call_headers call)
       = Some (__name__ f)
    /\ forall key,
         key <> py "X-Parachutes-ChuteID" ->
         key <> py "X-Parachutes-Function" ->
         assoc key (call_headers call)
         = assoc key (fst (sign_request E payload)).
Proof.
  intros Hc Happ Hf Hpath Hp.
  exists (post_of E c app f payload).
  split.
  { rewrite (_local_call_base_run E self args kwargs w c f Hc Hf). cbv zeta.
    erewrite (_call_run E self args kwargs _ c app f payload);
      [|exact Hc|exact Happ|exact Hf|exact Hp].
    cbv zeta.
    destruct (api E _ (post_of E c app f payload)) as [e|response];
      [reflexivity|].
    destruct (status response =? 503); [reflexivity|].
    destruct (status response =? 200); reflexivity. }
  unfold post_of. cbn [call_base_url call_method call_url call_data
                       call_kwargs call_headers].
  rewrite Hpath. cbn [opt_pyval fmt].
  split; [reflexivity|]. split; [reflexivity|]. split; [reflexivity|].
  split; [reflexivity|]. split; [reflexivity|].
  split.
  { rewrite assoc_dict_set_ne by discriminate. apply assoc_dict_set_eq. }
  split; [apply assoc_dict_set_eq|].
  intros key H1 H2.
  rewrite assoc_dict_set_ne by congruence.
  apply assoc_dict_set_ne. congruence.
Qed.

(** The stub endpoint of service [svc-a] at [/predict]. *)
Lemma post_carries_service_and_function_witness :
  exists call,
    api_calls (fst (_local_call_base (demo_env no_answer no_answer) 0%nat
                      [VInt 41] [] stub_world)) = [call]
    /\ call_url call = py "/chutes/svc-a/predict"
    /\ assoc (py "X-Parachutes-Function") (call_headers call)
       = Some (py "predict")
    /\ assoc (py "X-Parachutes-Signature") (call_headers call)
       = Some (py "sig").
Proof.
  destruct (post_carries_service_and_function
              (demo_env no_answer no_answer) stub_world 0%nat
              [VInt 41] [] stub_cord
              {| uid := py "svc-a"; cords := [0%nat] |} demo_func
              (VDict [(py "args", VStr (py "H4uABJUFAAAAAAAAAEsphZQu"));
                      (py "kwargs", VStr (py "H4uABH2ULg=="))])
              (py "/predict")
              ltac:(vm_compute; reflexivity) ltac:(vm_compute; reflexivity)
              eq_refl eq_refl ltac:(vm_compute; reflexivity))
    as (call & H1 & _ & _ & H4 & _ & _ & _ & H8 & H9).
  exists call. split; [exact H1|]. split; [exact H4|]. split; [exact H8|].
  rewrite H9 by discriminate. reflexivity.
Defined.

(** ** The local stub: documents with several keys, and malformed traces *)

Lemma truthy_field key kvs :
  truthy (default VNone (assoc key kvs)) = true ->
  assoc key kvs = Some (default VNone (assoc key kvs)).
Proof. destruct (assoc key kvs); [reflexivity|discriminate]. Qed.

(** X10. Of the keys of a decoded document, [trace] is looked at first,
    then [error], then [result], each by its truth value. A document with
    a truthy trace is only logged (or fails on its trace), whatever else it
    holds; one with a falsy or missing trace and a truthy error ends the
    stream with that error, whatever its result; one where all three are
    falsy or missing is passed over without a trace in the log. *)
Theorem document_keys_by_precedence
    (E : Env) (w : World) (self : nat) (kvs : list (str * pyval)) :
  let field key := default VNone (assoc (py key) kvs) in
  (truthy (field "trace"%string) = true ->
   dispatch_event E self (VDict kvs) w
   = match trace_message E (VDict kvs) with
     | inl e => (w, [], inl e)
     | inr message => (add_log DEBUG message w, [], inr tt)
     end)
  /\ (truthy (field "trace"%string) = false ->
      truthy (field "error"%string) = true ->
      dispatch_event E self (VDict kvs) w
      = (add_log ERROR (fmt E (field "error"%string)) w, [],
         inl (PyException (field "error"%string))))
  /\ (truthy (field "trace"%string) = false ->
      truthy (field "error"%string) = false ->
      truthy (field "result"%string) = false ->
      dispatch_event E self (VDict kvs) w = (w, [], inr tt)).
Proof.
  intros field. unfold field.
  split; [|split].
  - intros Ht. unfold dispatch_event, gbind, glift, lift.
    cbn [py_get]. rewrite Ht.
    destruct (trace_message E (VDict kvs)); reflexivity.
  - intros Ht He. unfold dispatch_event, gbind, glift, lift.
    cbn [py_get]. rewrite Ht, He. cbn [py_getitem].
    rewrite (truthy_field _ _ He). reflexivity.
  - intros Ht He Hr. unfold dispatch_event, gbind, glift, lift.
    cbn [py_get]. rewrite Ht, He, Hr. reflexivity.
Qed.

Lemma async_for_app {X : Type} (xs ys : list X) (body : X -> G unit) w :
  async_for (xs ++ ys) body w
  = match async_for xs body w with
    | (w1, values, inl e) => (w1, values, inl e)
    | (w1, values, inr _) =>
        match async_for ys body w1 with
        | (w2, values', r) => (w2, values ++ values', r)
        end
    end.
Proof.
  revert w. induction xs as [|x xs IH]; intros w.
  - cbn [List.app async_for gret].
    destruct (async_for ys body w) as [[w2 values'] r]. reflexivity.
  - cbn [List.app async_for]. unfold gbind.
    destruct (body x w) as [[w1 v1] [e|[]]]; [reflexivity|].
    rewrite IH.
    destruct (async_for xs body w1) as [[w2 v2] [e|[]]]; [reflexivity|].
    destruct (async_for ys body w2) as [[w3 v3] r].
    rewrite app_assoc. reflexivity.
Qed.

Lemma dispatch_trace_without_timestamp (E : Env) self fields w :
  fields <> [] ->
  assoc (py "timestamp") fields = None ->
  dispatch_event E self (event_json (Trace fields)) w
  = (w, [], inl (KeyError (py "timestamp"))).
Proof.
  intros Hne Hts. unfold dispatch_event, gbind, glift, lift.
  change (py_get (event_json (Trace fields)) (py "trace"))
    with (@inr exn pyval (VDict fields)).
  cbv beta iota.
  assert (Ht : truthy (VDict fields) = true)
    by (destruct fields; [contradiction|reflexivity]).
  rewrite Ht. unfold trace_message.
  change (py_getitem (event_json (Trace fields)) (py "trace"))
    with (@inr exn pyval (VDict fields)).
  cbv beta iota. unfold py_getitem. rewrite Hts. reflexivity.
Qed.

(** X11. A trace without a timestamp ends the call. On an endpoint
    without passthrough, when the platform answers 200 and the body
    carries well-formed events without an Error and then a frame whose
    trace has fields but no [timestamp], the streaming stub delivers the
    truthy results before that frame and then raises KeyError for
    [timestamp]; nothing behind the frame is read and no completion line is
    logged. The unary call raises the same KeyError: the results it had
    received are lost. *)
Theorem trace_without_timestamp_ends_the_call
    (E : Env) (w : World) (self : nat) (args : list pyval)
    (kwargs : list (str * pyval)) (c : Cord.t) (app : Chute) (f : pyfunc)
    (payload : pyval) (response : Response) (items rest : list bytes)
    (encoded : bytes) (evs : list StreamEvent) (fields : list (str * pyval)) :
  cord_objs w !! self = Some c ->
  chute_objs w !! Cord._app c = Some app ->
  Cord._func c = Some f ->
  Cord._passthrough c = false ->
  encode_envelope E args kwargs = inr payload ->
  api E (length (api_calls w)) (post_of E c app f payload) = inr response ->
  status response = 200 ->
  content response = items ++ encoded :: rest ->
  stream_of E items evs ->
  Forall event_ok evs ->
  existsb is_error evs = false ->
  frame_of E encoded (Trace fields) ->
  fields <> [] ->
  assoc (py "timestamp") fields = None ->
  _local_stream_call E self args kwargs w
  = (add_logs (trace_lines E evs) (posted E w c app f payload),
     List.filter truthy (result_values evs),
     inl (KeyError (py "timestamp")))
  /\ _local_call E self args kwargs w
     = (add_logs (trace_lines E evs) (posted E w c app f payload),
        inl (KeyError (py "timestamp"))).
Proof.
  intros Hc Happ Hf Hp Hpay Hapi Hst Hcontent Hstream Hok Hne Hframe Hfields Hts.
  assert (Hrun : _local_stream_call E self args kwargs w
                 = (add_logs (trace_lines E evs) (posted E w c app f payload),
                    List.filter truthy (result_values evs),
                    inl (KeyError (py "timestamp")))).
  { rewrite (_local_stream_call_run E self args kwargs w c app f payload
               response Hc Happ Hf Hpay Hapi Hst).
    rewrite Hcontent, async_for_app.
    rewrite (async_for_delivery E self c items evs Hstream Hok Hp
               (posted E w c app f payload) Hc).
    rewrite (delivery_no_error E evs Hne).
    cbn [async_for]. unfold gbind.
    rewrite (handle_frame_event E self encoded (Trace fields) _ Hframe).
    rewrite (dispatch_trace_without_timestamp E self fields _ Hfields Hts).
    rewrite app_nil_r. reflexivity. }
  split; [exact Hrun|]. unfold _local_call. rewrite Hrun. reflexivity.
Qed.

(** The platform streams result("a") and then a trace that has only a
    [host] field: the unary call raises KeyError. *)
Lemma trace_without_timestamp_ends_the_call_witness :
  snd (_local_call
         (with_json_loads lenient_json_loads
            (demo_env
               (streaming_platform
                  [frame_result (json_string (py "a")); frame_bare_trace;
                   frame_result (json_string (py "b"))])
               no_answer))
         0%nat [VInt 41] [] stub_world)
  = inl (KeyError (py "timestamp")).
Proof.
  pose proof (trace_without_timestamp_ends_the_call
                (with_json_loads lenient_json_loads
                   (demo_env
                      (streaming_platform
                         [frame_result (json_string (py "a")); frame_bare_trace;
                          frame_result (json_string (py "b"))])
                      no_answer))
                stub_world 0%nat [VInt 41] [] stub_cord
                {| uid := py "svc-a"; cords := [0%nat] |} demo_func
                (VDict [(py "args", VStr (py "H4uABJUFAAAAAAAAAEsphZQu"));
                        (py "kwargs", VStr (py "H4uABH2ULg=="))])
                (ok_response
                   [frame_result (json_string (py "a")); frame_bare_trace;
                    frame_result (json_string (py "b"))])
                [frame_result (json_string (py "a"))]
                [frame_result (json_string (py "b"))]
                frame_bare_trace
                [Result (VStr (py "a"))] bare_trace
                ltac:(vm_compute; reflexivity) ltac:(vm_compute; reflexivity)
                eq_refl eq_refl ltac:(vm_compute; reflexivity)
                eq_refl eq_refl eq_refl) as H.
  destruct H as [_ H].
  - apply stream_frame; [|apply stream_end].
    eexists. split; vm_compute; reflexivity.
  - repeat constructor.
  - reflexivity.
  - eexists. split; vm_compute; reflexivity.
  - discriminate.
  - reflexivity.
  - rewrite H. reflexivity.
Defined.

(** ** The local stub in passthrough mode *)

Section PassthroughStub.

Variable E : Env.

Lemma async_for_passthrough self c f (g : pyval -> pyval) items evs :
  stream_of E items evs ->
  Forall event_ok evs ->
  existsb is_error evs = false ->
  Cord._passthrough c = true ->
  Cord._func c = Some f ->
  (forall v, In v (List.filter truthy (result_values evs)) ->
             forall w0, func_call E (func_id f) [v] [] w0 = (w0, inr (g v))) ->
  forall w,
    cord_objs w !! self = Some c ->
    exists w',
      async_for items (handle_frame E self) w
      = (w', map g (List.filter truthy (result_values evs)), inr tt)
      /\ cord_objs w' = cord_objs w
      /\ clock w' = clock w
      /\ log w' = log w ++ trace_lines E evs
      /\ func_calls w'
         = func_calls w ++ calls_on f (List.filter truthy (result_values evs)).
Proof.
  intros Hstream.
  induction Hstream as [|encoded ev items evs Hf Hrest IH
                        |encoded items evs Hskip Hrest IH];
    intros Hok Hne Hp Hfunc Hpure w Hc.
  - exists w. cbn. rewrite !app_nil_r. repeat split; reflexivity.
  - inversion Hok as [|? ? Hev Hevs]; subst.
    cbn [async_for]. unfold gbind.
    rewrite (handle_frame_event E self encoded ev w Hf).
    destruct ev as [fields|message|value]; simpl in Hne; [|discriminate|].
    + rewrite (dispatch_trace E self fields w Hev).
      destruct (IH Hevs Hne Hp Hfunc Hpure (add_log DEBUG (trace_text E fields) w) Hc)
        as (w' & -> & Hco & Hcl & Hlog & Hfc).
      exists w'. split; [reflexivity|]. split; [exact Hco|].
      split; [exact Hcl|]. split; [|exact Hfc].
      rewrite Hlog. simpl. rewrite <- app_assoc. reflexivity.
    + cbn [result_values flat_map List.app] in Hpure |- *.
      cbn [List.filter] in Hpure |- *.
      fold (result_values evs) in Hpure |- *.
      destruct (truthy value) eqn:Ht.
      * rewrite (dispatch_result_passthrough E self value w c f Ht Hc Hp Hfunc).
        rewrite (Hpure value (or_introl eq_refl)).
        destruct (IH Hevs Hne Hp Hfunc
                    (fun v Hv => Hpure v (or_intror Hv))
                    (add_func_call (func_id f, [value], []) w) Hc)
          as (w' & -> & Hco & Hcl & Hlog & Hfc).
        exists w'. split; [reflexivity|]. split; [exact Hco|].
        split; [exact Hcl|]. split; [exact Hlog|].
        rewrite Hfc. simpl. rewrite <- app_assoc. reflexivity.
      * rewrite (dispatch_result_falsy E self value w Ht).
        destruct (IH Hevs Hne Hp Hfunc Hpure w Hc)
          as (w' & -> & Hco & Hcl & Hlog & Hfc).
        exists w'. repeat split; assumption.
  - cbn [async_for]. unfold gbind.
    rewrite (handle_frame_skipped E self encoded w Hskip).
    destruct (IH Hok Hne Hp Hfunc Hpure w Hc)
      as (w' & -> & Hco & Hcl & Hlog & Hfc).
    exists w'. repeat split; assumption.
Qed.

End PassthroughStub.

(** X12. On an endpoint with passthrough the streaming stub hands every
    truthy result of the platform to the wrapped function, once and in
    order, and yields what the function returns in its place, also when
    that is falsy; falsy results of the platform never reach the function.
    Stated for a function that returns [g v] on each such [v] and leaves
    the world alone, and for well-formed events without an Error. *)
Theorem passthrough_stub_maps_results
    (E : Env) (w : World) (self : nat) (args : list pyval)
    (kwargs : list (str * pyval)) (c : Cord.t) (app : Chute) (f : pyfunc)
    (payload : pyval) (response : Response) (evs : list StreamEvent)
    (g : pyval -> pyval) :
  cord_objs w !! self = Some c ->
  chute_objs w !! Cord._app c = Some app ->
  Cord._func c = Some f ->
  Cord._passthrough c = true ->
  encode_envelope E args kwargs = inr payload ->
  api E (length (api_calls w)) (post_of E c app f payload) = inr response ->
  status response = 200 ->
  stream_of E (content response) evs ->
  Forall event_ok evs ->
  existsb is_error evs = false ->
  (forall v, In v (List.filter truthy (result_values evs)) ->
             forall w0, func_call E (func_id f) [v] [] w0 = (w0, inr (g v))) ->
  exists w',
    _local_stream_call E self args kwargs w
    = (w', map g (List.filter truthy (result_values evs)), inr tt)
    /\ func_calls w'
       = func_calls w ++ calls_on f (List.filter truthy (result_values evs))
    /\ log w'
       = log w
         ++ (DEBUG, py "Invoking remote function " ++ __name__ f
                    ++ py " via HTTP...")
            :: trace_lines E evs ++ [completed_line E c f 0].
Proof.
  intros Hc Happ Hf Hp Hpay Hapi Hst Hstream Hok Hne Hpure.
  rewrite (_local_stream_call_run E self args kwargs w c app f payload
             response Hc Happ Hf Hpay Hapi Hst).
  destruct (async_for_passthrough E self c f g (content response) evs
              Hstream Hok Hne Hp Hf Hpure (posted E w c app f payload) Hc)
    as (w2 & -> & Hco & Hcl & Hlog & Hfc).
  assert (Hc2 : cord_objs w2 !! self = Some c) by (rewrite Hco; exact Hc).
  rewrite (after_yield_run E self (clock w) w2 c f Hc2 Hf).
  eexists. split; [reflexivity|].
  rewrite add_logs_func_calls, add_logs_log, Hfc, Hlog, Hcl.
  change (clock (posted E w c app f payload)) with (clock w).
  rewrite Z.sub_diag. split; [reflexivity|].
  cbn [posted add_api_call add_log log]. rewrite <- !app_assoc. reflexivity.
Qed.

(** The relay endpoint, whose function adds one: the platform streams
    result(0) and result(42), and the stub yields 43 only. *)
Lemma passthrough_stub_maps_results_witness :
  snd (fst (_local_stream_call
              (demo_env
                 (streaming_platform
                    [frame_result (py "0"); frame_result (py "42")])
                 no_answer)
              0%nat [VInt 41] [] relay_world))
  = [VInt 43].
Proof.
  destruct (passthrough_stub_maps_results
              (demo_env
                 (streaming_platform
                    [frame_result (py "0"); frame_result (py "42")])
                 no_answer)
              relay_world 0%nat [VInt 41] [] relay_cord
              {| uid := py "svc-a"; cords := [0%nat] |} demo_func
              (VDict [(py "args", VStr (py "H4uABJUFAAAAAAAAAEsphZQu"));
                      (py "kwargs", VStr (py "H4uABH2ULg=="))])
              (ok_response [frame_result (py "0"); frame_result (py "42")])
              [Result (VInt 0); Result (VInt 42)] successor
              ltac:(vm_compute; reflexivity) ltac:(vm_compute; reflexivity)
              eq_refl eq_refl ltac:(vm_compute; reflexivity)
              eq_refl eq_refl) as (w' & H & _).
  - apply stream_frame; [eexists; split; vm_compute; reflexivity|].
    apply stream_frame; [eexists; split; vm_compute; reflexivity|].
    apply stream_end.
  - repeat constructor.
  - reflexivity.
  - intros v [<-|[]] w0. reflexivity.
  - rewrite H. reflexivity.
Defined.

(** ** The remote handler *)

Section HandlerFacts.

Variable E : Env.

Lemma port_captured_lookup w self c request :
  cord_objs w !! self = Some c ->
  cord_objs (port_captured w self c request) !! self
  = Some (captured c request).
Proof.
  intros Hc. unfold port_captured, captured.
  destruct (bool_decide (Cord._passthrough_port c = None)); [|exact Hc].
  simpl. apply lookup_insert_eq.
Qed.

(** The handler up to the decoding of the envelope. *)
Lemma _request_handler_run self request w c :
  cord_objs w !! self = Some c ->
  _request_handler E self request w
  = let w1 := port_captured w self c request in
    match request_json request with
    | inl e => (w1, inl e)
    | inr doc =>
        match decode_envelope E doc with
        | inl e =>
            if is_UnsafeFileError e then
              (add_log ERROR (hazard_message (exc_str e)) w1,
               inl (AttributeError (py "HTTP_401_FORBIDDEN")))
            else (w1, inl e)
        | inr decoded =>
            match star (fst decoded) with
            | inl e => (w1, inl e)
            | inr args =>
                match starstar (snd decoded) with
                | inl e => (w1, inl e)
                | inr kwargs =>
                    if Cord._stream c then
                      (w1, inr (StreamingResponse
                                  (_remote_stream_call E self args kwargs)))
                    else
                      match _remote_call E self args kwargs w1 with
                      | (w2, inl e) => (w2, inl e)
                      | (w2, inr v) => (w2, inr (Returned v))
                      end
                end
            end
        end
    end.
Proof.
  intros Hc. pose proof (port_captured_lookup w self c request Hc) as Hc1.
  unfold _request_handler. unfold bind at 1. unfold get_cord at 1. rewrite Hc.
  unfold bind at 1.
  assert (Hcap : when (bool_decide (Cord._passthrough_port c = None))
                   (update_cord self
                      (Cord.with_passthrough_port (url_port request))) w
                 = (port_captured w self c request, inr tt)).
  { unfold when, port_captured.
    destruct (bool_decide (Cord._passthrough_port c = None));
      [apply update_cord_run, Hc|reflexivity]. }
  rewrite Hcap. cbv zeta.
  unfold bind at 1. unfold lift at 1.
  destruct (request_json request) as [e|doc]; [reflexivity|].
  unfold bind at 1. unfold try_except, lift at 1.
  destruct (decode_envelope E doc) as [e|decoded].
  { destruct (is_UnsafeFileError e); reflexivity. }
  unfold bind at 1. unfold lift at 1.
  destruct (star (fst decoded)) as [e|args]; [reflexivity|].
  unfold bind at 1. unfold lift at 1.
  destruct (starstar (snd decoded)) as [e|kwargs]; [reflexivity|].
  unfold bind at 1. rewrite (get_cord_run _ _ _ Hc1).
  assert (Hs : Cord._stream (captured c request) = Cord._stream c).
  { unfold captured.
    destruct (bool_decide (Cord._passthrough_port c = None)); reflexivity. }
  rewrite Hs. destruct (Cord._stream c); [reflexivity|].
  unfold bind.
  destruct (_remote_call E self args kwargs (port_captured w self c request))
    as [w2 [e|v]]; reflexivity.
Qed.

End HandlerFacts.

(** X13. Only fickling's UnsafeFileError is caught. A request whose body
    is no JSON, whose envelope fails to decode for another reason (a
    missing [args] key gives KeyError), or whose decoded parts do not
    unpack as positional and keyword arguments, ends the handler with that
    very error: nothing is logged, neither the wrapped function nor the
    sidecar is called, and the endpoint has already taken the port of the
    request. *)
Theorem undecodable_requests_raise_unchanged
    (E : Env) (w : World) (self : nat) (c : Cord.t) (request : Request) :
  cord_objs w !! self = Some c ->
  let w1 := port_captured w self c request in
  (log w1 = log w /\ func_calls w1 = func_calls w
   /\ sidecar_calls w1 = sidecar_calls w
   /\ cord_objs w1 !! self = Some (captured c request))
  /\ (forall e,
        request_json request = inl e ->
        _request_handler E self request w = (w1, inl e))
  /\ (forall doc e,
        request_json request = inr doc ->
        decode_envelope E doc = inl e ->
        is_UnsafeFileError e = false ->
        _request_handler E self request w = (w1, inl e))
  /\ (forall items,
        request_json request = inr (VDict items) ->
        assoc (py "args") items = None ->
        _request_handler E self request w = (w1, inl (KeyError (py "args"))))
  /\ (forall doc args kwargs,
        request_json request = inr doc ->
        decode_envelope E doc = inr (args, kwargs) ->
        star args = inl TypeError \/ starstar kwargs = inl TypeError ->
        _request_handler E self request w = (w1, inl TypeError)).
Proof.
  intros Hc w1.
  split.
  { split; [|split; [|split]];
      [| | |exact (port_captured_lookup w self c request Hc)];
      unfold w1, port_captured;
      destruct (bool_decide (Cord._passthrough_port c = None)); reflexivity. }
  rewrite (_request_handler_run E self request w c Hc). cbv zeta. fold w1.
  split; [|split; [|split]].
  - intros e ->. reflexivity.
  - intros doc e -> -> ->. reflexivity.
  - intros items -> Hargs. unfold decode_envelope, decode_value.
    cbn [py_getitem]. rewrite Hargs. reflexivity.
  - intros doc args kwargs -> -> Hunpack. cbn [fst snd].
    destruct Hunpack as [->| ->]; [reflexivity|].
    destruct (star args) as [e|xs] eqn:Hstar; [|reflexivity].
    destruct args; simpl in Hstar; try discriminate;
      injection Hstar as <-; reflexivity.
Qed.

(** A request whose body has no [args] key. *)
Lemma undecodable_requests_raise_unchanged_witness :
  snd (_request_handler (demo_env no_answer no_answer) 0%nat
         {| url_port := Some 8080;
            request_json := inr (VDict [(py "kwargs", VStr (py "H4uABH2ULg=="))]) |}
         stub_world)
  = inl (KeyError (py "args")).
Proof.
  pose proof (undecodable_requests_raise_unchanged
                (demo_env no_answer no_answer) stub_world 0%nat stub_cord
                {| url_port := Some 8080;
                   request_json :=
                     inr (VDict [(py "kwargs", VStr (py "H4uABH2ULg=="))]) |}
                ltac:(vm_compute; reflexivity))
    as (_ & _ & _ & H & _).
  rewrite (H _ eq_refl eq_refl). reflexivity.
Defined.

Section DirectFacts.

Variable E : Env.



End DirectFacts.








(** ** The chute reference *)

Module RefFacts.
Import Re.

Lemma matches_cat_inv r1 r2 s :
  matches (Cat r1 r2) s ->
  exists s1 s2, s = s1 ++ s2 /\ matches r1 s1 /\ matches r2 s2.
Proof.
  intros Hm. inversion Hm as [| |? ? s1 s2 H1 H2| | | |]; subst.
  exists s1, s2. auto.
Qed.

Lemma matches_class_inv f s :
  matches (Class f) s -> exists c, s = [c] /\ f c = true.
Proof.
  intros Hm. inversion Hm as [|? c Hc| | | | |]; subst. exists c. auto.
Qed.

Lemma matches_CHUTE_REF_RE_body s :
  matches CHUTE_REF_RE_body s
  <-> exists module_name chute_name,
        s = module_name ++ ":"%char :: chute_name
        /\ module_name_ok module_name = true
        /\ chute_name_ok chute_name = true.
Proof.
  unfold CHUTE_REF_RE_body, Plus, Chr. split.
  - intros Hm.
    apply matches_cat_inv in Hm as (s1 & t1 & -> & H1 & Hm).
    apply matches_class_inv in H1 as (c & -> & Hc).
    apply matches_cat_inv in Hm as (s2 & t2 & -> & H2 & Hm).
    apply ReFacts.matches_star_class in H2.
    apply matches_cat_inv in Hm as (s3 & t3 & -> & H3 & Hm).
    apply matches_class_inv in H3 as (colon & -> & Hcolon).
    apply eqb_eq in Hcolon. subst colon.
    apply matches_cat_inv in Hm as (s4 & t4 & -> & H4 & Hm).
    apply matches_class_inv in H4 as (d & -> & Hd).
    apply matches_cat_inv in Hm as (s5 & t5 & -> & H5 & H6).
    apply matches_class_inv in H5 as (e & -> & He).
    apply ReFacts.matches_star_class in H6.
    exists (c :: s2), (d :: e :: t5).
    split; [reflexivity|]. simpl. rewrite Hc, H2, Hd, He, H6. auto.
  - intros (m & n & -> & Hm & Hn).
    destruct m as [|c m]; [discriminate|].
    destruct n as [|d [|e n]]; try discriminate.
    simpl in Hm, Hn.
    apply andb_true_iff in Hm as [Hc Hm].
    apply andb_true_iff in Hn as [Hn Hrest].
    apply andb_true_iff in Hn as [Hd He].
    change ((c :: m) ++ ":"%char :: d :: e :: n)
      with ([c] ++ (m ++ ([":"%char] ++ ([d] ++ ([e] ++ n))))).
    constructor; [constructor; exact Hc|].
    constructor; [apply ReFacts.matches_star_class; exact Hm|].
    constructor; [constructor; apply eqb_eq; reflexivity|].
    constructor; [constructor; exact Hd|].
    constructor; [constructor; exact He|].
    apply ReFacts.matches_star_class; exact Hrest.
Qed.

End RefFacts.

Lemma CHUTE_REF_RE_match_spec s :
  CHUTE_REF_RE_match s = true
  <-> exists module_name chute_name,
        module_name_ok module_name = true
        /\ chute_name_ok chute_name = true
        /\ (s = module_name ++ ":"%char :: chute_name
            \/ s = module_name ++ ":"%char :: chute_name ++ [LF]).
Proof.
  unfold CHUTE_REF_RE_match, Re.match_anchored.
  rewrite orb_true_iff. split.
  - intros [Hfull|Hnl].
    + apply ReFacts.fullmatch_matches in Hfull.
      apply RefFacts.matches_CHUTE_REF_RE_body in Hfull
        as (m & n & -> & Hm & Hn).
      exists m, n. auto.
    + destruct (rev s) as [|c s'] eqn:Hrev; [discriminate|].
      apply andb_true_iff in Hnl as [Hc Hfull].
      apply eqb_eq in Hc. subst c.
      apply ReFacts.fullmatch_matches in Hfull.
      apply RefFacts.matches_CHUTE_REF_RE_body in Hfull
        as (m & n & Hs & Hm & Hn).
      exists m, n. split; [exact Hm|]. split; [exact Hn|]. right.
      apply rev_cons_snoc in Hrev. rewrite Hrev, Hs.
      rewrite <- app_assoc. reflexivity.
  - intros (m & n & Hm & Hn & [->| ->]).
    + left. apply ReFacts.fullmatch_matches.
      apply RefFacts.matches_CHUTE_REF_RE_body. exists m, n. auto.
    + right.
      change (m ++ ":"%char :: n ++ [LF]) with (m ++ (":"%char :: n) ++ [LF]).
      rewrite app_assoc, rev_app_distr. cbn [rev List.app].
      rewrite rev_involutive.
      apply andb_true_iff. split; [reflexivity|].
      apply ReFacts.fullmatch_matches.
      apply RefFacts.matches_CHUTE_REF_RE_body. exists m, n. auto.
Qed.

(** What follows the last separator of a string is determined. *)
Lemma after_last_sep (sep : ascii) l1 t1 l2 t2 :
  ~ In sep t1 -> ~ In sep t2 ->
  l1 ++ sep :: t1 = l2 ++ sep :: t2 -> l1 = l2 /\ t1 = t2.
Proof.
  intros H1 H2. revert l2.
  induction l1 as [|y l1 IH]; intros [|x l2] Heq; simpl in Heq.
  - injection Heq as ->. auto.
  - injection Heq as <- ->. exfalso. apply H1, in_elt.
  - injection Heq as -> <-. exfalso. apply H2, in_elt.
  - injection Heq as -> Heq. destruct (IH _ Heq) as [-> ->]. auto.
Qed.

Lemma ident_chars_no_colon name :
  forallb ident_char name = true -> ~ In ":"%char name.
Proof.
  intros Hall Hin. rewrite forallb_forall in Hall.
  specialize (Hall _ Hin). discriminate Hall.
Qed.

Lemma chute_name_no_colon name :
  chute_name_ok name = true ->
  ~ In ":"%char name /\ ~ In ":"%char (name ++ [LF])
  /\ (2 <= length name)%nat.
Proof.
  destruct name as [|d [|e n]]; try discriminate. simpl.
  intros Hn.
  apply andb_true_iff in Hn as [Hn Hrest].
  apply andb_true_iff in Hn as [Hd He].
  assert (Hno : ~ In ":"%char (d :: e :: n)).
  { intros [->|[->|Hin]]; [discriminate Hd|discriminate He|].
    exact (ident_chars_no_colon n Hrest Hin). }
  split; [exact Hno|]. split; [|lia].
  intros Hin.
  apply (in_app_or (d :: e :: n) [LF]) in Hin as [Hin|[Hin|[]]];
    [exact (Hno Hin)|discriminate Hin].
Qed.

Lemma module_name_no_colon name :
  module_name_ok name = true -> ~ In ":"%char name.
Proof.
  destruct name as [|c rest]; [discriminate|]. simpl.
  intros Hn. apply andb_true_iff in Hn as [Hc Hrest].
  intros [->|Hin]; [discriminate Hc|].
  exact (ident_chars_no_colon rest Hrest Hin).
Qed.

Lemma short_name_refused module_name c :
  CHUTE_REF_RE_match (module_name ++ [":"%char; c]) = true -> False.
Proof.
  intros Hmatch.
  apply CHUTE_REF_RE_match_spec in Hmatch as (m & n & Hm & Hn & Hs).
  destruct (chute_name_no_colon n Hn) as (Hno & Hno' & Hlen).
  assert (Htail : exists t, (2 <= length t)%nat /\ ~ In ":"%char t
                            /\ module_name ++ [":"%char; c] = m ++ ":"%char :: t).
  { destruct Hs as [Hs|Hs].
    - exists n. auto.
    - exists (n ++ [LF]). split; [rewrite length_app; simpl; lia|]. auto. }
  destruct Htail as (t & Ht & Hnot & Heq).
  destruct (Ascii.eqb c ":"%char) eqn:Hc.
  - apply Ascii.eqb_eq in Hc. subst c.
    change (module_name ++ [":"%char; ":"%char])
      with (module_name ++ [":"%char] ++ ":"%char :: []) in Heq.
    rewrite app_assoc in Heq.
    apply after_last_sep in Heq as [_ <-]; [simpl in Ht; lia| |exact Hnot].
    intros [].
  - apply Ascii.eqb_neq in Hc.
    apply after_last_sep in Heq as [_ <-]; [simpl in Ht; lia| |exact Hnot].
    intros [Hin|[]]. congruence.
Qed.

(** X17. Among strings of 8-bit characters, CHUTE_REF_RE accepts exactly
    the strings [module:chute], where the module name is a letter or digit
    followed by letters, digits and underscores, and the chute name is a
    letter followed by at least one letter, digit or underscore (letters of
    either case), and these strings followed by one line feed. So a chute
    name of a single character is refused, and a reference that ends in a
    line feed is let through. *)
Theorem CHUTE_REF_RE_grammar (chute_ref_str : str) :
  (CHUTE_REF_RE_match chute_ref_str = true
   <-> exists module_name chute_name,
         module_name_ok module_name = true
         /\ chute_name_ok chute_name = true
         /\ (chute_ref_str = module_name ++ ":"%char :: chute_name
             \/ chute_ref_str = module_name ++ ":"%char :: chute_name ++ [LF]))
  /\ (forall module_name c,
        CHUTE_REF_RE_match (module_name ++ [":"%char; c]) = false).
Proof.
  pose proof (CHUTE_REF_RE_match_spec chute_ref_str) as Hiff.
  split; [exact Hiff|].
  intros module_name c.
  destruct (CHUTE_REF_RE_match (module_name ++ [":"%char; c])) eqn:Hmatch;
    [|reflexivity].
  exfalso. clear Hiff.
  apply short_name_refused in Hmatch. exact Hmatch.
Qed.

Lemma split_on_no_sep sep s : ~ In sep s -> split_on sep s = [s].
Proof.
  induction s as [|c s IH]; intros Hno; [reflexivity|].
  simpl. destruct (Str.eqb c sep) eqn:Hc.
  - apply eqb_eq in Hc. subst c. exfalso. apply Hno. left. reflexivity.
  - rewrite IH; [reflexivity|]. intros Hin. apply Hno. right. exact Hin.
Qed.

Lemma split_on_first sep s t :
  ~ In sep s -> split_on sep (s ++ sep :: t) = s :: split_on sep t.
Proof.
  induction s as [|c s IH]; intros Hno; simpl.
  - rewrite (proj2 (eqb_eq sep sep) eq_refl). reflexivity.
  - destruct (Str.eqb c sep) eqn:Hc.
    + apply eqb_eq in Hc. subst c. exfalso. apply Hno. left. reflexivity.
    + rewrite IH; [reflexivity|]. intros Hin. apply Hno. right. exact Hin.
Qed.

(** X18. A reference that CHUTE_REF_RE lets through always unpacks:
    splitting it at the colon gives exactly two parts, so the assignment
    of module name and chute name cannot fail. The first part is a
    well-formed module name and the reference is the two parts around one
    colon; the second part is a well-formed chute name, or one followed by
    the line feed that the pattern lets through. *)
Theorem accepted_reference_unpacks (chute_ref_str : str) :
  CHUTE_REF_RE_match chute_ref_str = true ->
  exists module_name chute_name,
    unpack_ref chute_ref_str = inr (module_name, chute_name)
    /\ chute_ref_str = module_name ++ ":"%char :: chute_name
    /\ module_name_ok module_name = true
    /\ (chute_name_ok chute_name = true
        \/ exists name, chute_name = name ++ [LF] /\ chute_name_ok name = true).
Proof.
  intros Hmatch.
  apply CHUTE_REF_RE_match_spec in Hmatch as (m & n & Hm & Hn & Hs).
  pose proof (module_name_no_colon m Hm) as Hm'.
  destruct (chute_name_no_colon n Hn) as (Hno & Hno' & _).
  destruct Hs as [->| ->].
  - exists m, n. split.
    + unfold unpack_ref. rewrite (split_on_first _ _ _ Hm').
      rewrite (split_on_no_sep _ _ Hno). reflexivity.
    + split; [reflexivity|]. split; [exact Hm|]. left. exact Hn.
  - exists m, (n ++ [LF]). split.
    + unfold unpack_ref. rewrite (split_on_first _ _ _ Hm').
      rewrite (split_on_no_sep _ _ Hno'). reflexivity.
    + split; [reflexivity|]. split; [exact Hm|]. right. exists n. auto.
Qed.

(** The reference [my_module:chute]. *)
Lemma accepted_reference_unpacks_witness :
  unpack_ref (py "my_module:chute") = inr (py "my_module", py "chute")
  /\ CHUTE_REF_RE_match (py "my_module:chute") = true.
Proof.
  destruct (accepted_reference_unpacks (py "my_module:chute") eq_refl)
    as (m & n & H & _).
  split; [|reflexivity]. rewrite H. vm_compute in H.
  injection H as <- <-. reflexivity.
Defined.

(** ** The build context *)

Lemma for_each_file_lines paths t :
  for_each paths (fun path => tlog INFO (" "%char :: path)) t
  = ({| logged := logged t ++ map file_line paths; asked := asked t;
        answers := answers t |}, Proceeds tt).
Proof.
  revert t. induction paths as [|p paths IH]; intros t.
  - simpl. unfold tret. rewrite app_nil_r. destruct t; reflexivity.
  - cbn [for_each]. unfold tbind. unfold tlog at 1. rewrite IH.
    cbn [logged asked answers map]. rewrite <- app_assoc. reflexivity.
Qed.

(** The run from the confirmation prompt on, in a terminal [t]. *)
Lemma confirmation_run (files : list str) (t : Terminal) :
  tbind (input confirm_prompt)
    (fun confirm =>
       if negb (Str.str_eqb (Str.strip (Str.lower confirm)) (py "y"))
       then tbind (tlog ERROR (py "Aborting!")) (fun _ => sys_exit 1)
       else tret files) t
  = match answers t with
    | [] =>
        ({| logged := logged t; asked := asked t ++ [confirm_prompt];
            answers := [] |}, EOFError)
    | confirm :: rest =>
        if Str.str_eqb (Str.strip (Str.lower confirm)) (py "y")
        then ({| logged := logged t; asked := asked t ++ [confirm_prompt];
                 answers := rest |}, Proceeds files)
        else ({| logged := logged t ++ [(ERROR, py "Aborting!")];
                 asked := asked t ++ [confirm_prompt]; answers := rest |},
              SystemExit 1)
    end.
Proof.
  unfold tbind at 1, input.
  destruct (answers t) as [|confirm rest]; [reflexivity|].
  destruct (Str.str_eqb (Str.strip (Str.lower confirm)) (py "y"));
    reflexivity.
Qed.

Lemma sample_is_all (files : list str) :
  Nat.eqb (length (firstn 10 files)) (length files)
  = negb (10 <? length files)%nat.
Proof.
  rewrite length_firstn.
  destruct (10 <? length files)%nat eqn:Hlt; cbn [negb].
  - apply Nat.ltb_lt in Hlt. apply Nat.eqb_neq. lia.
  - apply Nat.ltb_ge in Hlt. apply Nat.eqb_eq. lia.
Qed.

(** The log, the prompts and the end of a run, by the lines typed. *)
Lemma temporary_build_directory_run directives lines :
  let files := concat directives in
  temporary_build_directory directives (fresh_terminal lines)
  = match confirmation_answer files lines with
    | None =>
        ({| logged := logged_before_confirmation files lines;
            asked := firstn (S (length lines)) (prompts files);
            answers := [] |}, EOFError)
    | Some confirm =>
        if Str.str_eqb (Str.strip (Str.lower confirm)) (py "y")
        then ({| logged := logged_before_confirmation files lines;
                 asked := prompts files;
                 answers := skipn (length (prompts files)) lines |},
              Proceeds files)
        else ({| logged := logged_before_confirmation files lines
                           ++ [(ERROR, py "Aborting!")];
                 asked := prompts files;
                 answers := skipn (length (prompts files)) lines |},
              SystemExit 1)
    end.
Proof.
  intros files.
  unfold temporary_build_directory. fold files.
  unfold tbind at 1. unfold tlog at 1.
  unfold tbind at 1. rewrite for_each_file_lines.
  cbn [logged asked answers fresh_terminal List.app].
  unfold tbind at 1.
  unfold confirmation_answer, logged_before_confirmation, offer_answer, prompts.
  rewrite sample_is_all, negb_involutive.
  destruct (10 <? length files)%nat.
  - unfold tbind at 1. unfold input at 1. cbn [answers asked logged].
    destruct lines as [|show_all lines].
    + rewrite app_nil_r. reflexivity.
    + cbn [nth_error].
      destruct (Str.str_eqb (Str.lower show_all) (py "y")).
      * rewrite for_each_file_lines, confirmation_run.
        cbn [logged asked answers].
        destruct lines as [|confirm rest]; [reflexivity|].
        cbn [nth_error].
        destruct (Str.str_eqb (Str.strip (Str.lower confirm)) (py "y"));
          [reflexivity|].
        cbn [List.app]. rewrite <- !app_assoc. reflexivity.
      * unfold tret at 1. rewrite confirmation_run.
        cbn [logged asked answers]. rewrite !app_nil_r.
        destruct lines as [|confirm rest]; [reflexivity|].
        cbn [nth_error].
        destruct (Str.str_eqb (Str.strip (Str.lower confirm)) (py "y"));
          reflexivity.
  - unfold tret at 1. rewrite confirmation_run.
    cbn [logged asked answers]. rewrite !app_nil_r.
    destruct lines as [|confirm rest]; [reflexivity|].
    cbn [nth_error].
    destruct (Str.str_eqb (Str.strip (Str.lower confirm)) (py "y"));
      reflexivity.
Qed.

Lemma logged_before_confirmation_lines files lines line :
  In line (logged_before_confirmation files lines) ->
  line = (INFO, found_message (length files))
  \/ In line (map file_line (firstn 10 files)).
Proof.
  unfold logged_before_confirmation. intros [<-|Hin]; [left; reflexivity|].
  right. apply in_app_or in Hin as [Hin|Hin]; [exact Hin|].
  destruct (offer_answer files lines) as [show_all|]; [|destruct Hin].
  destruct (Str.str_eqb (Str.lower show_all) (py "y")); [exact Hin|destruct Hin].
Qed.

Lemma file_line_shown path paths :
  In (file_line path) (map file_line paths) -> In path paths.
Proof.
  intros Hin. apply in_map_iff in Hin as (p & Hp & Hin).
  injection Hp as ->. exact Hin.
Qed.

(** X19. Before a build, only a sample of the build context is ever
    shown, and only the answer to the confirmation decides. Whatever is
    typed, every file line logged names one of the first ten files:
    answering [y] to the offer to see the rest logs the same ten again. The
    line that answers the confirmation is the second typed when the offer
    was made (more than ten files) and the first otherwise. If that line,
    lowercased and stripped, is [y], the run goes on to copy all the files,
    shown or not, and logs nothing more; if it is anything else, the run
    logs [Aborting!] and exits with code 1; if it was never typed, the run
    ends at the end of the input. The answer to the offer changes the log
    only. *)
Theorem build_prompt_shows_only_the_sample
    (directives : list (list str)) (lines : list str) :
  let files := concat directives in
  let run := temporary_build_directory directives (fresh_terminal lines) in
  (forall path,
      In (file_line path) (logged (fst run)) -> In path (firstn 10 files))
  /\ (forall confirm,
        confirmation_answer files lines = Some confirm ->
        (Str.strip (Str.lower confirm) = py "y" ->
         snd run = Proceeds files
         /\ logged (fst run) = logged_before_confirmation files lines)
        /\ (Str.strip (Str.lower confirm) <> py "y" ->
            snd run = SystemExit 1
            /\ logged (fst run)
               = logged_before_confirmation files lines
                 ++ [(ERROR, py "Aborting!")])
        /\ asked (fst run) = prompts files)
  /\ (confirmation_answer files lines = None ->
      snd run = EOFError
      /\ logged (fst run) = logged_before_confirmation files lines
      /\ asked (fst run) = firstn (S (length lines)) (prompts files)).
Proof.
  intros files run. unfold run.
  rewrite (temporary_build_directory_run directives lines). fold files.
  split; [|split].
  - intros path Hin.
    assert (Hsample : In (file_line path)
                        (logged_before_confirmation files lines) ->
                      In path (firstn 10 files)).
    { intros Hbefore.
      apply logged_before_confirmation_lines in Hbefore as [Hfound|Hshown];
        [discriminate Hfound | apply file_line_shown, Hshown]. }
    destruct (confirmation_answer files lines) as [confirm|];
      [|exact (Hsample Hin)].
    destruct (Str.str_eqb (Str.strip (Str.lower confirm)) (py "y"));
      cbn [fst logged] in Hin; [exact (Hsample Hin)|].
    apply in_app_or in Hin as [Hin|[Habort|[]]];
      [exact (Hsample Hin) | discriminate Habort].
  - intros confirm ->.
    destruct (Str.str_eqb (Str.strip (Str.lower confirm)) (py "y")) eqn:Hy.
    + apply str_eqb_eq in Hy.
      split; [intros _; split; reflexivity|].
      split; [intros Hno; contradiction | reflexivity].
    + split; [|split; [intros _; split; reflexivity | reflexivity]].
      intros Hyes. apply str_eqb_eq in Hyes. rewrite Hyes in Hy.
      discriminate Hy.
  - intros ->. repeat split; reflexivity.
Qed.

(** Twelve files, [y] to see the rest, [ Y ] to confirm: the first ten
    are logged twice, the last two never, and all twelve are copied. *)
Example build_prompt_twelve_files :
  snd (temporary_build_directory [twelve_files]
         (fresh_terminal [py "y"; py " Y "]))
  = Proceeds twelve_files
  /\ length (logged (fst (temporary_build_directory [twelve_files]
                            (fresh_terminal [py "y"; py " Y "]))))
     = 21%nat
  /\ existsb (fun line => Str.str_eqb (snd line) (py " /src/f11"))
       (logged (fst (temporary_build_directory [twelve_files]
                       (fresh_terminal [py "y"; py " Y "]))))
     = false.
Proof. vm_compute. repeat split; reflexivity. Qed.

(** Three files and the answer [n]: one question, [Aborting!], exit
    code 1. Twelve files, [y] to the offer and [n] to the confirmation: the
    same end, though the offer was accepted. *)
Example build_prompt_refused :
  temporary_build_directory [[py "a"; py "b"; py "c"]] (fresh_terminal [py "n"])
  = ({| logged := [(INFO, found_message 3); file_line (py "a");
                   file_line (py "b"); file_line (py "c");
                   (ERROR, py "Aborting!")];
        asked := [confirm_prompt]; answers := [] |}, SystemExit 1)
  /\ snd (temporary_build_directory [twelve_files]
            (fresh_terminal [py "y"; py "n"]))
     = SystemExit 1.
Proof. vm_compute. split; reflexivity. Qed.
